(** * FinanceSolution: the financial math engine of [app.py]

    A shallow embedding of the utility functions of [app.py] ([emi],
    [loan_summary], [gst_breakup], [fd_maturity], [rd_maturity],
    [estimate_credit_score]) and of the [/api/currency] handler, followed by
    the properties the specification states about them.

    The Python functions are written once, over the interface [PyFloat] of the
    float operations the source uses.  Its instance [binary64] is the
    arithmetic of the code: IEEE-754 doubles (Rocq's primitive floats), with
    Python's [round(x, ndigits)], [round(x)], [int -> float] conversion and
    decimal literals implemented on the exact binary value.  Concrete runs of
    the code are evaluated on this instance, and the properties that depend
    on rounding (the range and the monotonicity of the credit score, the
    rounded fields and the round trip of the GST breakup) are proved on it
    from the specification of round-to-nearest in [SpecFloat].

    Properties that depend on control flow only are proved for every
    instance of the interface. *)

From Stdlib Require Import ZArith QArith Floats Bool String Lia.
From stdpp Require Import base gmap strings.

Local Open Scope string_scope.
Local Open Scope Z_scope.

(* ================================================================== *)
(** ** Exceptions and the error monad *)

(** The exceptions the modelled code can raise. *)
Inductive exn : Type :=
  | ZeroDivisionError   (* float division by zero; [0.0 ** negative] *)
  | OverflowError       (* int too large for a float; [round(inf)]; [pow] range error *)
  | ValueError          (* [round(nan)] *)
  | KeyError            (* dict subscript on a missing key *)
  | TypeError.          (* [round] of a complex power *)

Inductive result (A : Type) : Type :=
  | Ok (a : A)
  | Raise (e : exn).
Arguments Ok {A} a.
Arguments Raise {A} e.

Definition bind {A B : Type} (c : result A) (k : A -> result B) : result B :=
  match c with
  | Ok a => k a
  | Raise e => Raise e
  end.

Notation "'let*' x ':=' c 'in' k" := (bind c (fun x => k))
  (at level 10, x name, c at level 100, k at level 200).

(* ================================================================== *)
(** ** The float operations used by the source *)

(** [of_int] is the implicit conversion of an [int] operand in a mixed
    [int]/[float] operation (it raises [OverflowError] on a double when the
    int is out of range); [flit] reads a decimal literal; [fdiv] is the
    quotient once Python has checked the divisor; [round_nd x n] is
    [round(x, n)] for [n >= 0] and [round_int x] is [round(x)]. *)
Class PyFloat (F : Type) : Type := {
  of_int : Z -> result F;
  flit : Q -> F;
  fadd : F -> F -> F;
  fsub : F -> F -> F;
  fmul : F -> F -> F;
  fdiv : F -> F -> F;
  feqb : F -> F -> bool;
  fltb : F -> F -> bool;
  fleb : F -> F -> bool;
  round_nd : F -> N -> F;
  round_int : F -> result Z
}.

Declare Scope py_scope.
Delimit Scope py_scope with py.
Notation "x + y" := (fadd x y) : py_scope.
Notation "x - y" := (fsub x y) : py_scope.
Notation "x * y" := (fmul x y) : py_scope.
Notation "x == y" := (feqb x y) (at level 70, no associativity) : py_scope.
Notation "x <= y" := (fleb x y) : py_scope.
Notation "x < y" := (fltb x y) : py_scope.

(** [#q] is the float of the decimal literal [q].  The notation is kept in a
    module, to be imported where the Python code is read, since [#] also
    builds rationals. *)
Module PyLiterals.
Notation "# q" := (flit q%Q) (at level 5, q at level 1, format "# q") : py_scope.
End PyLiterals.

(* ================================================================== *)
(** ** The utility functions of [app.py] *)

Section Engine.
Context {F : Type} `{PyFloat F}.

(** The C library's [pow], reached by [float ** x] once CPython's
    [float_pow] has dealt with its special cases.  It is a parameter: its
    rounding is not fixed by IEEE-754.  Its errors stand for those of
    [float_pow] ([OverflowError], [ZeroDivisionError], and [TypeError] from
    rounding a complex power). *)
Variable libm_pow : F -> F -> result F.

Import PyLiterals.
Local Open Scope py_scope.

(** [x / y] on floats: Python raises on a zero divisor. *)
Definition py_div (x y : F) : result F :=
  if y == #0 then Raise ZeroDivisionError else Ok (fdiv x y).

(** [v ** w] on floats: [v ** 0] is [1.0] for every [v]. *)
Definition py_pow (v w : F) : result F :=
  if w == #0 then Ok #1 else libm_pow v w.

(** [min(a, b)] keeps [a] unless [b < a]; [max(a, b)] keeps [a] unless
    [b > a]. *)
Definition py_min (a b : F) : F := if b < a then b else a.
Definition py_max (a b : F) : F := if a < b then b else a.

Notation "x / y" := (py_div x y) : py_scope.
Notation "x ** y" := (py_pow x y) (at level 30, right associativity) : py_scope.

(** [emi(principal, annual_rate_percent, months)] *)
Definition emi (principal annual_rate_percent : F) (months : Z) : result F :=
  if (principal <= #0) || (months <=? 0)%Z then Ok #0
  else
    let* r100 := annual_rate_percent / #100 in
    let* r := r100 / #12 in
    if r == #0 then
      let* m := of_int months in
      let* q := principal / m in
      Ok (round_nd q 2)
    else
      let pr := principal * r in
      let* m := of_int months in
      let* g := (#1 + r) ** m in
      let num := pr * g in
      let* m' := of_int months in
      let* g' := (#1 + r) ** m' in
      let* e := num / (g' - #1) in
      Ok (round_nd e 2).

(** The dict [loan_summary] returns; its key "emi" is [loan_emi] here,
    [emi] being the function. *)
Record LoanSummary : Type := {
  loan_emi : F;
  total_payment : F;
  total_interest : F
}.

(** [loan_summary(principal, annual_rate_percent, months)] *)
Definition loan_summary (principal annual_rate_percent : F) (months : Z)
  : result LoanSummary :=
  let* e := emi principal annual_rate_percent months in
  let* m := of_int months in
  let total_payment := round_nd (e * m) 2 in
  let total_interest := round_nd (total_payment - principal) 2 in
  Ok {| loan_emi := e;
        total_payment := total_payment;
        total_interest := total_interest |}.

(** The policy the specification words in its section 4.1, for comparison
    with [loan_summary]: the totals are rounded "independently (not
    re-derived from rounded EMI)", that is from the EMI before [round].
    [emi_unrounded] is [emi] without its two calls of [round]. *)
Definition emi_unrounded (principal annual_rate_percent : F) (months : Z)
  : result F :=
  if (principal <= #0) || (months <=? 0)%Z then Ok #0
  else
    let* r100 := annual_rate_percent / #100 in
    let* r := r100 / #12 in
    if r == #0 then
      let* m := of_int months in
      principal / m
    else
      let pr := principal * r in
      let* m := of_int months in
      let* g := (#1 + r) ** m in
      let num := pr * g in
      let* m' := of_int months in
      let* g' := (#1 + r) ** m' in
      num / (g' - #1).

Definition loan_summary_independent
    (principal annual_rate_percent : F) (months : Z) : result LoanSummary :=
  let* e := emi_unrounded principal annual_rate_percent months in
  let* m := of_int months in
  Ok {| loan_emi := round_nd e 2;
        total_payment := round_nd (e * m) 2;
        total_interest := round_nd (e * m - principal) 2 |}.

Record GstBreakup : Type := {
  base : F;
  gst : F;
  gross : F
}.

(** [gst_breakup(amount, gst_rate_percent, mode)] *)
Definition gst_breakup (amount gst_rate_percent : F) (mode : string)
  : result GstBreakup :=
  let* r := gst_rate_percent / #100 in
  if String.eqb mode "add" then
    let tax := round_nd (amount * r) 2 in
    let gross := round_nd (amount + tax) 2 in
    Ok {| base := amount; gst := tax; gross := gross |}
  else
    let* base :=
      if negb (r == #0) then
        let* q := amount / (#1 + r) in Ok (round_nd q 2)
      else Ok amount in
    let tax := round_nd (amount - base) 2 in
    Ok {| base := base; gst := tax; gross := amount |}.

(** A value is rounded to [nd] decimals when [round(v, nd) == v]. *)
Definition is_rounded (nd : N) (v : F) : Prop := (round_nd v nd == v) = true.

Record Deposit : Type := {
  maturity : F;
  interest : F
}.

(** [fd_maturity(principal, annual_rate_percent, years, comp_per_year)] *)
Definition fd_maturity (principal annual_rate_percent years : F)
    (comp_per_year : Z) : result Deposit :=
  let* r := annual_rate_percent / #100 in
  let n := comp_per_year in
  let t := years in
  let* nf := of_int n in
  let* rn := r / nf in
  let* nf' := of_int n in
  let* g := (#1 + rn) ** (nf' * t) in
  let maturity := principal * g in
  let interest := maturity - principal in
  Ok {| maturity := round_nd maturity 2; interest := round_nd interest 2 |}.

(** [rd_maturity(monthly_installment, annual_rate_percent, months,
    comp_per_year)] *)
Definition rd_maturity (monthly_installment annual_rate_percent : F)
    (months : Z) (comp_per_year : Z) : result Deposit :=
  if (monthly_installment <= #0) || (months <=? 0)%Z then
    Ok {| maturity := #0; interest := #0 |}
  else
    let* r_annual := annual_rate_percent / #100 in
    let* i := r_annual / #12 in
    if i == #0 then
      let* m := of_int months in
      let maturity := monthly_installment * m in
      Ok {| maturity := round_nd maturity 2; interest := #0 |}
    else
      let* m := of_int months in
      let* g := (#1 + i) ** m in
      let* factor := (g - #1) / i in
      let maturity := monthly_installment * factor * (#1 + i) in
      let* m' := of_int months in
      let deposit := monthly_installment * m' in
      let interest := maturity - deposit in
      Ok {| maturity := round_nd maturity 2; interest := round_nd interest 2 |}.

(** [estimate_credit_score(payment_history_pct, utilization_pct,
    credit_age_years, inquiries, dti_pct)]; [inquiries] is an [int], so
    [inq] and [s_inq] are computed on integers. *)
Definition estimate_credit_score
    (payment_history_pct utilization_pct credit_age_years : F)
    (inquiries : Z) (dti_pct : F) : result Z :=
  let ph := py_max #0 (py_min #100 payment_history_pct) in
  let util := py_max #0 (py_min #100 utilization_pct) in
  let age := py_max #0 credit_age_years in
  let inq := Z.max 0 inquiries in
  let dti := py_max #0 (py_min #100 dti_pct) in
  let s_payment := ph in
  let s_util := py_max #0 (#100 - util) in
  let s_age := py_min #100 (age * #10) in
  let s_inq := Z.max 0 (100 - inq * 10) in
  let s_dti := py_max #0 (#100 - dti) in
  let* s_inq_f := of_int s_inq in
  let score_100 :=
    #0.35 * s_payment + #0.30 * s_util + #0.15 * s_age
    + #0.10 * s_inq_f + #0.10 * s_dti in
  let* pct := score_100 / #100 in
  let score := #300 + pct * #550 in
  round_int score.

(** [STATIC_RATES_BASE_USD] *)
Definition STATIC_RATES_BASE_USD : gmap string F :=
  list_to_map
    [ ("INR", #84); ("USD", #1); ("EUR", #0.91); ("GBP", #0.76);
      ("JPY", #155); ("AUD", #1.45); ("CAD", #1.34) ].

(** [k in d] and [d[k]] on a dict. *)
Definition dict_contains (k : string) (d : gmap string F) : bool :=
  match d !! k with Some _ => true | None => false end.
Definition dict_get (d : gmap string F) (k : string) : result F :=
  match d !! k with Some v => Ok v | None => Raise KeyError end.

(** The request body of [/api/currency] once its fields are read:
    [float(data["amount"])], [data["from_code"]], [data["to_code"]] and
    [data.get("custom_rate")] ([None] when absent, else passed to
    [float]). *)
Record CurrencyRequest : Type := {
  amount : F;
  from_code : string;
  to_code : string;
  custom_rate : option F
}.

(** What the handler returns: the JSON of a conversion (status 200), or
    an error message with its status. *)
Inductive CurrencyResponse : Type :=
  | Converted (converted rate_used : F) (note : string)
  | ErrorResponse (error : string) (status : Z).

Definition unsupported_currency : string :=
  "Unsupported currency in static table. Provide custom_rate or update server rates.".

(** [str.upper] of the runtime. *)
Variable upper : string -> string.

(** [api_currency()] *)
Definition api_currency (data : CurrencyRequest) : result CurrencyResponse :=
  let amount := amount data in
  let from_code := upper (from_code data) in
  let to_code := upper (to_code data) in
  match custom_rate data with
  | Some rate =>
      Ok (Converted (round_nd (amount * rate) 4) rate "Custom rate")
  | None =>
      if negb (dict_contains from_code STATIC_RATES_BASE_USD)
         || negb (dict_contains to_code STATIC_RATES_BASE_USD)
      then Ok (ErrorResponse unsupported_currency 400)
      else
        let* rate_from := dict_get STATIC_RATES_BASE_USD from_code in
        let* amount_usd := amount / rate_from in
        let* rate_to := dict_get STATIC_RATES_BASE_USD to_code in
        let converted := amount_usd * rate_to in
        let* rate_to' := dict_get STATIC_RATES_BASE_USD to_code in
        let* rate_from' := dict_get STATIC_RATES_BASE_USD from_code in
        let* rate_used := rate_to' / rate_from' in
        Ok (Converted (round_nd converted 4) rate_used "Static demo rates")
  end.

End Engine.

(* ================================================================== *)
(** ** Decimal rounding *)

(** The integer nearest to [num / den] for [den > 0], ties to the even
    one: the rounding of [round]. *)
Definition round_half_even (num den : Z) : Z :=
  let q := num / den in
  match 2 * (num mod den) ?= den with
  | Lt => q
  | Gt => q + 1
  | Eq => if Z.even q then q else q + 1
  end.

(* ================================================================== *)
(** ** IEEE-754 doubles *)

Module Binary64.

Definition sf_of_Z (k : Z) : spec_float :=
  match k with
  | Z0 => S754_zero false
  | Zpos p => S754_finite false p 0
  | Zneg p => S754_finite true p 0
  end.

(** The double nearest to [num / den] (ties to even), as [strtod] and the
    parser of literals compute it. *)
Definition of_ratio (num den : Z) : float :=
  SF2Prim (SFdiv prec emax (sf_of_Z num) (sf_of_Z den)).

Definition lit (q : Q) : float := of_ratio (Qnum q) (Zpos (Qden q)).

(** [PyLong_AsDouble]: the nearest double (ties to even), [OverflowError]
    unless it is finite. *)
Definition of_int (z : Z) : result float :=
  let f := SF2Prim (binary_normalize prec emax z 0 false) in
  if is_finite f then Ok f else Raise OverflowError.

(** The signed mantissa of a finite double. *)
Definition signed (s : bool) (m : positive) : Z :=
  if s then Zneg m else Zpos m.

(** [float.__round__] with [ndigits >= 0]: nan and infinities round to
    themselves; a finite [x = m * 2^e] is rounded, on its exact value, to
    the nearest multiple [k / 10^nd] (ties to even), which is then read
    back as the nearest double; a zero result keeps the sign of [x]. *)
Definition round_nd (x : float) (nd : N) : float :=
  match Prim2SF x with
  | S754_finite s m e =>
      let p := 10 ^ Z.of_N nd in
      let k := if 0 <=? e then signed s m * p * 2 ^ e
               else round_half_even (signed s m * p) (2 ^ (- e)) in
      if k =? 0 then (if s then neg_zero else zero) else of_ratio k p
  | _ => x
  end.

(** [float.__round__] without [ndigits]: an [int]. *)
Definition round_int (x : float) : result Z :=
  match Prim2SF x with
  | S754_nan => Raise ValueError
  | S754_infinity _ => Raise OverflowError
  | S754_zero _ => Ok 0
  | S754_finite s m e =>
      Ok (if 0 <=? e then signed s m * 2 ^ e
          else round_half_even (signed s m) (2 ^ (- e)))
  end.

End Binary64.

#[export] Instance binary64 : PyFloat float := {|
  of_int := Binary64.of_int;
  flit := Binary64.lit;
  fadd := PrimFloat.add;
  fsub := PrimFloat.sub;
  fmul := PrimFloat.mul;
  fdiv := PrimFloat.div;
  feqb := PrimFloat.eqb;
  fltb := PrimFloat.ltb;
  fleb := PrimFloat.leb;
  round_nd := Binary64.round_nd;
  round_int := Binary64.round_int
|}.

(* ================================================================== *)
(** ** The request handlers, on doubles *)

(** [request.json] is taken to be a JSON object, [data]; its values are
    [None], a [bool], an [int], a [float], a [str], a [list] or a
    [dict]. *)
#[warnings="-register-all"] Inductive json : Type :=
  | JNull
  | JBool (b : bool)
  | JInt (z : Z)
  | JFloat (f : float)
  | JStr (s : string)
  | JList (l : list json)
  | JDict (d : list (string * json)).

(** [int(x)] of a float: the integer part, toward zero; [ValueError] on
    nan and [OverflowError] on an infinity. *)
Definition int_of_float (x : float) : result Z :=
  match Prim2SF x with
  | S754_nan => Raise ValueError
  | S754_infinity _ => Raise OverflowError
  | S754_zero _ => Ok 0
  | S754_finite s m e =>
      let q := if 0 <=? e then Zpos m * 2 ^ e else Zpos m / 2 ^ (- e) in
      Ok (if s then - q else q)
  end.

(** The dict of [jsonify({"loanA": a, "loanB": b})]. *)
Record LoanCompare : Type := {
  loanA : LoanSummary (F:=float);
  loanB : LoanSummary (F:=float)
}.

(** The dict of [jsonify({"score": score, "band": band})]. *)
Record CreditScore : Type := {
  score : Z;
  band : string
}.

(** The bands of [api_credit_score]. *)
Definition credit_band (score : Z) : string :=
  if 750 <=? score then "Excellent"
  else if 700 <=? score then "Good"
  else if 650 <=? score then "Fair"
  else "Poor".

(** The order of the bands, for the statements about them. *)
Definition band_rank (band : string) : Z :=
  if String.eqb band "Excellent" then 3
  else if String.eqb band "Good" then 2
  else if String.eqb band "Fair" then 1
  else 0.

(** [gst_breakup] only compares its [mode] with "add".  A [mode] of the
    request that is not a [str] is never equal to "add"; it is passed on
    as the empty string, which is not either. *)
Definition mode_of_json (v : json) : string :=
  match v with
  | JStr s => s
  | _ => EmptyString
  end.

Section Handlers.
Variable libm_pow : float -> float -> result float.

(** [float(s)] and [int(s)] of a [str]: the parsers of the runtime, which
    raise [ValueError] on a malformed literal. *)
Variable float_of_str : string -> result float.
Variable int_of_str : string -> result Z.

(** [float(x)] *)
Definition py_float (v : json) : result float :=
  match v with
  | JFloat f => Ok f
  | JInt z => of_int z
  | JBool b => Ok (if b then flit 1 else flit 0)
  | JStr s => float_of_str s
  | JNull | JList _ | JDict _ => Raise TypeError
  end.

(** [int(x)] *)
Definition py_int (v : json) : result Z :=
  match v with
  | JInt z => Ok z
  | JBool b => Ok (if b then 1 else 0)
  | JFloat f => int_of_float f
  | JStr s => int_of_str s
  | JNull | JList _ | JDict _ => Raise TypeError
  end.

(** [data.get(k, default)] and [data[k]] *)
Definition data_get (data : gmap string json) (k : string) (default : json)
  : json :=
  match data !! k with Some v => v | None => default end.

Definition data_item (data : gmap string json) (k : string) : result json :=
  match data !! k with Some v => Ok v | None => Raise KeyError end.

(** [api_emi()] *)
Definition api_emi (data : gmap string json) : result LoanSummary :=
  let* p := py_float (data_get data "principal" (JInt 0)) in
  let* r := py_float (data_get data "annual_rate_percent" (JInt 0)) in
  let* m := py_int (data_get data "months" (JInt 0)) in
  loan_summary libm_pow p r m.

(** [api_loan_compare()] *)
Definition api_loan_compare (data : gmap string json) : result LoanCompare :=
  let* v := data_item data "p1" in
  let* p1 := py_float v in
  let* v := data_item data "r1" in
  let* r1 := py_float v in
  let* v := data_item data "m1" in
  let* m1 := py_int v in
  let* a := loan_summary libm_pow p1 r1 m1 in
  let* v := data_item data "p2" in
  let* p2 := py_float v in
  let* v := data_item data "r2" in
  let* r2 := py_float v in
  let* v := data_item data "m2" in
  let* m2 := py_int v in
  let* b := loan_summary libm_pow p2 r2 m2 in
  Ok {| loanA := a; loanB := b |}.

(** [api_gst()] *)
Definition api_gst (data : gmap string json) : result GstBreakup :=
  let* v := data_item data "amount" in
  let* amount := py_float v in
  let* v := data_item data "gst_rate" in
  let* gst_rate := py_float v in
  let mode := data_get data "mode" (JStr "add") in
  gst_breakup amount gst_rate (mode_of_json mode).

(** [api_fd()] *)
Definition api_fd (data : gmap string json) : result Deposit :=
  let* v := data_item data "principal" in
  let* principal := py_float v in
  let* v := data_item data "annual_rate" in
  let* rate := py_float v in
  let* v := data_item data "years" in
  let* years := py_float v in
  let* comp := py_int (data_get data "comp_per_year" (JInt 4)) in
  fd_maturity libm_pow principal rate years comp.

(** [api_rd()]: [rd_maturity] is called with its default
    [comp_per_year = 4]. *)
Definition api_rd (data : gmap string json) : result Deposit :=
  let* v := data_item data "monthly_installment" in
  let* monthly := py_float v in
  let* v := data_item data "annual_rate" in
  let* rate := py_float v in
  let* v := data_item data "months" in
  let* months := py_int v in
  rd_maturity libm_pow monthly rate months 4.

(** [api_credit_score()] *)
Definition api_credit_score (data : gmap string json) : result CreditScore :=
  let* v := data_item data "payment_history_pct" in
  let* ph := py_float v in
  let* v := data_item data "utilization_pct" in
  let* ut := py_float v in
  let* v := data_item data "credit_age_years" in
  let* age := py_float v in
  let* v := data_item data "inquiries" in
  let* inq := py_int v in
  let* v := data_item data "dti_pct" in
  let* dti := py_float v in
  let* score := estimate_credit_score ph ut age inq dti in
  Ok {| score := score; band := credit_band score |}.

End Handlers.

(** CPython's [float_pow] returns [1.0] for the base [1.0], whatever the
    exponent: the condition on the [pow] of the runtime in the statements
    on rates too small to change [1 + r]. *)
Definition pow_of_one (libm_pow : float -> float -> result float) : Prop :=
  forall w : float, libm_pow (flit 1) w = Ok (flit 1).

(** Whether a double is exactly [1.0]. *)
Definition is_one (x : float) : bool :=
  match Prim2SF x with
  | S754_finite false 4503599627370496 (-52) => true
  | _ => false
  end.

(* ================================================================== *)
(** ** Values of doubles and their rounding *)

(** The definitions of this part belong to the proofs on doubles, not to
    the source: the value of a double as an integer number of units of
    [2^-1074], round-to-nearest on such values, and the four operations
    and [round(., 2)] expressed on them. *)

(** The location of a remainder [r] of a division by [d], for [0 <= r < d]. *)
Definition loc_of (r d : Z) : location :=
  if r =? 0 then loc_Exact else loc_Inexact (2 * r ?= d).

(** The record of the quotient [n / d] with the location of its remainder. *)
Definition rec_of (n d : Z) : shr_record :=
  shr_record_of_loc (n / d) (loc_of (n mod d) d).

(** The float of sign [s] and value [r * 2^e], for a rounded mantissa
    [0 <= r <= 2^53]: a carry to [2^53] is renormalised, and an exponent
    beyond 971 overflows. *)
Definition pack (s : bool) (r e : Z) : spec_float :=
  match r with
  | Z0 => S754_zero s
  | Zpos p =>
      if r <? 2 ^ 53 then
        if e <=? 971 then S754_finite s p e else S754_infinity s
      else
        if e + 1 <=? 971 then S754_finite s 4503599627370496 (e + 1)
        else S754_infinity s
  | Zneg _ => S754_nan
  end.

(** The value of a float in units of [2^-1074], the smallest positive
    double: an integer for every valid finite float.  The infinities are
    given values beyond every finite one, and nan the value 0. *)
Definition sv (x : spec_float) : Z :=
  match x with
  | S754_zero _ => 0
  | S754_finite s m e => (if s then - Zpos m else Zpos m) * 2 ^ (e + 1074)
  | S754_infinity s => if s then - 2 ^ 2100 else 2 ^ 2100
  | S754_nan => 0
  end.

Definition is_nan_sf (x : spec_float) : bool :=
  match x with S754_nan => true | _ => false end.

(** Rounding to binary64, on values counted in units of [2^-1074]: the
    value [N / D >= 0] is rounded to the nearest multiple of [2^K], ties to
    even, where [2^K] is the spacing of the doubles around it (1 below
    [2^53] units). *)
Definition RNs (N D : Z) : Z :=
  let K := Z.max 0 (Zdigits2 (N / D) - 53) in
  round_half_even N (D * 2 ^ K) * 2 ^ K.

(** Non-negative finite floats: a zero, or a valid positive float. *)
Definition nn (x : spec_float) : Prop :=
  match x with
  | S754_zero _ => True
  | S754_finite false m e => valid_binary x = true
  | _ => False
  end.

(** [z] is the float of value [w >= 0]: finite below [2^1024], and the
    positive infinity from there on. *)
Definition res (z : spec_float) (w : Z) : Prop :=
  if w <? 2 ^ 2098 then nn z /\ sv z = w else z = S754_infinity false.

(** A double that is a zero or a positive finite number, and its value in
    units of [2^-1074]. *)
Definition fin (a : float) : Prop := nn (Prim2SF a).
Definition val (a : float) : Z := sv (Prim2SF a).
Definition notnan (a : float) : Prop := is_nan_sf (Prim2SF a) = false.

(** The four operations on values: the exact result, rounded. *)
Definition mulv (a b : Z) : Z := RNs (a * b) (2 ^ 1074).
Definition addv (a b : Z) : Z := RNs (a + b) 1.
Definition subv (a b : Z) : Z := RNs (a - b) 1.
Definition divv (a b : Z) : Z := RNs (a * 2 ^ 1074) b.

(** [fb a j]: [a] is a non-negative finite double of value at most [2^j]. *)
Definition fb (a : float) (j : Z) : Prop := fin a /\ val a <= 2 ^ (1074 + j).

(** The clamp [max(0, min(100, x))] of [estimate_credit_score]. *)
Definition clamp (x : float) : float :=
  py_max (flit 0) (py_min (flit 100) x).

(** Its sub-score of the credit age. *)
Definition s_age (age : float) : float :=
  py_min (flit 100) (fmul (py_max (flit 0) age) (flit 10)).

(** Its sub-score of the inquiries. *)
Definition s_inq (inq : Z) : Z := Z.max 0 (100 - Z.max 0 inq * 10).

(** The value [100.0]. *)
Definition V100 : Z := 100 * 2 ^ 1074.

(** The score, from the values of the five sub-scores. *)
Definition score_v (sp su sa si sd : Z) : Z :=
  let s100 :=
    addv (addv (addv (addv (mulv (val (flit 0.35)) sp)
                           (mulv (val (flit 0.30)) su))
                     (mulv (val (flit 0.15)) sa))
               (mulv (val (flit 0.10)) si))
         (mulv (val (flit 0.10)) sd) in
  round_half_even
    (addv (val (flit 300)) (mulv (divv s100 (val (flit 100))) (val (flit 550))))
    (2 ^ 1074).

(** [Binary64.round_nd] on the specification of a double. *)
Definition round_nd_sf (nd : N) (x : spec_float) : spec_float :=
  match x with
  | S754_finite s m e =>
      let p := 10 ^ Z.of_N nd in
      let k := if 0 <=? e then Binary64.signed s m * p * 2 ^ e
               else round_half_even (Binary64.signed s m * p) (2 ^ (- e)) in
      if k =? 0 then S754_zero s
      else SFdiv prec emax (Binary64.sf_of_Z k) (Binary64.sf_of_Z p)
  | _ => x
  end.

(** A float that is not a nan and satisfies the invariant of doubles. *)
Definition proper (x : spec_float) : Prop :=
  valid_binary x = true /\ is_nan_sf x = false.

(** A zero or a finite float. *)
Definition finite_sf (x : spec_float) : Prop :=
  match x with
  | S754_zero _ | S754_finite _ _ _ => True
  | _ => False
  end.



(* ================================================================== *)
(** ** Properties of the control flow, for every float arithmetic *)

Section ControlFlow.
Context {F : Type} `{PyFloat F}.
Variable libm_pow : F -> F -> result F.
Variable upper : string -> string.

Import PyLiterals.
Local Open Scope py_scope.

Lemma bind_Ok_inv {A B : Type} (c : result A) (k : A -> result B) (b : B) :
  bind c k = Ok b -> exists a, c = Ok a /\ k a = Ok b.
Proof. destruct c as [a|e]; simpl; [eauto | discriminate]. Qed.

(** The guard of [emi]: a non-positive principal or month count gives
    [0.0], whatever the rate, and nothing is raised. *)
Lemma emi_degenerate (principal rate : F) (months : Z) :
  (principal <= #0) || (months <=? 0)%Z = true ->
  emi libm_pow principal rate months = Ok #0.
Proof. intros Hg. unfold emi. rewrite Hg. reflexivity. Qed.

(** C3 (as amended): [loan_summary] returns exactly when [emi] returns and
    [months] converts to a float; [total_payment] is then re-derived from
    the EMI that [emi] has already rounded, and [total_interest] from the
    rounded [total_payment]. *)
Theorem loan_summary_from_rounded_emi
    (principal rate : F) (months : Z) (s : LoanSummary) :
  loan_summary libm_pow principal rate months = Ok s <->
  exists e m,
    emi libm_pow principal rate months = Ok e /\
    of_int months = Ok m /\
    s = {| loan_emi := e;
           total_payment := round_nd (e * m) 2;
           total_interest := round_nd (round_nd (e * m) 2 - principal) 2 |}.
Proof.
  unfold loan_summary. split.
  - intros Hs.
    apply bind_Ok_inv in Hs as (e & He & Hs).
    apply bind_Ok_inv in Hs as (m & Hm & Hs).
    exists e, m. repeat split; try assumption. congruence.
  - intros (e & m & He & Hm & ->). rewrite He, Hm. reflexivity.
Qed.

(** C4: a mode other than "add" is treated as "remove". *)
Theorem gst_breakup_unrecognized_mode (amount rate : F) (mode : string) :
  mode <> "add" ->
  gst_breakup amount rate mode = gst_breakup amount rate "remove" /\
  gst_breakup amount rate mode =
    (let* r := py_div rate #100 in
     let* b := (if negb (r == #0)
                then let* q := py_div amount (#1 + r) in Ok (round_nd q 2)
                else Ok amount) in
     Ok {| base := b; gst := round_nd (amount - b) 2; gross := amount |}).
Proof.
  intros Hmode. unfold gst_breakup.
  apply String.eqb_neq in Hmode. rewrite Hmode.
  split; reflexivity.
Qed.

(** C9: with a custom rate the handler answers [amount * rate] rounded to
    4 decimals, for every pair of codes: neither the table nor the
    unsupported-currency answer is reached. *)
Theorem api_currency_custom_rate
    (amt rate : F) (from to : string) :
  api_currency upper
    {| amount := amt; from_code := from; to_code := to;
       custom_rate := Some rate |}
  = Ok (Converted (round_nd (amt * rate) 4) rate "Custom rate").
Proof. reflexivity. Qed.

(** C10: [comp_per_year] does not enter the result of [rd_maturity]. *)
Theorem rd_maturity_ignores_comp_per_year
    (monthly_installment rate : F) (months c1 c2 : Z) :
  rd_maturity libm_pow monthly_installment rate months c1
  = rd_maturity libm_pow monthly_installment rate months c2.
Proof. reflexivity. Qed.

End ControlFlow.

(* ================================================================== *)
(** ** Identities of the arithmetic of doubles *)

Section DoubleIdentities.

(** The exponent of a canonical mantissa. *)
Lemma fexp_canonical (m : positive) (e : Z) :
  canonical_mantissa prec emax m e = true ->
  fexp prec emax (Zpos (digits2_pos m) + e) = e.
Proof. unfold canonical_mantissa. intros Hc. apply Z.eqb_eq in Hc. exact Hc. Qed.

(** Multiplying a valid float by [1.0 = 2^52 * 2^-52] shifts its mantissa
    left and back by 52 bits, with nothing to round. *)
Lemma SF64mul_1_r (x : spec_float) :
  valid_binary x = true ->
  SF64mul x (S754_finite false 4503599627370496 (-52)) = x.
Proof.
  destruct x as [s|s| |s m e]; simpl; intros Hv.
  - destruct s; reflexivity.
  - destruct s; reflexivity.
  - reflexivity.
  - unfold SpecFloat.bounded in Hv. apply andb_prop in Hv as [Hc He].
    apply fexp_canonical in Hc.
    unfold SF64mul, SFmul, binary_round_aux, shr_fexp.
    rewrite (Pos.mul_comm m). unfold Pos.mul.
    cbn [Zdigits2 digits2_pos].
    rewrite !Pos2Z.inj_succ.
    match goal with
    | |- context [shr _ _ (fexp prec emax ?k - ?j)] =>
        replace (fexp prec emax k - j) with 52
    end.
    2:{ match goal with
        | |- _ = fexp _ _ ?k - _ =>
            replace k with (Zpos (digits2_pos m) + e) by lia
        end.
        rewrite Hc. lia. }
    cbn [shr shr_record_of_loc SpecFloat.iter_pos shr_1 orb fst snd shr_m
         loc_of_shr_record round_nearest_even Zdigits2].
    replace (e + -52 + 52) with e by lia.
    rewrite Hc, Z.sub_diag. cbn [shr shr_m].
    rewrite He. destruct s; reflexivity.
Qed.

(** [x * 1.0] is [x], for every double. *)
Lemma b64_mul_1_r (x : float) : (x * 1)%float = x.
Proof.
  apply Prim2SF_inj. rewrite mul_spec.
  change (Prim2SF 1) with (S754_finite false 4503599627370496 (-52)).
  apply SF64mul_1_r, Prim2SF_valid.
Qed.

(** A finite double is a zero or a finite [spec_float]. *)
Lemma is_finite_spec (x : float) :
  is_finite x = true ->
  (exists s, Prim2SF x = S754_zero s) \/ (exists s m e, Prim2SF x = S754_finite s m e).
Proof.
  unfold is_finite, is_nan, is_infinity.
  rewrite !FloatAxioms.eqb_spec, abs_spec.
  change (Prim2SF infinity) with (S754_infinity false).
  destruct (Prim2SF x) as [s|s| |s m e]; intros Hf.
  - left. eauto.
  - exfalso. revert Hf. destruct s; vm_compute; discriminate.
  - exfalso. revert Hf. vm_compute. discriminate.
  - right. eauto.
Qed.

(** A double that is not finite is nan or an infinity. *)
Lemma is_finite_false_spec (x : float) :
  is_finite x = false ->
  Prim2SF x = S754_nan \/ exists s, Prim2SF x = S754_infinity s.
Proof.
  unfold is_finite, is_nan, is_infinity.
  rewrite !FloatAxioms.eqb_spec, abs_spec.
  change (Prim2SF infinity) with (S754_infinity false).
  destruct (Prim2SF x) as [s|s| |s m e] eqn:E; intros Hf; eauto.
  - exfalso. revert Hf. unfold SFeqb, SFcompare. simpl. discriminate.
  - exfalso. revert Hf. unfold SFeqb. simpl.
    rewrite Z.compare_refl, Pos.compare_cont_refl.
    destruct s; simpl; discriminate.
Qed.

(** [x * 0.0 == 0] for a finite [x]. *)
Lemma b64_finite_mul_0 (x : float) :
  is_finite x = true -> (x * 0 =? 0)%float = true.
Proof.
  intros Hf. rewrite FloatAxioms.eqb_spec, mul_spec.
  change (Prim2SF 0) with (S754_zero false).
  destruct (is_finite_spec x Hf) as [[s ->]|(s & m & e & ->)]; reflexivity.
Qed.

(** [x - x] is [+0.0] for a finite [x], and nan otherwise. *)
Lemma b64_sub_diag (x : float) :
  (x - x)%float = if is_finite x then 0%float else nan.
Proof.
  apply Prim2SF_inj. rewrite sub_spec.
  destruct (is_finite x) eqn:Hf.
  - change (Prim2SF 0) with (S754_zero false).
    destruct (is_finite_spec x Hf) as [[s ->]|(s & m & e & ->)].
    + destruct s; reflexivity.
    + unfold SF64sub, SFsub. rewrite Z.sub_diag. reflexivity.
  - change (Prim2SF nan) with S754_nan.
    destruct (is_finite_false_spec x Hf) as [->|[s ->]].
    + reflexivity.
    + destruct s; reflexivity.
Qed.

(** An int that converts to a double converts to a finite one. *)
Lemma b64_of_int_finite (n : Z) (nf : float) :
  of_int (F:=float) n = Ok nf -> is_finite nf = true.
Proof.
  simpl. unfold Binary64.of_int.
  destruct (is_finite (SF2Prim (binary_normalize prec emax n 0 false))) eqn:Hf;
    [|discriminate].
  intros [= <-]. exact Hf.
Qed.

(** The number of binary digits of a positive. *)
Lemma digits2_pos_bounds (p : positive) :
  2 ^ (Zpos (digits2_pos p) - 1) <= Zpos p < 2 ^ Zpos (digits2_pos p).
Proof.
  induction p as [p IH|p IH|]; cbn [digits2_pos].
  - rewrite Pos2Z.inj_succ.
    replace (Z.succ (Zpos (digits2_pos p)) - 1) with (Z.succ (Zpos (digits2_pos p) - 1)) by lia.
    rewrite !Z.pow_succ_r by lia. lia.
  - rewrite Pos2Z.inj_succ.
    replace (Z.succ (Zpos (digits2_pos p)) - 1) with (Z.succ (Zpos (digits2_pos p) - 1)) by lia.
    rewrite !Z.pow_succ_r by lia. lia.
  - simpl. lia.
Qed.

Lemma digits2_pos_unique (p : positive) (d : Z) :
  2 ^ (d - 1) <= Zpos p < 2 ^ d -> Zpos (digits2_pos p) = d.
Proof.
  intros [Hlo Hhi]. pose proof (digits2_pos_bounds p) as [Blo Bhi].
  assert (Hd : 0 < d).
  { destruct (Z_lt_le_dec 0 d) as [|Hle]; [assumption|exfalso].
    destruct (Z.eq_dec d 0) as [->|Hne].
    - simpl in Hhi. lia.
    - rewrite (Z.pow_neg_r 2 d) in Hhi by lia. lia. }
  destruct (Z.lt_trichotomy (Zpos (digits2_pos p)) d) as [Hlt|[Heq|Hgt]];
    [exfalso|assumption|exfalso].
  - assert (2 ^ Zpos (digits2_pos p) <= 2 ^ (d - 1)) by (apply Z.pow_le_mono_r; lia).
    lia.
  - assert (2 ^ d <= 2 ^ (Zpos (digits2_pos p) - 1)) by (apply Z.pow_le_mono_r; lia).
    lia.
Qed.

(** Shifting a mantissa right by [k] bits divides it by [2^k]. *)
Lemma shr_1_m (r : shr_record) :
  0 <= shr_m r -> shr_m (shr_1 r) = shr_m r / 2.
Proof.
  destruct r as [m b s]. cbn [shr_m]. intros Hm.
  destruct m as [|[p|p|]|p]; cbn [shr_1 shr_m]; try lia; try reflexivity.
  - apply Z.div_unique with 1; lia.
  - apply Z.div_unique with 0; lia.
Qed.

Lemma iter_shr_1_m (k : positive) (r : shr_record) :
  0 <= shr_m r ->
  shr_m (SpecFloat.iter_pos shr_1 k r) = shr_m r / 2 ^ Zpos k.
Proof.
  revert r. induction k as [k IH|k IH|]; intros r Hr; cbn [SpecFloat.iter_pos].
  - assert (H1 : 0 <= shr_m (shr_1 r)).
    { rewrite shr_1_m by assumption. apply Z.div_pos; lia. }
    assert (H2 : 0 <= shr_m (SpecFloat.iter_pos shr_1 k (shr_1 r))).
    { rewrite IH by assumption. apply Z.div_pos; lia. }
    rewrite !IH, shr_1_m by assumption.
    rewrite !Z.div_div by lia.
    replace (Zpos k~1) with (1 + Zpos k + Zpos k) by lia.
    rewrite !Z.pow_add_r by lia. f_equal. change (2 ^ 1) with 2. ring.
  - assert (H2 : 0 <= shr_m (SpecFloat.iter_pos shr_1 k r)).
    { rewrite IH by assumption. apply Z.div_pos; lia. }
    rewrite !IH by assumption.
    rewrite !Z.div_div by lia.
    replace (Zpos k~0) with (Zpos k + Zpos k) by lia.
    rewrite !Z.pow_add_r by lia. reflexivity.
  - rewrite shr_1_m by assumption. reflexivity.
Qed.

(** The exponent function of binary64. *)
Lemma fexp64 (k : Z) : fexp prec emax k = Z.max (k - 53) (-1074).
Proof. reflexivity. Qed.

Lemma round_nearest_even_bounds (m : Z) (l : location) :
  m <= round_nearest_even m l <= m + 1.
Proof.
  destruct l as [|[ | | ]]; cbn [round_nearest_even]; try lia.
  destruct (Z.even m); lia.
Qed.

Lemma digits2_pos_iter_xO (m p : positive) :
  Zpos (digits2_pos (Pos.iter xO m p)) = Zpos (digits2_pos m) + Zpos p.
Proof.
  induction p as [|p IH] using Pos.peano_ind.
  - cbn. lia.
  - rewrite Pos.iter_succ. cbn [digits2_pos]. lia.
Qed.

(** A positive integer rounds to a valid double that is finite or, on
    overflow, infinite: never a zero or nan. *)
Lemma binary_round_int (s : bool) (m : positive) :
  valid_binary (binary_round prec emax s m 0) = true /\
  ((exists m' e', binary_round prec emax s m 0 = S754_finite s m' e')
   \/ binary_round prec emax s m 0 = S754_infinity s).
Proof.
  pose proof (digits2_pos_bounds m) as [Blo Bhi].
  set (d := Zpos (digits2_pos m)) in *.
  assert (Hd : 0 < d) by (unfold d; lia).
  unfold binary_round, shl_align. fold d.
  rewrite Z.add_0_r, fexp64, Z.sub_0_r.
  destruct (Z_le_gt_dec d 53) as [Hle|Hgt].
  - (* the integer fits: align to 53 bits, nothing to round *)
    replace (Z.max (d - 53) (-1074)) with (d - 53) by lia.
    assert (Hres : forall mz : positive,
      Zpos (digits2_pos mz) = 53 ->
      binary_round_aux prec emax s (Zpos mz) (d - 53) loc_Exact
      = S754_finite s mz (d - 53)).
    { intros mz Hz. unfold binary_round_aux, shr_fexp. cbn [Zdigits2].
      rewrite Hz, fexp64.
      replace (Z.max (53 + (d - 53) - 53) (-1074) - (d - 53)) with 0 by lia.
      cbn [shr shr_record_of_loc shr_m loc_of_shr_record round_nearest_even
           Zdigits2].
      rewrite Hz, fexp64.
      replace (Z.max (53 + (d - 53) - 53) (-1074) - (d - 53)) with 0 by lia.
      cbn [shr shr_m].
      replace (d - 53 <=? emax - prec) with true
        by (symmetry; apply Z.leb_le; change (emax - prec) with 971; lia).
      reflexivity. }
    assert (Hval : forall mz : positive,
      Zpos (digits2_pos mz) = 53 ->
      valid_binary (S754_finite s mz (d - 53)) = true).
    { intros mz Hz. cbn [valid_binary]. unfold SpecFloat.bounded, canonical_mantissa.
      rewrite Hz, fexp64. apply andb_true_intro. split.
      - apply Z.eqb_eq. lia.
      - apply Z.leb_le. change (emax - prec) with 971. lia. }
    destruct (d - 53) as [|p|p] eqn:Hp; try lia.
    + rewrite <- Hp in *. rewrite (Hres m) by (fold d; lia).
      split; [apply Hval; fold d; lia | left; eauto].
    + rewrite <- Hp in *.
      assert (Hz : Zpos (digits2_pos (Pos.iter xO m p)) = 53).
      { rewrite digits2_pos_iter_xO. fold d. lia. }
      rewrite (Hres _ Hz). split; [apply Hval, Hz | left; eauto].
  - (* more than 53 bits: shift right by [d - 53] and round *)
    replace (Z.max (d - 53) (-1074)) with (d - 53) by lia.
    destruct (d - 53) as [|kp|kp] eqn:Hk; try lia.
    unfold binary_round_aux, shr_fexp. cbn [Zdigits2]. fold d.
    rewrite Z.add_0_r, fexp64, Z.sub_0_r.
    replace (Z.max (d - 53) (-1074)) with (Zpos kp) by lia.
    cbn [shr shr_record_of_loc]. rewrite Z.add_0_l.
    set (r1 := SpecFloat.iter_pos shr_1 kp _).
    assert (Hm1 : shr_m r1 = Zpos m / 2 ^ Zpos kp).
    { unfold r1. rewrite iter_shr_1_m; cbn [shr_m]; [reflexivity|lia]. }
    assert (Hpow : 2 ^ d = 2 ^ 53 * 2 ^ Zpos kp).
    { replace d with (53 + Zpos kp) by lia. apply Z.pow_add_r; lia. }
    assert (Hpow' : 2 ^ (d - 1) = 2 ^ 52 * 2 ^ Zpos kp).
    { replace (d - 1) with (52 + Zpos kp) by lia. apply Z.pow_add_r; lia. }
    assert (Hp2 : 0 < 2 ^ Zpos kp) by (apply Z.pow_pos_nonneg; lia).
    assert (Hb1 : 2 ^ 52 <= shr_m r1 < 2 ^ 53).
    { rewrite Hm1. split.
      - apply Z.div_le_lower_bound; lia.
      - apply Z.div_lt_upper_bound; lia. }
    pose proof (round_nearest_even_bounds (shr_m r1) (loc_of_shr_record r1))
      as Hb2.
    set (m2 := round_nearest_even (shr_m r1) (loc_of_shr_record r1)) in *.
    clearbody m2. clear Hm1. clearbody r1.
    destruct m2 as [|p2|p2]; try lia.
    cbn [Zdigits2].
    destruct (Z_lt_le_dec (Zpos p2) (2 ^ 53)) as [Hlt|Hge].
    + assert (Hz : Zpos (digits2_pos p2) = 53).
      { apply digits2_pos_unique. change (53 - 1) with 52. lia. }
      rewrite Hz, fexp64.
      replace (Z.max (53 + Zpos kp - 53) (-1074) - Zpos kp) with 0 by lia.
      cbn [shr shr_m].
      destruct (Zpos kp <=? emax - prec) eqn:He.
      * split; [|left; eauto].
        cbn [valid_binary]. unfold SpecFloat.bounded, canonical_mantissa.
        rewrite Hz, fexp64, He. rewrite andb_true_r. apply Z.eqb_eq. lia.
      * split; [reflexivity|right; reflexivity].
    + assert (Hp2e : Zpos p2 = 2 ^ 53) by lia.
      assert (Hz : Zpos (digits2_pos p2) = 54).
      { apply digits2_pos_unique. change (54 - 1) with 53.
        rewrite Hp2e. split; [lia|]. apply Z.pow_lt_mono_r; lia. }
      rewrite Hz, fexp64.
      replace (Z.max (54 + Zpos kp - 53) (-1074) - Zpos kp) with 1 by lia.
      assert (Hp2' : p2 = 9007199254740992%positive).
      { apply Pos2Z.inj. rewrite Hp2e. reflexivity. }
      subst p2. cbn [shr SpecFloat.iter_pos shr_1 shr_m].
      destruct (Zpos kp + 1 <=? emax - prec) eqn:He.
      * split; [|left; eauto].
        cbn [valid_binary]. unfold SpecFloat.bounded, canonical_mantissa.
        rewrite He, andb_true_r. apply Z.eqb_eq.
        cbn [digits2_pos]. rewrite fexp64. lia.
      * split; [reflexivity|right; reflexivity].
Qed.

(** A non-zero int converts to a non-zero double (when it converts). *)
Lemma b64_of_int_nonzero (n : Z) (nf : float) :
  n <> 0 -> of_int (F:=float) n = Ok nf -> (nf =? 0)%float = false.
Proof.
  intros Hn. simpl. unfold Binary64.of_int.
  set (sf := binary_normalize prec emax n 0 false).
  assert (Hsf : valid_binary sf = true /\
                ((exists s m' e', sf = S754_finite s m' e')
                 \/ exists s, sf = S754_infinity s)).
  { unfold sf. destruct n as [|m|m]; [contradiction| |]; cbn [binary_normalize].
    - destruct (binary_round_int false m) as [Hv [(m' & e' & E)|E]];
        rewrite E in *; (split; [exact Hv|]); [left|right]; repeat eexists.
    - destruct (binary_round_int true m) as [Hv [(m' & e' & E)|E]];
        rewrite E in *; (split; [exact Hv|]); [left|right]; repeat eexists. }
  destruct Hsf as [Hv Hshape]. clearbody sf.
  destruct (is_finite (SF2Prim sf)) eqn:Hf; [|discriminate].
  intros [= <-].
  rewrite FloatAxioms.eqb_spec, (Prim2SF_SF2Prim sf Hv).
  change (Prim2SF 0) with (S754_zero false).
  destruct Hshape as [(s & m' & e' & ->)| [s ->]].
  - destruct s; reflexivity.
  - destruct s; reflexivity.
Qed.

End DoubleIdentities.

(* ================================================================== *)
(** ** The code on doubles *)

Section OnDoubles.
Variable libm_pow : float -> float -> result float.
Variable upper : string -> string.

Import PyLiterals.
Local Open Scope py_scope.

(** The specification's scenarios that do not reach [pow]. *)
Example gst_add_scenario :
  gst_breakup (F:=float) #1000 #18 "add"
  = Ok {| base := #1000; gst := #180; gross := #1180 |}.
Proof. vm_compute. reflexivity. Qed.

Example currency_scenario :
  upper "USD" = "USD" -> upper "INR" = "INR" ->
  api_currency (F:=float) upper
    {| amount := #100; from_code := "USD"; to_code := "INR";
       custom_rate := None |}
  = Ok (Converted #8400 #84 "Static demo rates").
Proof.
  intros Hf Ht. unfold api_currency. simpl. rewrite Hf, Ht.
  vm_compute. reflexivity.
Qed.

Example credit_score_scenario :
  estimate_credit_score (F:=float) #100 #10 #10 0 #10 = Ok 828.
Proof. vm_compute. reflexivity. Qed.

(** The clamps of [estimate_credit_score] also absorb nan and the
    infinities: [min(100, nan)] is [100] and [max(0.0, nan)] is [0.0]. *)
Example credit_score_nan :
  estimate_credit_score (F:=float) nan nan nan 0 nan = Ok 548.
Proof. vm_compute. reflexivity. Qed.

Example credit_score_best :
  estimate_credit_score (F:=float) infinity neg_infinity infinity (-3)
    neg_infinity = Ok 850.
Proof. vm_compute. reflexivity. Qed.

Example credit_score_worst :
  estimate_credit_score (F:=float) neg_infinity infinity neg_infinity 1000
    infinity = Ok 300.
Proof. vm_compute. reflexivity. Qed.

(** C1: [loan_summary(1000.0, 10.0, 0)].  The guard of [emi] gives an EMI
    of [0.0] and the total payment is [0.0], but the interest is derived
    from them as [0.0 - principal]: it is [-1000.0], not [0.0]. *)
Theorem loan_summary_zero_months_interest :
  loan_summary (F:=float) libm_pow #1000 #10 0
  = Ok {| loan_emi := #0; total_payment := #0;
          total_interest := #(-1000) |}.
Proof. vm_compute. reflexivity. Qed.

(** With [months = 0] the interest is always minus the principal, rounded. *)
Lemma loan_summary_zero_months (principal rate : float) :
  loan_summary (F:=float) libm_pow principal rate 0
  = Ok {| loan_emi := #0; total_payment := #0;
          total_interest := round_nd (#0 - principal) 2 |}.
Proof.
  unfold loan_summary.
  rewrite emi_degenerate by (apply orb_true_r).
  reflexivity.
Qed.

(** The same with a negative principal and a positive term. *)
Example loan_summary_negative_principal_interest :
  loan_summary (F:=float) libm_pow #(-500) #10 12
  = Ok {| loan_emi := #0; total_payment := #0; total_interest := #500 |}.
Proof. vm_compute. reflexivity. Qed.

(** With [comp_per_year = 0] the division [r / n] raises, whatever the
    other arguments. *)
Lemma fd_maturity_zero_frequency (principal rate years : float) :
  fd_maturity (F:=float) libm_pow principal rate years 0
  = Raise ZeroDivisionError.
Proof. vm_compute. reflexivity. Qed.

(** C7 (as amended): on doubles, over zero years and with a non-zero
    compounding frequency [n] that converts to a double, the growth factor
    is [x ** 0.0 = 1.0], so the maturity is the principal rounded to 2
    decimals, whatever the rate and the frequency.  The interest is [0.0]
    (nan when the principal is not finite). *)
Theorem fd_maturity_zero_years
    (principal rate : float) (n : Z) (nf : float) :
  n <> 0%Z ->
  of_int n = Ok nf ->
  fd_maturity libm_pow principal rate #0 n
  = Ok {| maturity := round_nd principal 2;
          interest := if is_finite principal then #0 else nan |}.
Proof.
  intros Hn0 Hn. unfold fd_maturity.
  change (py_div rate #100) with (Ok (fdiv rate #100)).
  cbn [bind]. rewrite Hn. cbn [bind].
  unfold py_div at 1.
  change (nf == #0) with (nf =? 0)%float.
  rewrite (b64_of_int_nonzero n nf Hn0 Hn). cbn [bind].
  unfold py_pow.
  change (nf * #0 == #0) with (nf * 0 =? 0)%float.
  rewrite (b64_finite_mul_0 nf (b64_of_int_finite n nf Hn)). cbn [bind].
  change (principal * #1) with (principal * 1)%float.
  rewrite b64_mul_1_r.
  change (principal - principal) with (principal - principal)%float.
  rewrite b64_sub_diag.
  destruct (is_finite principal); reflexivity.
Qed.

(** Every rate of the table is non-zero, so no division of the handler
    raises. *)
Lemma static_rates_nonzero (code : string) (rate : float) :
  STATIC_RATES_BASE_USD (F:=float) !! code = Some rate ->
  (rate == #0) = false.
Proof.
  revert code rate.
  change (map_Forall (fun (_ : string) (rate : float) => (rate == #0) = false)
            (STATIC_RATES_BASE_USD (F:=float))).
  apply (bool_decide_unpack _). vm_compute. reflexivity.
Qed.

(** C8: without a custom rate the handler answers the unsupported-currency
    error (status 400) exactly when one of the two codes is missing from
    the table, and computes nothing then; when both are present it answers
    [(amount / rate[from]) * rate[to]] rounded to 4 decimals, with
    [rate_used = rate[to] / rate[from]]. *)
Theorem api_currency_static_table (amt : float) (from to : string) :
  api_currency (F:=float) upper
    {| amount := amt; from_code := from; to_code := to;
       custom_rate := None |}
  = match STATIC_RATES_BASE_USD !! upper from,
          STATIC_RATES_BASE_USD !! upper to with
    | Some rate_from, Some rate_to =>
        Ok (Converted (round_nd (fdiv amt rate_from * rate_to) 4)
              (fdiv rate_to rate_from) "Static demo rates")
    | _, _ => Ok (ErrorResponse unsupported_currency 400)
    end.
Proof.
  unfold api_currency, dict_contains, dict_get. simpl.
  destruct (STATIC_RATES_BASE_USD !! upper from) as [rf|] eqn:Hf;
    [|reflexivity].
  destruct (STATIC_RATES_BASE_USD !! upper to) as [rt|] eqn:Ht;
    [|reflexivity].
  simpl. unfold py_div.
  rewrite (static_rates_nonzero _ _ Hf). reflexivity.
Qed.

End OnDoubles.

(** C2, counterexample: [gst_breakup(1.234, 18, "add")] returns the amount as
    its base, and [round(1.234, 2) == 1.234] is false. *)
Lemma gst_breakup_add_base_not_rounded :
  gst_breakup (F:=float) (flit 1.234) (flit 18) "add"
  = Ok {| base := flit 1.234; gst := flit 0.22; gross := flit 1.45 |}
  /\ ~ is_rounded (F:=float) 2 (flit 1.234).
Proof. split; [vm_compute; reflexivity|]. vm_compute. discriminate. Qed.

(** C3, counterexample: [loan_summary(100.0, 0.0, 3)] has an EMI of 33.33 and
    a total payment of [round(33.33 * 3, 2) = 99.99]; from the EMI before
    rounding the total payment would be [round(100.0, 2) = 100.0]. *)
Lemma loan_summary_not_independent :
  (forall libm_pow,
     loan_summary (F:=float) libm_pow (flit 100) (flit 0) 3
     = Ok {| loan_emi := flit 33.33; total_payment := flit 99.99;
             total_interest := flit (-0.01) |})
  /\ (forall libm_pow,
        loan_summary_independent (F:=float) libm_pow (flit 100) (flit 0) 3
        = Ok {| loan_emi := flit 33.33; total_payment := flit 100;
                total_interest := flit 0 |})
  /\ feqb (F:=float) (flit 99.99) (flit 100) = false.
Proof. repeat split; intros; vm_compute; reflexivity. Qed.

(** C7, counterexample: [fd_maturity(1.234, 5.0, 0.0, 4)] has a maturity of
    [round(1.234, 2) = 1.23], which is not the principal; and with
    [comp_per_year = 0] the division [r / n] raises. *)
Lemma fd_maturity_zero_years_not_principal :
  (forall libm_pow,
     fd_maturity (F:=float) libm_pow (flit 1.234) (flit 5) (flit 0) 4
     = Ok {| maturity := flit 1.23; interest := flit 0 |})
  /\ feqb (F:=float) (flit 1.23) (flit 1.234) = false
  /\ (forall libm_pow,
        fd_maturity (F:=float) libm_pow (flit 1000) (flit 5) (flit 0) 0
        = Raise ZeroDivisionError).
Proof. repeat split; intros; vm_compute; reflexivity. Qed.


(** C4, witness: the mode "subtract" on doubles. *)
Lemma gst_breakup_unrecognized_mode_witness :
  "subtract" <> "add" /\
  gst_breakup (F:=float) (flit 1180) (flit 18) "subtract"
  = Ok {| base := flit 1000; gst := flit 180; gross := flit 1180 |}.
Proof.
  assert (Hmode : "subtract" <> "add") by discriminate.
  split; [exact Hmode|].
  destruct (gst_breakup_unrecognized_mode (F:=float)
              (flit 1180) (flit 18) "subtract" Hmode) as [-> _].
  vm_compute. reflexivity.
Defined.

(* ================================================================== *)
(** ** Rounding to the nearest integer, ties to even *)

Section RoundHalfEven.
Local Open Scope Z_scope.

(** [round_half_even n d] is within one half of [n / d], and even when it is
    exactly one half away. *)
Lemma round_half_even_spec (n d : Z) :
  0 < d ->
  2 * round_half_even n d * d - d <= 2 * n <= 2 * round_half_even n d * d + d
  /\ (2 * n = 2 * round_half_even n d * d + d -> Z.even (round_half_even n d) = true)
  /\ (2 * n = 2 * round_half_even n d * d - d -> Z.even (round_half_even n d) = true).
Proof.
  intros Hd. unfold round_half_even.
  pose proof (Z.div_mod n d ltac:(lia)) as Hn.
  pose proof (Z.mod_pos_bound n d Hd) as Hr.
  set (q := n / d) in *. set (r := n mod d) in *.
  destruct (Z.compare_spec (2 * r) d) as [He|Hl|Hg].
  - destruct (Z.even q) eqn:Hq.
    + repeat split; try nia. intros; assumption.
    + repeat split; try nia; intros _; rewrite Z.even_add, Hq; reflexivity.
  - repeat split; nia.
  - repeat split; nia.
Qed.

(** Rounding is monotone in the value [n / d]. *)
Lemma round_half_even_mono (n1 d1 n2 d2 : Z) :
  0 < d1 -> 0 < d2 -> n1 * d2 <= n2 * d1 ->
  round_half_even n1 d1 <= round_half_even n2 d2.
Proof.
  intros H1 H2 Hle.
  destruct (round_half_even_spec n1 d1 H1) as ([Hlo1 Hhi1] & _ & Hev1).
  destruct (round_half_even_spec n2 d2 H2) as ([Hlo2 Hhi2] & Hev2 & _).
  set (k := round_half_even n1 d1) in *. set (l := round_half_even n2 d2) in *.
  clearbody k l.
  destruct (Z_le_gt_dec k l) as [|Hgt]; [assumption|exfalso].
  assert (Hp : 0 < d1 * d2) by nia.
  assert (A : (2 * k - 1) * (d1 * d2) <= 2 * (n1 * d2)) by nia.
  assert (B : 2 * (n2 * d1) <= (2 * l + 1) * (d1 * d2)) by nia.
  assert (C : (2 * k - 1) * (d1 * d2) <= (2 * l + 1) * (d1 * d2)) by lia.
  apply Z.mul_le_mono_pos_r in C; [|assumption].
  assert (Hk : k = l + 1) by lia. subst k.
  assert (E1 : 2 * n1 = 2 * (l + 1) * d1 - d1).
  { apply Z.le_antisymm; [|lia].
    apply (Z.mul_le_mono_pos_r _ _ d2); [assumption|]. nia. }
  assert (E2 : 2 * n2 = 2 * l * d2 + d2).
  { apply Z.le_antisymm; [lia|].
    apply (Z.mul_le_mono_pos_r _ _ d1); [assumption|]. nia. }
  specialize (Hev1 E1). specialize (Hev2 E2).
  rewrite Z.even_add, Hev2 in Hev1. discriminate.
Qed.

(** An integer rounds to itself. *)
Lemma round_half_even_exact (k d : Z) : 0 < d -> round_half_even (k * d) d = k.
Proof.
  intros Hd. unfold round_half_even.
  rewrite Z.div_mul, Z.mod_mul by lia.
  destruct d; try lia. reflexivity.
Qed.

End RoundHalfEven.

(* ================================================================== *)
(** ** Rounding of the operations on doubles, and the credit score *)

Section Shifts.

Lemma loc_of_shr_record_of_loc (m : Z) (l : location) :
  loc_of_shr_record (shr_record_of_loc m l) = l.
Proof. destruct l as [|[ | | ]]; reflexivity. Qed.

Lemma shr_m_shr_record_of_loc (m : Z) (l : location) :
  shr_m (shr_record_of_loc m l) = m.
Proof. destruct l as [|[ | | ]]; reflexivity. Qed.

Lemma round_rec_of (n d : Z) :
  0 < d ->
  round_nearest_even (shr_m (rec_of n d)) (loc_of_shr_record (rec_of n d))
  = round_half_even n d.
Proof.
  intros Hd. unfold rec_of.
  rewrite shr_m_shr_record_of_loc, loc_of_shr_record_of_loc.
  unfold loc_of, round_half_even.
  pose proof (Z.mod_pos_bound n d Hd) as Hr.
  destruct (Z.eqb_spec (n mod d) 0) as [E|E].
  - rewrite E. cbn [round_nearest_even].
    destruct (Z.compare_spec (2 * 0) d); [lia | reflexivity | lia].
  - cbn [round_nearest_even].
    destruct (2 * (n mod d) ?= d); reflexivity.
Qed.

Lemma shr_1_rec_of (n d : Z) :
  0 <= n -> 0 < d -> shr_1 (rec_of n d) = rec_of n (2 * d).
Proof.
  intros Hn Hd. unfold rec_of, loc_of.
  pose proof (Z.mod_pos_bound n d Hd) as Hr.
  pose proof (Z.div_mod n d ltac:(lia)) as Hnd.
  assert (Hq : 0 <= n / d) by (apply Z.div_pos; lia).
  set (q := n / d) in *. set (r := n mod d) in *.
  assert (Hq2 : n / (2 * d) = q / 2).
  { rewrite Z.mul_comm, <- Z.div_div by lia. reflexivity. }
  assert (Hr2 : n mod (2 * d) = (q mod 2) * d + r).
  { pose proof (Z.div_mod q 2 ltac:(lia)) as Hq'.
    pose proof (Z.mod_pos_bound q 2 ltac:(lia)) as Hb.
    symmetry. apply Z.mod_unique with (q / 2); nia. }
  rewrite Hq2, Hr2.
  pose proof (Z.mod_pos_bound q 2 ltac:(lia)) as Hb.
  pose proof (Z.div_mod q 2 ltac:(lia)) as Hq'.
  assert (Hcase : q mod 2 = 0 \/ q mod 2 = 1) by lia.
  destruct q as [|[p|p|]|p]; try lia.
  - (* q = 0 *) cbn [Z.modulo Z.div Z.div_eucl] in *. 
    change (0 / 2) with 0. change (0 mod 2) with 0. rewrite Z.mul_0_l, Z.add_0_l.
    destruct (Z.eqb_spec r 0) as [E|E]; [reflexivity|].
    replace (2 * r ?= 2 * d) with Lt by (symmetry; apply Z.compare_lt_iff; lia).
    destruct (2 * r ?= d); reflexivity.
  - (* q = 2p+1 *)
    replace (Z.pos p~1 / 2) with (Zpos p) in * by lia.
    replace (Z.pos p~1 mod 2) with 1 in * by lia.
    rewrite Z.mul_1_l.
    destruct (Z.eqb_spec r 0) as [E|E].
    + rewrite E, Z.add_0_r.
      replace (d =? 0) with false by (symmetry; apply Z.eqb_neq; lia).
      replace (2 * d ?= 2 * d) with Eq by (symmetry; apply Z.compare_eq_iff; lia).
      reflexivity.
    + replace (d + r =? 0) with false by (symmetry; apply Z.eqb_neq; lia).
      replace (2 * (d + r) ?= 2 * d) with Gt by (symmetry; apply Z.compare_gt_iff; lia).
      destruct (2 * r ?= d); reflexivity.
  - (* q = 2p *)
    replace (Z.pos p~0 / 2) with (Zpos p) in * by lia.
    replace (Z.pos p~0 mod 2) with 0 in * by lia.
    rewrite Z.mul_0_l, Z.add_0_l.
    destruct (Z.eqb_spec r 0) as [E|E]; [reflexivity|].
    replace (2 * r ?= 2 * d) with Lt by (symmetry; apply Z.compare_lt_iff; lia).
    destruct (2 * r ?= d); reflexivity.
  - (* q = 1 *)
    change (1 / 2) with 0. change (1 mod 2) with 1. rewrite Z.mul_1_l.
    destruct (Z.eqb_spec r 0) as [E|E].
    + rewrite E, Z.add_0_r.
      replace (d =? 0) with false by (symmetry; apply Z.eqb_neq; lia).
      replace (2 * d ?= 2 * d) with Eq by (symmetry; apply Z.compare_eq_iff; lia).
      reflexivity.
    + replace (d + r =? 0) with false by (symmetry; apply Z.eqb_neq; lia).
      replace (2 * (d + r) ?= 2 * d) with Gt by (symmetry; apply Z.compare_gt_iff; lia).
      destruct (2 * r ?= d); reflexivity.
Qed.

Lemma iter_shr_1_rec_of (k : positive) (n d : Z) :
  0 <= n -> 0 < d ->
  SpecFloat.iter_pos shr_1 k (rec_of n d) = rec_of n (d * 2 ^ Zpos k).
Proof.
  intros Hn. revert d.
  induction k as [k IH|k IH|]; intros d Hd; cbn [SpecFloat.iter_pos].
  - rewrite shr_1_rec_of by assumption.
    assert (Hp : 0 < 2 ^ Zpos k) by (apply Z.pow_pos_nonneg; lia).
    rewrite !IH by nia. f_equal.
    replace (Zpos k~1) with (1 + Zpos k + Zpos k) by lia.
    rewrite !Z.pow_add_r by lia. change (2 ^ 1) with 2. ring.
  - assert (Hp : 0 < 2 ^ Zpos k) by (apply Z.pow_pos_nonneg; lia).
    rewrite !IH by nia. f_equal.
    replace (Zpos k~0) with (Zpos k + Zpos k) by lia.
    rewrite !Z.pow_add_r by lia. ring.
  - rewrite shr_1_rec_of by assumption. f_equal. change (2 ^ 1) with 2. ring.
Qed.

End Shifts.

Section Digits.

Lemma Zdigits2_bounds (m : Z) :
  0 < m -> 2 ^ (Zdigits2 m - 1) <= m < 2 ^ Zdigits2 m.
Proof.
  destruct m as [|p|p]; try lia. intros _. apply digits2_pos_bounds.
Qed.

Lemma Zdigits2_unique (m d : Z) :
  2 ^ (d - 1) <= m < 2 ^ d -> 0 < m -> Zdigits2 m = d.
Proof.
  destruct m as [|p|p]; try lia. intros Hb _. apply digits2_pos_unique, Hb.
Qed.

Lemma Zdigits2_nonneg (m : Z) : 0 <= Zdigits2 m.
Proof. destruct m; simpl; lia. Qed.

Lemma Zdigits2_pos (m : Z) : 0 < m -> 0 < Zdigits2 m.
Proof. destruct m; simpl; lia. Qed.

Lemma Zdigits2_lt_pow (m d : Z) : 0 <= d -> 0 <= m < 2 ^ d -> Zdigits2 m <= d.
Proof.
  intros Hd [Hm Hlt]. destruct (Z.eq_dec m 0) as [->|Hne]; [simpl; lia|].
  pose proof (Zdigits2_bounds m ltac:(lia)) as [Blo _].
  destruct (Z_le_gt_dec (Zdigits2 m) d) as [|Hgt]; [assumption|exfalso].
  assert (2 ^ d <= 2 ^ (Zdigits2 m - 1)) by (apply Z.pow_le_mono_r; lia).
  lia.
Qed.

Lemma Zdigits2_ge_pow (m d : Z) : 0 <= d -> 2 ^ d <= m -> d < Zdigits2 m.
Proof.
  intros Hd Hle.
  assert (Hp : 0 < 2 ^ d) by (apply Z.pow_pos_nonneg; lia).
  pose proof (Zdigits2_bounds m ltac:(lia)) as [_ Bhi].
  destruct (Z_lt_le_dec d (Zdigits2 m)) as [|Hge]; [assumption|exfalso].
  assert (2 ^ Zdigits2 m <= 2 ^ d).
  { apply Z.pow_le_mono_r; [lia|assumption]. }
  lia.
Qed.

Lemma Zdigits2_mono (a b : Z) : 0 <= a <= b -> Zdigits2 a <= Zdigits2 b.
Proof.
  intros [Ha Hab]. destruct (Z.eq_dec a 0) as [->|Hne].
  - apply Zdigits2_nonneg.
  - pose proof (Zdigits2_bounds a ltac:(lia)) as [Alo _].
    assert (Hd : Zdigits2 a - 1 < Zdigits2 b).
    { apply Zdigits2_ge_pow; [|lia]. pose proof (Zdigits2_pos a ltac:(lia)). lia. }
    lia.
Qed.

Lemma Zdigits2_div_pow2 (m k : Z) :
  0 <= m -> 0 <= k -> Zdigits2 (m / 2 ^ k) = Z.max 0 (Zdigits2 m - k).
Proof.
  intros Hm Hk.
  assert (Hp : 0 < 2 ^ k) by (apply Z.pow_pos_nonneg; lia).
  destruct (Z.eq_dec m 0) as [->|Hne].
  { rewrite Z.div_0_l by lia. simpl. lia. }
  pose proof (Zdigits2_bounds m ltac:(lia)) as [Blo Bhi].
  pose proof (Zdigits2_pos m ltac:(lia)) as Hdpos.
  set (d := Zdigits2 m) in *.
  destruct (Z_le_gt_dec d k) as [Hle|Hgt].
  - assert (m / 2 ^ k = 0) as ->.
    { apply Z.div_small. split; [lia|].
      assert (2 ^ d <= 2 ^ k) by (apply Z.pow_le_mono_r; lia). lia. }
    simpl. lia.
  - replace (Z.max 0 (d - k)) with (d - k) by lia.
    assert (Hlo : 2 ^ (d - 1) = 2 ^ (d - k - 1) * 2 ^ k).
    { rewrite <- Z.pow_add_r by lia. f_equal. lia. }
    assert (Hhi : 2 ^ d = 2 ^ (d - k) * 2 ^ k).
    { rewrite <- Z.pow_add_r by lia. f_equal. lia. }
    assert (Hq : 2 ^ (d - k - 1) <= m / 2 ^ k < 2 ^ (d - k)).
    { split.
      - apply Z.div_le_lower_bound; lia.
      - apply Z.div_lt_upper_bound; lia. }
    assert (0 < 2 ^ (d - k - 1)) by (apply Z.pow_pos_nonneg; lia).
    apply Zdigits2_unique; [|lia].
    replace (d - k - 1) with (d - k - 1) in Hq by lia. exact Hq.
Qed.

End Digits.

Section Core.

Lemma round_half_even_bounds (n d : Z) :
  0 < d -> n / d <= round_half_even n d <= n / d + 1.
Proof.
  intros Hd. unfold round_half_even.
  destruct (2 * (n mod d) ?= d); [destruct (Z.even (n / d))| |]; lia.
Qed.

Lemma shr_rec_of (n d e k : Z) :
  0 <= n -> 0 < d -> 0 <= k ->
  shr (rec_of n d) e k = (rec_of n (d * 2 ^ k), e + k).
Proof.
  intros Hn Hd Hk. destruct k as [|p|p]; try lia; cbn [shr].
  - rewrite Z.mul_1_r, Z.add_0_r. reflexivity.
  - rewrite iter_shr_1_rec_of by assumption. reflexivity.
Qed.

(** The mantissa that [binary_round_aux] rounds to has at most 53 bits, or
    is [2^53]. *)
Lemma rounded_mantissa_bounds (n den e : Z) :
  0 <= n -> 0 < den ->
  0 <= fexp prec emax (Zdigits2 (n / den) + e) - e ->
  0 <= round_half_even n
         (den * 2 ^ (fexp prec emax (Zdigits2 (n / den) + e) - e))
    <= 2 ^ 53.
Proof.
  intros Hn Hden. rewrite fexp64. intros Hk.
  set (k0 := Z.max (Zdigits2 (n / den) + e - 53) (-1074) - e) in *.
  assert (Hp : 0 < 2 ^ k0) by (apply Z.pow_pos_nonneg; lia).
  pose proof (round_half_even_bounds n (den * 2 ^ k0) ltac:(nia)) as [Rlo Rhi].
  assert (Hq : n / (den * 2 ^ k0) = n / den / 2 ^ k0) by (rewrite Z.div_div; lia).
  assert (Hm : 0 <= n / den) by (apply Z.div_pos; lia).
  assert (Hm1 : 0 <= n / den / 2 ^ k0) by (apply Z.div_pos; lia).
  pose proof (Zdigits2_div_pow2 (n / den) k0 Hm Hk) as Hd1.
  assert (Hlt : n / den / 2 ^ k0 < 2 ^ 53).
  { destruct (Z.eq_dec (n / den / 2 ^ k0) 0) as [->|Hne]; [reflexivity|].
    pose proof (Zdigits2_bounds (n / den / 2 ^ k0) ltac:(lia)) as [_ Bhi].
    assert (2 ^ Zdigits2 (n / den / 2 ^ k0) <= 2 ^ 53).
    { apply Z.pow_le_mono_r; lia. }
    lia. }
  lia.
Qed.

Lemma binary_round_aux_pack (s : bool) (n den e : Z) :
  0 <= n -> 0 < den ->
  0 <= fexp prec emax (Zdigits2 (n / den) + e) - e ->
  binary_round_aux prec emax s (n / den) e (loc_of (n mod den) den)
  = pack s (round_half_even n
              (den * 2 ^ (fexp prec emax (Zdigits2 (n / den) + e) - e)))
      (fexp prec emax (Zdigits2 (n / den) + e)).
Proof.
  intros Hn Hden Hk.
  pose proof (rounded_mantissa_bounds n den e Hn Hden Hk) as HR.
  unfold binary_round_aux, shr_fexp.
  change (shr_record_of_loc (n / den) (loc_of (n mod den) den))
    with (rec_of n den).
  rewrite shr_rec_of by assumption.
  rewrite round_rec_of.
  2:{ assert (0 < 2 ^ (fexp prec emax (Zdigits2 (n / den) + e) - e))
        by (apply Z.pow_pos_nonneg; lia). nia. }
  replace (e + (fexp prec emax (Zdigits2 (n / den) + e) - e))
    with (fexp prec emax (Zdigits2 (n / den) + e)) by lia.
  set (e1 := fexp prec emax (Zdigits2 (n / den) + e)) in *.
  assert (He1 : -1074 <= e1) by (unfold e1; rewrite fexp64; lia).
  set (r := round_half_even n (den * 2 ^ (e1 - e))) in *.
  clearbody r e1. clear Hk.
  cbn [shr_record_of_loc]. rewrite fexp64.
  destruct r as [|p|p]; try lia.
  - (* rounded to zero *)
    cbn [Zdigits2 pack].
    destruct (Z.max (0 + e1 - 53) (-1074) - e1) as [|q|q] eqn:Hq; try lia;
      reflexivity.
  - destruct (Z_lt_le_dec (Zpos p) (2 ^ 53)) as [Hlt|Hge].
    + (* no carry *)
      assert (Hd : Zdigits2 (Zpos p) <= 53) by (apply Zdigits2_lt_pow; lia).
      destruct (Z.max (Zdigits2 (Zpos p) + e1 - 53) (-1074) - e1)
        as [|q|q] eqn:Hq; try lia.
      * cbn [shr shr_m pack].
        replace (Zpos p <? 2 ^ 53) with true by (symmetry; apply Z.ltb_lt; lia).
        reflexivity.
      * cbn [shr shr_m pack].
        replace (Zpos p <? 2 ^ 53) with true by (symmetry; apply Z.ltb_lt; lia).
        reflexivity.
    + (* carry: the mantissa is [2^53] *)
      assert (Hp : p = 9007199254740992%positive).
      { apply Pos2Z.inj. change (Zpos 9007199254740992) with (2 ^ 53). lia. }
      subst p. change (Zdigits2 (Zpos 9007199254740992)) with 54.
      replace (Z.max (54 + e1 - 53) (-1074) - e1) with 1 by lia.
      reflexivity.
Qed.

End Core.

Section Order.

Lemma valid_finite_inv (s : bool) (m : positive) (e : Z) :
  valid_binary (S754_finite s m e) = true ->
  fexp prec emax (Zpos (digits2_pos m) + e) = e /\ -1074 <= e <= 971
  /\ Zpos (digits2_pos m) <= 53.
Proof.
  cbn [valid_binary]. unfold SpecFloat.bounded, canonical_mantissa.
  intros Hv. apply andb_prop in Hv as [Hc He].
  apply Z.eqb_eq in Hc. apply Z.leb_le in He.
  change (emax - prec) with 971 in He.
  rewrite fexp64 in *. lia.
Qed.

Lemma valid_finite_sv_bounds (m : positive) (e : Z) :
  valid_binary (S754_finite false m e) = true ->
  0 < Zpos m * 2 ^ (e + 1074) < 2 ^ 2098.
Proof.
  intros Hv. apply valid_finite_inv in Hv as (Hc & He & Hd).
  pose proof (digits2_pos_bounds m) as [_ Bhi].
  assert (Hp : 0 < 2 ^ (e + 1074)) by (apply Z.pow_pos_nonneg; lia).
  split; [lia|].
  assert (H53 : Zpos m < 2 ^ 53).
  { assert (2 ^ Zpos (digits2_pos m) <= 2 ^ 53) by (apply Z.pow_le_mono_r; lia).
    lia. }
  assert (H2045 : 2 ^ (e + 1074) <= 2 ^ 2045) by (apply Z.pow_le_mono_r; lia).
  replace (2 ^ 2098) with (2 ^ 53 * 2 ^ 2045)
    by (rewrite <- Z.pow_add_r by lia; reflexivity).
  nia.
Qed.

(** Valid positive floats are ordered by exponent, then by mantissa. *)
Lemma valid_exponent_lt (m1 m2 : positive) (e1 e2 : Z) :
  valid_binary (S754_finite false m1 e1) = true ->
  valid_binary (S754_finite false m2 e2) = true ->
  e1 < e2 ->
  Zpos m1 * 2 ^ (e1 + 1074) < Zpos m2 * 2 ^ (e2 + 1074).
Proof.
  intros H1 H2 Hlt.
  apply valid_finite_inv in H1 as (Hc1 & He1 & Hd1).
  apply valid_finite_inv in H2 as (Hc2 & He2 & Hd2).
  rewrite fexp64 in Hc1, Hc2.
  pose proof (digits2_pos_bounds m1) as [_ Bhi].
  pose proof (digits2_pos_bounds m2) as [Blo _].
  set (d1 := Zpos (digits2_pos m1)) in *. set (d2 := Zpos (digits2_pos m2)) in *.
  assert (Hp1' : 0 < d1) by (unfold d1; lia).
  assert (Hp2' : 0 < d2) by (unfold d2; lia).
  clearbody d1 d2.
  assert (Hd : d1 + e1 <= d2 + e2 - 1) by lia.
  assert (Hp1 : 0 < 2 ^ (e1 + 1074)) by (apply Z.pow_pos_nonneg; lia).
  assert (Hp2 : 0 < 2 ^ (e2 + 1074)) by (apply Z.pow_pos_nonneg; lia).
  assert (A : Zpos m1 * 2 ^ (e1 + 1074) < 2 ^ (d1 + e1 + 1074)).
  { replace (d1 + e1 + 1074) with (d1 + (e1 + 1074)) by lia.
    rewrite (Z.pow_add_r 2 d1 (e1 + 1074)) by lia.
    apply Z.mul_lt_mono_pos_r; assumption. }
  assert (B : 2 ^ (d2 - 1 + e2 + 1074) <= Zpos m2 * 2 ^ (e2 + 1074)).
  { replace (d2 - 1 + e2 + 1074) with ((d2 - 1) + (e2 + 1074)) by lia.
    rewrite (Z.pow_add_r 2 (d2 - 1) (e2 + 1074)) by lia.
    apply Z.mul_le_mono_nonneg_r; [lia|assumption]. }
  assert (C : 2 ^ (d1 + e1 + 1074) <= 2 ^ (d2 - 1 + e2 + 1074)).
  { apply Z.pow_le_mono_r; lia. }
  lia.
Qed.

Lemma SFcompare_pos (m1 m2 : positive) (e1 e2 : Z) :
  valid_binary (S754_finite false m1 e1) = true ->
  valid_binary (S754_finite false m2 e2) = true ->
  match e1 ?= e2 with
  | Lt => Lt
  | Gt => Gt
  | Eq => Pos.compare_cont Eq m1 m2
  end = (Zpos m1 * 2 ^ (e1 + 1074) ?= Zpos m2 * 2 ^ (e2 + 1074)).
Proof.
  intros H1 H2.
  destruct (Z.compare_spec e1 e2) as [->|Hlt|Hgt].
  - pose proof (valid_finite_inv _ _ _ H2) as (_ & He & _).
    assert (Hp : 0 < 2 ^ (e2 + 1074)) by (apply Z.pow_pos_nonneg; lia).
    change (Pos.compare_cont Eq m1 m2) with (Zpos m1 ?= Zpos m2).
    apply Zmult_compare_compat_r. lia.
  - symmetry. apply Z.compare_lt_iff. apply valid_exponent_lt; assumption.
  - symmetry. apply Z.compare_gt_iff. apply valid_exponent_lt; assumption.
Qed.

Lemma valid_binary_sign (s : bool) (m : positive) (e : Z) :
  valid_binary (S754_finite s m e) = valid_binary (S754_finite false m e).
Proof. reflexivity. Qed.

(** Comparing two valid floats, none of them nan, compares their values. *)
Lemma SFcompare_sv (x y : spec_float) :
  valid_binary x = true -> valid_binary y = true ->
  is_nan_sf x = false -> is_nan_sf y = false ->
  SFcompare x y = Some (sv x ?= sv y).
Proof.
  intros Hx Hy Nx Ny.
  destruct x as [sx|sx| |sx mx ex]; try discriminate;
    destruct y as [sy|sy| |sy my ey]; try discriminate;
    cbn [SFcompare sv].
  - reflexivity.
  - destruct sy; reflexivity.
  - rewrite valid_binary_sign in Hy.
    pose proof (valid_finite_sv_bounds _ _ Hy) as Hb.
    destruct sy; f_equal; symmetry;
      [apply Z.compare_gt_iff | apply Z.compare_lt_iff]; lia.
  - destruct sx; reflexivity.
  - destruct sx, sy; reflexivity.
  - rewrite valid_binary_sign in Hy.
    pose proof (valid_finite_sv_bounds _ _ Hy) as Hb.
    assert (H2 : 2 ^ 2098 < 2 ^ 2100) by (apply Z.pow_lt_mono_r; lia).
    destruct sx, sy; f_equal; symmetry;
      try (apply Z.compare_gt_iff; lia); try (apply Z.compare_lt_iff; lia).
  - rewrite valid_binary_sign in Hx.
    pose proof (valid_finite_sv_bounds _ _ Hx) as Hb.
    destruct sx; f_equal; symmetry;
      [apply Z.compare_lt_iff | apply Z.compare_gt_iff]; lia.
  - rewrite valid_binary_sign in Hx.
    pose proof (valid_finite_sv_bounds _ _ Hx) as Hb.
    assert (H2 : 2 ^ 2098 < 2 ^ 2100) by (apply Z.pow_lt_mono_r; lia).
    destruct sx, sy; f_equal; symmetry;
      try (apply Z.compare_gt_iff; lia); try (apply Z.compare_lt_iff; lia).
  - rewrite valid_binary_sign in Hx, Hy.
    pose proof (valid_finite_sv_bounds _ _ Hx) as Hbx.
    pose proof (valid_finite_sv_bounds _ _ Hy) as Hby.
    destruct sx, sy; f_equal.
    + pose proof (SFcompare_pos mx my ex ey Hx Hy) as Hc.
      change (- Zpos mx) with (- (Zpos mx)). change (- Zpos my) with (- (Zpos my)).
      rewrite !Z.mul_opp_l, Z.compare_opp.
      rewrite (Z.compare_antisym (Zpos mx * 2 ^ (ex + 1074))
                 (Zpos my * 2 ^ (ey + 1074))), <- Hc.
      destruct (ex ?= ey); reflexivity.
    + symmetry. apply Z.compare_lt_iff. lia.
    + symmetry. apply Z.compare_gt_iff. lia.
    + apply SFcompare_pos; assumption.
Qed.

End Order.

Section Rounding.

Lemma round_half_even_scale (n d c : Z) :
  0 < d -> 0 < c -> round_half_even (n * c) (d * c) = round_half_even n d.
Proof.
  intros Hd Hc. unfold round_half_even.
  rewrite Z.div_mul_cancel_r by lia.
  rewrite Z.mul_mod_distr_r by lia.
  replace (2 * (n mod d * c)) with (2 * (n mod d) * c) by ring.
  replace (2 * (n mod d) * c ?= d * c) with (2 * (n mod d) ?= d)
    by (apply Zmult_compare_compat_r; lia).
  reflexivity.
Qed.

Lemma round_half_even_le_int (n d c : Z) :
  0 < d -> n <= c * d -> round_half_even n d <= c.
Proof.
  intros Hd Hle. rewrite <- (round_half_even_exact c d Hd).
  apply round_half_even_mono; try lia. nia.
Qed.

Lemma round_half_even_ge_int (n d c : Z) :
  0 < d -> c * d <= n -> c <= round_half_even n d.
Proof.
  intros Hd Hle. rewrite <- (round_half_even_exact c d Hd).
  apply round_half_even_mono; try lia. nia.
Qed.

Lemma Zdiv_cross_le (n1 d1 n2 d2 : Z) :
  0 < d1 -> 0 < d2 -> n1 * d2 <= n2 * d1 -> n1 / d1 <= n2 / d2.
Proof.
  intros H1 H2 Hle. apply Z.div_le_lower_bound; [assumption|].
  pose proof (Z.mul_div_le n1 d1 H1) as Hq.
  assert (Hq' : n1 / d1 * d1 * d2 <= n2 * d1) by nia.
  assert (d2 * (n1 / d1) * d1 <= n2 * d1) by lia.
  apply Z.mul_le_mono_pos_r with d1; assumption.
Qed.

Lemma RNs_mono (n1 d1 n2 d2 : Z) :
  0 <= n1 -> 0 < d1 -> 0 < d2 -> n1 * d2 <= n2 * d1 ->
  RNs n1 d1 <= RNs n2 d2.
Proof.
  intros Hn1 H1 H2 Hle. unfold RNs.
  assert (Hn2 : 0 <= n2) by nia.
  assert (Hq1 : 0 <= n1 / d1) by (apply Z.div_pos; lia).
  assert (Hq2 : 0 <= n2 / d2) by (apply Z.div_pos; lia).
  assert (Hq : n1 / d1 <= n2 / d2) by (apply Zdiv_cross_le; assumption).
  pose proof (Zdigits2_mono (n1 / d1) (n2 / d2) ltac:(lia)) as Hdig.
  set (K1 := Z.max 0 (Zdigits2 (n1 / d1) - 53)).
  set (K2 := Z.max 0 (Zdigits2 (n2 / d2) - 53)).
  assert (HK : 0 <= K1 <= K2) by (unfold K1, K2; lia).
  assert (Hp1 : 0 < 2 ^ K1) by (apply Z.pow_pos_nonneg; lia).
  assert (Hp2 : 0 < 2 ^ K2) by (apply Z.pow_pos_nonneg; lia).
  destruct (Z.eq_dec K1 K2) as [E|NE].
  - rewrite <- E. apply Z.mul_le_mono_nonneg_r; [lia|].
    apply round_half_even_mono; nia.
  - (* the second value lies in a higher binade *)
    assert (HK2 : Zdigits2 (n2 / d2) = 53 + K2) by (unfold K1, K2 in *; lia).
    assert (Hlo2 : 2 ^ (52 + K2) <= n2 / d2).
    { pose proof (Zdigits2_bounds (n2 / d2)) as Hb.
      assert (0 < n2 / d2).
      { destruct (Z.eq_dec (n2 / d2) 0) as [Ez|]; [|lia].
        rewrite Ez in HK2. simpl in HK2. lia. }
      specialize (Hb ltac:(lia)). rewrite HK2 in Hb.
      replace (53 + K2 - 1) with (52 + K2) in Hb by lia. lia. }
    assert (Hhi1 : n1 / d1 < 2 ^ (53 + K1)).
    { destruct (Z.eq_dec (n1 / d1) 0) as [Ez|Nz].
      - rewrite Ez. apply Z.pow_pos_nonneg; lia.
      - pose proof (Zdigits2_bounds (n1 / d1) ltac:(lia)) as [_ Bhi].
        assert (2 ^ Zdigits2 (n1 / d1) <= 2 ^ (53 + K1)).
        { apply Z.pow_le_mono_r; unfold K1; lia. }
        lia. }
    assert (A : round_half_even n1 (d1 * 2 ^ K1) <= 2 ^ 53).
    { apply round_half_even_le_int; [nia|].
      assert (n1 < (n1 / d1 + 1) * d1).
      { pose proof (Z.mod_pos_bound n1 d1 H1). pose proof (Z.div_mod n1 d1 ltac:(lia)).
        nia. }
      rewrite Z.pow_add_r in Hhi1 by lia. nia. }
    assert (B : 2 ^ 52 <= round_half_even n2 (d2 * 2 ^ K2)).
    { apply round_half_even_ge_int; [nia|].
      pose proof (Z.mul_div_le n2 d2 H2).
      rewrite Z.pow_add_r in Hlo2 by lia. nia. }
    assert (C : 2 ^ 53 * 2 ^ K1 <= 2 ^ 52 * 2 ^ K2).
    { rewrite <- !Z.pow_add_r by lia. apply Z.pow_le_mono_r; lia. }
    nia.
Qed.

Lemma RNs_nonneg (n d : Z) : 0 <= n -> 0 < d -> 0 <= RNs n d.
Proof.
  intros Hn Hd. unfold RNs.
  set (K := Z.max 0 _).
  assert (Hp : 0 < 2 ^ K) by (apply Z.pow_pos_nonneg; lia).
  assert (0 <= round_half_even n (d * 2 ^ K)).
  { apply round_half_even_ge_int; nia. }
  nia.
Qed.

Lemma RNs_ext (n1 d1 n2 d2 : Z) :
  0 <= n1 -> 0 < d1 -> 0 < d2 -> n1 * d2 = n2 * d1 ->
  RNs n1 d1 = RNs n2 d2.
Proof.
  intros Hn1 H1 H2 E.
  assert (Hn2 : 0 <= n2) by nia.
  apply Z.le_antisymm; apply RNs_mono; lia.
Qed.

End Rounding.

Section Results.

Lemma valid_finite_intro (s : bool) (m : positive) (e : Z) :
  fexp prec emax (Zdigits2 (Zpos m) + e) = e -> e <= 971 ->
  valid_binary (S754_finite s m e) = true.
Proof.
  intros Hc He. cbn [valid_binary]. unfold SpecFloat.bounded, canonical_mantissa.
  apply andb_true_intro. split.
  - apply Z.eqb_eq. exact Hc.
  - apply Z.leb_le. change (emax - prec) with 971. exact He.
Qed.

Lemma pow2_2098 : 2 ^ 2098 = 2 ^ 52 * 2 ^ 2046.
Proof. rewrite <- Z.pow_add_r by lia. reflexivity. Qed.

Lemma pack_res (r e1 : Z) :
  0 <= r <= 2 ^ 53 -> -1074 <= e1 -> (-1074 < e1 -> 2 ^ 52 <= r) ->
  res (pack false r e1) (r * 2 ^ (e1 + 1074)).
Proof.
  intros Hr He Hn. unfold res, pack.
  assert (Hp : 0 < 2 ^ (e1 + 1074)) by (apply Z.pow_pos_nonneg; lia).
  destruct r as [|p|p]; try lia.
  - simpl. split; [exact I|reflexivity].
  - destruct (Z.ltb_spec (Zpos p) (2 ^ 53)) as [Hlt|Hge].
    + assert (Hd : Zdigits2 (Zpos p) <= 53) by (apply Zdigits2_lt_pow; lia).
      destruct (Z.leb_spec e1 971) as [Hle|Hgt].
      * assert (Hv : valid_binary (S754_finite false p e1) = true).
        { apply valid_finite_intro; [|assumption]. rewrite fexp64.
          destruct (Z.eq_dec e1 (-1074)) as [->|Hne]; [lia|].
          assert (52 < Zdigits2 (Zpos p)) by (apply Zdigits2_ge_pow; lia).
          lia. }
        pose proof (valid_finite_sv_bounds _ _ Hv) as [_ Hb].
        replace (Zpos p * 2 ^ (e1 + 1074) <? 2 ^ 2098) with true
          by (symmetry; apply Z.ltb_lt; assumption).
        split; [exact Hv|reflexivity].
      * assert (2 ^ 2046 <= 2 ^ (e1 + 1074)) by (apply Z.pow_le_mono_r; lia).
        assert (2 ^ 52 <= Zpos p) by (apply Hn; lia).
        replace (Zpos p * 2 ^ (e1 + 1074) <? 2 ^ 2098) with false; [reflexivity|].
        symmetry. apply Z.ltb_ge. rewrite pow2_2098.
        apply Z.mul_le_mono_nonneg; lia.
    + assert (E : Zpos p = 2 ^ 53) by lia. rewrite E.
      destruct (Z.leb_spec (e1 + 1) 971) as [Hle|Hgt].
      * assert (Hv : valid_binary (S754_finite false 4503599627370496 (e1 + 1)) = true).
        { apply valid_finite_intro; [|assumption]. rewrite fexp64.
          change (Zdigits2 (Zpos 4503599627370496)) with 53. lia. }
        pose proof (valid_finite_sv_bounds _ _ Hv) as [_ Hb].
        assert (Es : Zpos 4503599627370496 * 2 ^ (e1 + 1 + 1074)
                     = 2 ^ 53 * 2 ^ (e1 + 1074)).
        { replace (e1 + 1 + 1074) with (1 + (e1 + 1074)) by lia.
          rewrite (Z.pow_add_r 2 1 (e1 + 1074)) by lia.
          change (Zpos 4503599627370496) with (2 ^ 52).
          change (2 ^ 53) with (2 ^ 52 * 2 ^ 1). ring. }
        rewrite Es in Hb.
        replace (2 ^ 53 * 2 ^ (e1 + 1074) <? 2 ^ 2098) with true
          by (symmetry; apply Z.ltb_lt; assumption).
        split; [exact Hv|exact Es].
      * assert (2 ^ 2045 <= 2 ^ (e1 + 1074)) by (apply Z.pow_le_mono_r; lia).
        replace (2 ^ 53 * 2 ^ (e1 + 1074) <? 2 ^ 2098) with false; [reflexivity|].
        symmetry. apply Z.ltb_ge.
        replace (2 ^ 2098) with (2 ^ 53 * 2 ^ 2045)
          by (rewrite <- Z.pow_add_r by lia; reflexivity).
        apply Z.mul_le_mono_nonneg; lia.
Qed.

(** In the normal range the rounded mantissa has its 53 bits. *)
Lemma rounded_mantissa_normal (n den e : Z) :
  0 <= n -> 0 < den ->
  0 <= fexp prec emax (Zdigits2 (n / den) + e) - e ->
  -1074 < fexp prec emax (Zdigits2 (n / den) + e) ->
  2 ^ 52 <= round_half_even n
              (den * 2 ^ (fexp prec emax (Zdigits2 (n / den) + e) - e)).
Proof.
  intros Hn Hden. rewrite fexp64. intros Hk Hnorm.
  set (k0 := Z.max (Zdigits2 (n / den) + e - 53) (-1074) - e) in *.
  assert (Hp : 0 < 2 ^ k0) by (apply Z.pow_pos_nonneg; lia).
  pose proof (round_half_even_bounds n (den * 2 ^ k0) ltac:(nia)) as [Rlo Rhi].
  assert (Hq : n / (den * 2 ^ k0) = n / den / 2 ^ k0) by (rewrite Z.div_div; lia).
  assert (Hm : 0 <= n / den) by (apply Z.div_pos; lia).
  pose proof (Zdigits2_div_pow2 (n / den) k0 Hm Hk) as Hd1.
  assert (Hd : Zdigits2 (n / den / 2 ^ k0) = 53) by lia.
  assert (0 < n / den / 2 ^ k0).
  { destruct (Z.eq_dec (n / den / 2 ^ k0) 0) as [Ez|Hne].
    - rewrite Ez in Hd. simpl in Hd. lia.
    - assert (0 <= n / den / 2 ^ k0) by (apply Z.div_pos; lia). lia. }
  pose proof (Zdigits2_bounds (n / den / 2 ^ k0) ltac:(lia)) as [Blo _].
  rewrite Hd in Blo. change (2 ^ (53 - 1)) with (2 ^ 52) in Blo. lia.
Qed.

Lemma Zdigits2_scaled (n den j : Z) :
  0 <= n -> 0 < den -> 0 <= j -> 0 < n / den ->
  Zdigits2 (n * 2 ^ j / den) = Zdigits2 (n / den) + j.
Proof.
  intros Hn Hden Hj Hm.
  assert (Hp : 0 < 2 ^ j) by (apply Z.pow_pos_nonneg; lia).
  pose proof (Zdigits2_bounds (n / den) Hm) as [Blo Bhi].
  pose proof (Zdigits2_pos (n / den) Hm) as Hd.
  set (d := Zdigits2 (n / den)) in *.
  pose proof (Z.mul_div_le n den Hden) as Hq.
  assert (Hq' : n < (n / den + 1) * den).
  { pose proof (Z.mod_pos_bound n den Hden). pose proof (Z.div_mod n den ltac:(lia)).
    nia. }
  assert (L : 2 ^ (d + j - 1) <= n * 2 ^ j / den).
  { apply Z.div_le_lower_bound; [assumption|].
    replace (d + j - 1) with ((d - 1) + j) by lia.
    rewrite (Z.pow_add_r 2 (d - 1) j) by lia.
    assert (den * 2 ^ (d - 1) <= n) by nia.
    rewrite Z.mul_assoc. apply Z.mul_le_mono_nonneg_r; lia. }
  assert (U : n * 2 ^ j / den < 2 ^ (d + j)).
  { apply Z.div_lt_upper_bound; [assumption|].
    rewrite (Z.pow_add_r 2 d j) by lia.
    assert (n < den * 2 ^ d) by nia.
    rewrite Z.mul_assoc. apply Z.mul_lt_mono_pos_r; lia. }
  assert (0 < 2 ^ (d + j - 1)) by (apply Z.pow_pos_nonneg; lia).
  apply Zdigits2_unique; lia.
Qed.

(** The quotient of two scaled integers. *)
Lemma scaled_div (n den a b : Z) :
  0 <= n -> 0 < den -> 0 <= a -> 0 <= b ->
  n * 2 ^ a / (den * 2 ^ b)
  = if b <=? a then n * 2 ^ (a - b) / den else n / den / 2 ^ (b - a).
Proof.
  intros Hn Hden Ha Hb.
  destruct (Z.leb_spec b a) as [Hle|Hgt].
  - replace a with ((a - b) + b) at 1 by lia.
    rewrite (Z.pow_add_r 2 (a - b) b) by lia.
    rewrite Z.mul_assoc. apply Z.div_mul_cancel_r.
    + lia.
    + assert (0 < 2 ^ b) by (apply Z.pow_pos_nonneg; lia). lia.
  - replace b with ((b - a) + a) at 1 by lia.
    rewrite (Z.pow_add_r 2 (b - a) a) by lia.
    rewrite Z.mul_assoc.
    assert (0 < 2 ^ a) by (apply Z.pow_pos_nonneg; lia).
    assert (0 < 2 ^ (b - a)) by (apply Z.pow_pos_nonneg; lia).
    rewrite Z.div_mul_cancel_r by nia.
    rewrite Z.div_div by lia. reflexivity.
Qed.

(** [binary_round_aux] rounds the value [n / den * 2^e] to the nearest
    double: its result is the float of the rounded value. *)
Lemma binary_round_aux_res (n den e a b : Z) :
  0 <= n -> 0 < den ->
  0 <= fexp prec emax (Zdigits2 (n / den) + e) - e ->
  0 <= a -> 0 <= b -> a - b = e + 1074 ->
  res (binary_round_aux prec emax false (n / den) e (loc_of (n mod den) den))
      (RNs (n * 2 ^ a) (den * 2 ^ b)).
Proof.
  intros Hn Hden Hk Ha Hb Hab.
  rewrite binary_round_aux_pack by assumption.
  pose proof (rounded_mantissa_bounds n den e Hn Hden Hk) as HR.
  pose proof (rounded_mantissa_normal n den e Hn Hden Hk) as HN.
  set (e1 := fexp prec emax (Zdigits2 (n / den) + e)) in *.
  assert (He1 : e1 = Z.max (Zdigits2 (n / den) + e - 53) (-1074))
    by (unfold e1; apply fexp64).
  set (r := round_half_even n (den * 2 ^ (e1 - e))) in *.
  assert (HK : Z.max 0 (Zdigits2 (n * 2 ^ a / (den * 2 ^ b)) - 53) = e1 + 1074).
  { rewrite scaled_div by assumption.
    assert (Hm : 0 <= n / den) by (apply Z.div_pos; lia).
    destruct (Z.leb_spec b a) as [Hle|Hgt].
    - destruct (Z.eq_dec (n / den) 0) as [Ez|Nz].
      + rewrite Ez in He1. simpl in He1.
        assert (a - b = 0) by lia.
        replace (a - b) with 0 by lia. rewrite Z.mul_1_r, Ez. simpl. lia.
      + rewrite Zdigits2_scaled by lia. lia.
    - rewrite Zdigits2_div_pow2 by lia. lia. }
  assert (Hr : round_half_even (n * 2 ^ a) (den * 2 ^ b * 2 ^ (e1 + 1074)) = r).
  { unfold r.
    assert (Hc : 0 < 2 ^ a) by (apply Z.pow_pos_nonneg; lia).
    assert (Hc' : 0 < 2 ^ (e1 - e)) by (apply Z.pow_pos_nonneg; lia).
    rewrite <- (round_half_even_scale n (den * 2 ^ (e1 - e)) (2 ^ a)) by nia.
    f_equal. rewrite <- !Z.mul_assoc. f_equal.
    rewrite <- !Z.pow_add_r by lia. f_equal. lia. }
  unfold RNs. rewrite HK, Hr.
  apply pack_res; [exact HR|lia|exact HN].
Qed.

Lemma res_finite (z : spec_float) (w : Z) :
  res z w -> w < 2 ^ 2098 -> nn z /\ sv z = w.
Proof.
  unfold res. intros H Hlt.
  replace (w <? 2 ^ 2098) with true in H by (symmetry; apply Z.ltb_lt; assumption).
  exact H.
Qed.

End Results.

Section Operations.

Lemma RNs_0 (d : Z) : 0 < d -> RNs 0 d = 0.
Proof.
  intros Hd. unfold RNs. rewrite Z.div_0_l by lia.
  change (Zdigits2 0) with 0. replace (Z.max 0 (0 - 53)) with 0 by lia.
  rewrite !Z.mul_1_r.
  apply Z.le_antisymm;
    [apply round_half_even_le_int | apply round_half_even_ge_int]; lia.
Qed.

Lemma res_zero (s : bool) : res (S754_zero s) 0.
Proof. unfold res. simpl. split; [exact I|reflexivity]. Qed.

Lemma nn_sv_nonneg (x : spec_float) : nn x -> 0 <= sv x.
Proof.
  destruct x as [s|s| |[|] m e]; simpl; try tauto; lia.
Qed.

(** A valid float is its own rounding. *)
Lemma RNs_valid (m : positive) (e : Z) :
  valid_binary (S754_finite false m e) = true ->
  RNs (Zpos m * 2 ^ (e + 1074)) 1 = Zpos m * 2 ^ (e + 1074).
Proof.
  intros Hv. pose proof (valid_finite_inv _ _ _ Hv) as (Hc & He & Hd).
  rewrite fexp64 in Hc. unfold RNs. rewrite Z.div_1_r, Z.mul_1_l.
  pose proof (Zdigits2_scaled (Zpos m) 1 (e + 1074)) as Hs.
  rewrite !Z.div_1_r in Hs. rewrite Hs by lia.
  change (Zdigits2 (Zpos m)) with (Zpos (digits2_pos m)).
  replace (Z.max 0 (Zpos (digits2_pos m) + (e + 1074) - 53)) with (e + 1074) by lia.
  rewrite round_half_even_exact; [reflexivity|].
  apply Z.pow_pos_nonneg; lia.
Qed.

Lemma res_nn (x : spec_float) : nn x -> res x (RNs (sv x) 1).
Proof.
  destruct x as [s|s| |[|] m e]; cbn [nn sv]; try tauto; intros Hv.
  - rewrite RNs_0 by lia. apply res_zero.
  - rewrite RNs_valid by assumption. unfold res.
    pose proof (valid_finite_sv_bounds _ _ Hv) as [_ Hb].
    replace (Zpos m * 2 ^ (e + 1074) <? 2 ^ 2098) with true
      by (symmetry; apply Z.ltb_lt; assumption).
    split; [exact Hv|reflexivity].
Qed.

Lemma loc_of_exact (d : Z) : loc_of 0 d = loc_Exact.
Proof. reflexivity. Qed.

(** An integer mantissa, as [binary_round_aux] takes it from [SFmul] and
    [binary_round]. *)
Lemma binary_round_aux_exact_res (m : positive) (e a b : Z) :
  0 <= fexp prec emax (Zdigits2 (Zpos m) + e) - e ->
  0 <= a -> 0 <= b -> a - b = e + 1074 ->
  res (binary_round_aux prec emax false (Zpos m) e loc_Exact)
      (RNs (Zpos m * 2 ^ a) (2 ^ b)).
Proof.
  intros Hk Ha Hb Hab.
  pose proof (binary_round_aux_res (Zpos m) 1 e a b) as H.
  rewrite Z.div_1_r, Z.mod_1_r, Z.mul_1_l in H.
  apply H; try assumption; lia.
Qed.

Lemma SFmul_res (x y : spec_float) :
  nn x -> nn y ->
  res (SFmul prec emax x y) (RNs (sv x * sv y) (2 ^ 1074)).
Proof.
  assert (Hp : 0 < 2 ^ 1074) by (apply Z.pow_pos_nonneg; lia).
  intros Hx Hy.
  destruct x as [sx|sx| |[|] mx ex]; cbn [nn] in Hx; try tauto;
    destruct y as [sy|sy| |[|] my ey]; cbn [nn] in Hy; try tauto;
    cbn [SFmul sv].
  - rewrite RNs_0 by assumption. apply res_zero.
  - rewrite RNs_0 by assumption. apply res_zero.
  - rewrite Z.mul_0_r, RNs_0 by assumption. apply res_zero.
  - pose proof (valid_finite_inv _ _ _ Hx) as (Hcx & Hex & Hdx).
    pose proof (valid_finite_inv _ _ _ Hy) as (Hcy & Hey & Hdy).
    rewrite fexp64 in Hcx, Hcy.
    pose proof (digits2_pos_bounds mx) as [Bx _].
    pose proof (digits2_pos_bounds my) as [By _].
    set (dx := Zpos (digits2_pos mx)) in *. set (dy := Zpos (digits2_pos my)) in *.
    assert (Hdx0 : 0 < dx) by (unfold dx; lia).
    assert (Hdy0 : 0 < dy) by (unfold dy; lia).
    clearbody dx dy.
    assert (Hd : dx + dy - 2 < Zdigits2 (Zpos (mx * my))).
    { apply Zdigits2_ge_pow; [lia|].
      replace (dx + dy - 2) with ((dx - 1) + (dy - 1)) by lia.
      rewrite Z.pow_add_r by lia. rewrite Pos2Z.inj_mul.
      apply Z.mul_le_mono_nonneg; try lia;
        apply Z.pow_nonneg; lia. }
    replace (Zpos mx * 2 ^ (ex + 1074) * (Zpos my * 2 ^ (ey + 1074)))
      with (Zpos (mx * my) * 2 ^ ((ex + 1074) + (ey + 1074))).
    2:{ rewrite Pos2Z.inj_mul, Z.pow_add_r by lia. ring. }
    cbn [xorb].
    apply binary_round_aux_exact_res; try lia.
    rewrite fexp64. lia.
Qed.

Lemma shl_align_spec (m : positive) (e e2 : Z) :
  snd (shl_align m e e2) = Z.min e e2
  /\ Zpos (fst (shl_align m e e2)) = Zpos m * 2 ^ (e - Z.min e e2).
Proof.
  unfold shl_align. destruct (e2 - e) as [|d|d] eqn:Hd; cbn [fst snd].
  - split; [lia|]. replace (e - Z.min e e2) with 0 by lia. lia.
  - split; [lia|]. replace (e - Z.min e e2) with 0 by lia. lia.
  - split; [lia|]. replace (e - Z.min e e2) with (Zpos d) by lia.
    clear Hd. revert m. induction d as [|d IH] using Pos.peano_ind; intros m.
    + cbn [Pos.iter]. lia.
    + rewrite Pos.iter_succ. rewrite Pos2Z.inj_succ, Z.pow_succ_r by lia.
      change (Zpos (Pos.iter xO m d)~0) with (2 * Zpos (Pos.iter xO m d)).
      rewrite IH. ring.
Qed.

Lemma binary_round_res (m : positive) (e : Z) :
  -1074 <= e ->
  res (binary_round prec emax false m e) (RNs (Zpos m * 2 ^ (e + 1074)) 1).
Proof.
  intros He. unfold binary_round.
  pose proof (shl_align_spec m e (fexp prec emax (Zpos (digits2_pos m) + e)))
    as [Hs Hf].
  destruct (shl_align m e (fexp prec emax (Zpos (digits2_pos m) + e)))
    as [mz ez]. cbn [fst snd] in Hs, Hf.
  rewrite fexp64 in Hs, Hf.
  assert (Hdz : Zdigits2 (Zpos mz) = Zpos (digits2_pos m) + (e - ez)).
  { rewrite Hf. pose proof (Zdigits2_scaled (Zpos m) 1 (e - ez)) as H.
    rewrite !Z.div_1_r in H. rewrite Hs. rewrite Hs in H. apply H; lia. }
  replace (Zpos m * 2 ^ (e + 1074)) with (Zpos mz * 2 ^ (ez + 1074)).
  2:{ rewrite Hf, Hs, <- Z.mul_assoc, <- Z.pow_add_r by lia. do 2 f_equal. lia. }
  change (RNs (Zpos mz * 2 ^ (ez + 1074)) 1)
    with (RNs (Zpos mz * 2 ^ (ez + 1074)) (2 ^ 0)).
  apply binary_round_aux_exact_res; try lia.
  rewrite Hdz, fexp64. lia.
Qed.

Lemma SFadd_res (x y : spec_float) :
  nn x -> nn y ->
  res (SFadd prec emax x y) (RNs (sv x + sv y) 1).
Proof.
  intros Hx Hy.
  destruct x as [sx|sx| |[|] mx ex]; cbn [nn] in Hx; try tauto;
    destruct y as [sy|sy| |[|] my ey]; cbn [nn] in Hy; try tauto.
  - cbn [SFadd sv]. rewrite RNs_0 by lia.
    destruct sx, sy; apply res_zero.
  - cbn [SFadd]. change (sv (S754_zero sx)) with 0. rewrite Z.add_0_l.
    apply res_nn. exact Hy.
  - cbn [SFadd]. change (sv (S754_zero sy)) with 0. rewrite Z.add_0_r.
    apply res_nn. exact Hx.
  - pose proof (valid_finite_inv _ _ _ Hx) as (_ & Hex & _).
    pose proof (valid_finite_inv _ _ _ Hy) as (_ & Hey & _).
    cbn [SFadd sv cond_Zopp].
    pose proof (shl_align_spec mx ex (Z.min ex ey)) as [_ Fx].
    pose proof (shl_align_spec my ey (Z.min ex ey)) as [_ Fy].
    replace (Z.min ex (Z.min ex ey)) with (Z.min ex ey) in Fx by lia.
    replace (Z.min ey (Z.min ex ey)) with (Z.min ex ey) in Fy by lia.
    set (ez := Z.min ex ey) in *.
    set (ax := fst (shl_align mx ex ez)) in *.
    set (ay := fst (shl_align my ey ez)) in *.
    change (Zpos ax + Zpos ay) with (Zpos (ax + ay)).
    cbn [binary_normalize].
    replace (Zpos mx * 2 ^ (ex + 1074) + Zpos my * 2 ^ (ey + 1074))
      with (Zpos (ax + ay) * 2 ^ (ez + 1074)).
    + apply binary_round_res. lia.
    + rewrite Pos2Z.inj_add, Fx, Fy, Z.mul_add_distr_r.
      rewrite <- !Z.mul_assoc, <- !Z.pow_add_r by lia.
      do 2 f_equal; f_equal; lia.
Qed.

Lemma SFsub_res (x y : spec_float) :
  nn x -> nn y -> sv y <= sv x ->
  res (SFsub prec emax x y) (RNs (sv x - sv y) 1).
Proof.
  intros Hx Hy Hle.
  destruct x as [sx|sx| |[|] mx ex]; cbn [nn] in Hx; try tauto;
    destruct y as [sy|sy| |[|] my ey]; cbn [nn] in Hy; try tauto.
  - cbn [SFsub sv]. rewrite RNs_0 by lia.
    destruct sx, sy; apply res_zero.
  - exfalso. pose proof (valid_finite_sv_bounds _ _ Hy). cbn [sv] in Hle. lia.
  - cbn [SFsub]. change (sv (S754_zero sy)) with 0. rewrite Z.sub_0_r.
    apply res_nn. exact Hx.
  - pose proof (valid_finite_inv _ _ _ Hx) as (_ & Hex & _).
    pose proof (valid_finite_inv _ _ _ Hy) as (_ & Hey & _).
    cbn [SFsub sv cond_Zopp] in *.
    pose proof (shl_align_spec mx ex (Z.min ex ey)) as [_ Fx].
    pose proof (shl_align_spec my ey (Z.min ex ey)) as [_ Fy].
    replace (Z.min ex (Z.min ex ey)) with (Z.min ex ey) in Fx by lia.
    replace (Z.min ey (Z.min ex ey)) with (Z.min ex ey) in Fy by lia.
    set (ez := Z.min ex ey) in *.
    set (ax := fst (shl_align mx ex ez)) in *.
    set (ay := fst (shl_align my ey ez)) in *.
    assert (Hp : 0 < 2 ^ (ez + 1074)) by (apply Z.pow_pos_nonneg; lia).
    assert (E : Zpos mx * 2 ^ (ex + 1074) - Zpos my * 2 ^ (ey + 1074)
                = (Zpos ax - Zpos ay) * 2 ^ (ez + 1074)).
    { rewrite Fx, Fy, Z.mul_sub_distr_r.
      rewrite <- !Z.mul_assoc, <- !Z.pow_add_r by lia.
      do 2 f_equal; f_equal; lia. }
    rewrite E.
    destruct (Zpos ax - Zpos ay) as [|d|d] eqn:Hd.
    + cbn [binary_normalize]. rewrite Z.mul_0_l, RNs_0 by lia. apply res_zero.
    + cbn [binary_normalize]. apply binary_round_res. lia.
    + exfalso. nia.
Qed.

End Operations.

Section Division.

Lemma new_location_loc_of (d r : Z) :
  0 < d -> new_location d r = loc_of r d.
Proof.
  intros Hd. unfold new_location, new_location_even, new_location_odd, loc_of.
  destruct (Z.even d) eqn:Hev; destruct (r =? 0); try reflexivity.
  f_equal.
  assert (Hodd : Z.odd d = true) by (rewrite <- Z.negb_even, Hev; reflexivity).
  apply Z.odd_spec in Hodd as [k Hk].
  destruct (Z.compare_spec (2 * r + 1) d), (Z.compare_spec (2 * r) d);
    try reflexivity; lia.
Qed.

(** Division of two positive floats, whatever their mantissas. *)
Lemma SFdiv_finite_res (mx my : positive) (ex ey : Z) :
  -1074 <= ex <= 971 -> -1074 <= ey <= 971 ->
  res (SFdiv prec emax (S754_finite false mx ex) (S754_finite false my ey))
      (RNs (Zpos mx * 2 ^ (ex + 1074) * 2 ^ 1074) (Zpos my * 2 ^ (ey + 1074))).
Proof.
  intros Hex Hey.
  assert (Hy0 : 0 < Zpos my * 2 ^ (ey + 1074)).
  { assert (0 < 2 ^ (ey + 1074)) by (apply Z.pow_pos_nonneg; lia). lia. }
  cbn [SFdiv sv xorb]. unfold SFdiv_core_binary.
  cbn [Zdigits2]. rewrite fexp64.
  pose proof (digits2_pos_bounds mx) as [Bx Bx'].
  pose proof (digits2_pos_bounds my) as [By By'].
  set (d1 := Zpos (digits2_pos mx)) in *.
  set (d2 := Zpos (digits2_pos my)) in *.
  assert (Hd1 : 0 < d1) by (unfold d1; lia).
  assert (Hd2 : 0 < d2) by (unfold d2; lia).
  clearbody d1 d2.
  set (e' := Z.min (Z.max (d1 + ex - (d2 + ey) - 53) (-1074)) (ex - ey)).
  assert (He' : e' = Z.min (Z.max (d1 + ex - (d2 + ey) - 53) (-1074)) (ex - ey))
    by reflexivity.
  clearbody e'.
  set (s := ex - ey - e').
  assert (Hs : 0 <= s) by (unfold s; lia).
  assert (Hm' : match s with
                | 0 => Zpos mx
                | Zpos _ => Z.shiftl (Zpos mx) s
                | Zneg _ => 0
                end = Zpos mx * 2 ^ s).
  { destruct s as [|p|p] eqn:Es; try lia.
    rewrite Z.shiftl_mul_pow2 by lia. reflexivity. }
  rewrite Hm'.
  set (n := Zpos mx * 2 ^ s).
  assert (Hps : 0 < 2 ^ s) by (apply Z.pow_pos_nonneg; lia).
  assert (Hn : 0 <= n) by (unfold n; lia).
  assert (Hqr : Z.div_eucl n (Zpos my) = (n / Zpos my, n mod Zpos my)).
  { unfold Z.div, Z.modulo. destruct (Z.div_eucl n (Zpos my)); reflexivity. }
  rewrite Hqr. rewrite new_location_loc_of by lia.
  assert (Hk : 0 <= fexp prec emax (Zdigits2 (n / Zpos my) + e') - e').
  { rewrite fexp64.
    destruct (Z_le_gt_dec e' (-1074)) as [|Hgt]; [lia|].
    assert (Hs53 : d2 - d1 + 53 <= s) by (unfold s; lia).
    assert (Hq : 2 ^ 52 <= n / Zpos my).
    { apply Z.div_le_lower_bound; [lia|].
      assert (A : 2 ^ (d2 + 52) <= 2 ^ (d1 - 1 + s))
        by (apply Z.pow_le_mono_r; lia).
      rewrite Z.pow_add_r in A by lia.
      rewrite (Z.pow_add_r 2 (d1 - 1) s) in A by lia.
      assert (B : 2 ^ (d1 - 1) * 2 ^ s <= n)
        by (unfold n; apply Z.mul_le_mono_nonneg_r; lia).
      assert (C : Zpos my * 2 ^ 52 <= 2 ^ d2 * 2 ^ 52)
        by (apply Z.mul_le_mono_nonneg_r; lia).
      lia. }
    assert (52 < Zdigits2 (n / Zpos my)) by (apply Zdigits2_ge_pow; lia).
    lia. }
  pose proof (binary_round_aux_res n (Zpos my) e' (e' + 5074) 4000
                Hn ltac:(lia) Hk ltac:(lia) ltac:(lia) ltac:(lia)) as R.
  replace (RNs (Zpos mx * 2 ^ (ex + 1074) * 2 ^ 1074)
             (Zpos my * 2 ^ (ey + 1074)))
    with (RNs (n * 2 ^ (e' + 5074)) (Zpos my * 2 ^ 4000)); [exact R|].
  assert (0 < 2 ^ 4000) by (apply Z.pow_pos_nonneg; lia).
  assert (0 < 2 ^ (e' + 5074)) by (apply Z.pow_pos_nonneg; lia).
  apply RNs_ext; try nia. unfold n.
  assert (E : 2 ^ s * 2 ^ (e' + 5074) * 2 ^ (ey + 1074)
              = 2 ^ (ex + 1074) * 2 ^ 1074 * 2 ^ 4000).
  { rewrite <- !Z.pow_add_r by lia. f_equal. unfold s. lia. }
  replace (Zpos mx * 2 ^ s * 2 ^ (e' + 5074) * (Zpos my * 2 ^ (ey + 1074)))
    with (Zpos mx * Zpos my * (2 ^ s * 2 ^ (e' + 5074) * 2 ^ (ey + 1074)))
    by ring.
  rewrite E. ring.
Qed.

Lemma SFdiv_res (x : spec_float) (my : positive) (ey : Z) :
  nn x -> valid_binary (S754_finite false my ey) = true ->
  res (SFdiv prec emax x (S754_finite false my ey))
      (RNs (sv x * 2 ^ 1074) (Zpos my * 2 ^ (ey + 1074))).
Proof.
  intros Hx Hy.
  pose proof (valid_finite_inv _ _ _ Hy) as (_ & Hey & _).
  pose proof (valid_finite_sv_bounds _ _ Hy) as [Hy0 _].
  destruct x as [sx|sx| |[|] mx ex]; cbn [nn] in Hx; try tauto.
  - cbn [SFdiv sv]. rewrite Z.mul_0_l, RNs_0 by assumption. apply res_zero.
  - pose proof (valid_finite_inv _ _ _ Hx) as (_ & Hex & _).
    cbn [sv]. apply SFdiv_finite_res; assumption.
Qed.

End Division.

Section ValueBounds.

Lemma RNs_pow2 (j : Z) : 0 <= j -> RNs (2 ^ j) 1 = 2 ^ j.
Proof.
  intros Hj. unfold RNs. rewrite Z.div_1_r, Z.mul_1_l.
  assert (Hp : 0 < 2 ^ j) by (apply Z.pow_pos_nonneg; lia).
  assert (Hd : Zdigits2 (2 ^ j) = j + 1).
  { apply Zdigits2_unique; [|assumption].
    replace (j + 1 - 1) with j by lia. split; [lia|].
    apply Z.pow_lt_mono_r; lia. }
  rewrite Hd. set (K := Z.max 0 (j + 1 - 53)).
  assert (HK : 0 <= K <= j) by (unfold K; lia).
  replace (2 ^ j) with (2 ^ (j - K) * 2 ^ K)
    by (rewrite <- Z.pow_add_r by lia; f_equal; lia).
  rewrite round_half_even_exact by (apply Z.pow_pos_nonneg; lia).
  reflexivity.
Qed.

Lemma RNs_pow2_le (n d j : Z) :
  0 <= n -> 0 < d -> 0 <= j -> n <= 2 ^ j * d -> RNs n d <= 2 ^ j.
Proof.
  intros Hn Hd Hj Hle. rewrite <- (RNs_pow2 j Hj).
  apply RNs_mono; lia.
Qed.

Lemma RNs_int (p : Z) : 0 < p < 2 ^ 53 -> RNs (p * 2 ^ 1074) 1 = p * 2 ^ 1074.
Proof.
  intros Hp. unfold RNs. rewrite Z.div_1_r, Z.mul_1_l.
  pose proof (Zdigits2_scaled p 1 1074) as Hs. rewrite !Z.div_1_r in Hs.
  rewrite Hs by lia.
  pose proof (Zdigits2_pos p ltac:(lia)) as Hd0.
  pose proof (Zdigits2_lt_pow p 53 ltac:(lia) ltac:(lia)) as Hd1.
  set (K := Z.max 0 (Zdigits2 p + 1074 - 53)).
  assert (HK : 0 <= K <= 1074) by (unfold K; lia).
  replace (p * 2 ^ 1074) with (p * 2 ^ (1074 - K) * 2 ^ K).
  2:{ rewrite <- Z.mul_assoc, <- Z.pow_add_r by lia. do 2 f_equal. lia. }
  rewrite round_half_even_exact by (apply Z.pow_pos_nonneg; lia).
  reflexivity.
Qed.

Lemma mulv_mono (a a' b b' : Z) :
  0 <= a <= a' -> 0 <= b <= b' -> mulv a b <= mulv a' b'.
Proof.
  intros Ha Hb. unfold mulv.
  assert (0 < 2 ^ 1074) by (apply Z.pow_pos_nonneg; lia).
  apply RNs_mono; nia.
Qed.

Lemma addv_mono (a a' b b' : Z) :
  0 <= a <= a' -> 0 <= b <= b' -> addv a b <= addv a' b'.
Proof. intros Ha Hb. unfold addv. apply RNs_mono; lia. Qed.

Lemma subv_mono (a b b' : Z) : b <= b' <= a -> subv a b' <= subv a b.
Proof. intros Hb. unfold subv. apply RNs_mono; lia. Qed.

Lemma divv_mono (a a' b : Z) : 0 <= a <= a' -> 0 < b -> divv a b <= divv a' b.
Proof.
  intros Ha Hb. unfold divv.
  assert (0 < 2 ^ 1074) by (apply Z.pow_pos_nonneg; lia).
  apply RNs_mono; nia.
Qed.

Lemma mulv_nonneg (a b : Z) : 0 <= a -> 0 <= b -> 0 <= mulv a b.
Proof.
  intros. apply RNs_nonneg; [nia|apply Z.pow_pos_nonneg; lia].
Qed.

Lemma addv_nonneg (a b : Z) : 0 <= a -> 0 <= b -> 0 <= addv a b.
Proof. intros. apply RNs_nonneg; lia. Qed.

Lemma subv_nonneg (a b : Z) : b <= a -> 0 <= subv a b.
Proof. intros. apply RNs_nonneg; lia. Qed.

Lemma divv_nonneg (a b : Z) : 0 <= a -> 0 < b -> 0 <= divv a b.
Proof.
  intros. apply RNs_nonneg; [|assumption].
  assert (0 < 2 ^ 1074) by (apply Z.pow_pos_nonneg; lia). nia.
Qed.

Lemma pow2_lt_2098 (j : Z) : j <= 1023 -> 2 ^ (1074 + j) < 2 ^ 2098.
Proof. intros Hj. apply Z.pow_lt_mono_r; lia. Qed.

Lemma fin_val_nonneg (a : float) : fin a -> 0 <= val a.
Proof. apply nn_sv_nonneg. Qed.

Lemma fb_weaken (a : float) (i j : Z) : fb a i -> i <= j -> 0 <= 1074 + i -> fb a j.
Proof.
  intros [Hf Hv] Hij Hi. split; [assumption|].
  assert (2 ^ (1074 + i) <= 2 ^ (1074 + j)) by (apply Z.pow_le_mono_r; lia).
  lia.
Qed.

Lemma fmul_fb (a b : float) (i j : Z) :
  fb a i -> fb b j -> 0 <= i -> 0 <= j -> i + j <= 1000 ->
  fb (a * b)%float (i + j) /\ val (a * b)%float = mulv (val a) (val b).
Proof.
  intros [Fa Va] [Fb Vb] Hi Hj Hij.
  pose proof (fin_val_nonneg a Fa) as Na. pose proof (fin_val_nonneg b Fb) as Nb.
  assert (Hp : 0 < 2 ^ 1074) by (apply Z.pow_pos_nonneg; lia).
  assert (Hw : mulv (val a) (val b) <= 2 ^ (1074 + (i + j))).
  { apply RNs_pow2_le; try nia.
    replace (1074 + (i + j)) with ((1074 + i) + j) by lia.
    rewrite (Z.pow_add_r 2 (1074 + i) j) by lia.
    rewrite (Z.pow_add_r 2 1074 j) in Vb by lia.
    assert (0 < 2 ^ j) by (apply Z.pow_pos_nonneg; lia).
    assert (0 < 2 ^ (1074 + i)) by (apply Z.pow_pos_nonneg; lia).
    transitivity (2 ^ (1074 + i) * (2 ^ 1074 * 2 ^ j)); [|lia].
    apply Z.mul_le_mono_nonneg; lia. }
  pose proof (pow2_lt_2098 (i + j) ltac:(lia)) as Hlt.
  destruct (res_finite _ _ (SFmul_res _ _ Fa Fb) ltac:(unfold mulv, val in *; lia))
    as [Hn Hs].
  unfold fb, fin, val. rewrite mul_spec.
  split; [split|]; [exact Hn | | exact Hs].
  change (SF64mul (Prim2SF a) (Prim2SF b))
    with (SFmul prec emax (Prim2SF a) (Prim2SF b)).
  rewrite Hs. exact Hw.
Qed.

Lemma fadd_fb (a b : float) (i : Z) :
  fb a i -> fb b i -> 0 <= i <= 1000 ->
  fb (a + b)%float (i + 1) /\ val (a + b)%float = addv (val a) (val b).
Proof.
  intros [Fa Va] [Fb Vb] Hi.
  pose proof (fin_val_nonneg a Fa) as Na. pose proof (fin_val_nonneg b Fb) as Nb.
  assert (Hw : addv (val a) (val b) <= 2 ^ (1074 + (i + 1))).
  { apply RNs_pow2_le; try lia.
    replace (1074 + (i + 1)) with ((1074 + i) + 1) by lia.
    rewrite (Z.pow_add_r 2 (1074 + i) 1) by lia. lia. }
  pose proof (pow2_lt_2098 (i + 1) ltac:(lia)) as Hlt.
  destruct (res_finite _ _ (SFadd_res _ _ Fa Fb) ltac:(unfold addv, val in *; lia))
    as [Hn Hs].
  unfold fb, fin, val. rewrite add_spec.
  split; [split|]; [exact Hn | | exact Hs].
  change (SF64add (Prim2SF a) (Prim2SF b))
    with (SFadd prec emax (Prim2SF a) (Prim2SF b)).
  rewrite Hs. exact Hw.
Qed.

Lemma fsub_fb (a b : float) (i : Z) :
  fb a i -> fin b -> val b <= val a -> 0 <= i <= 1000 ->
  fb (a - b)%float i /\ val (a - b)%float = subv (val a) (val b).
Proof.
  intros [Fa Va] Fb Hle Hi.
  pose proof (fin_val_nonneg a Fa) as Na. pose proof (fin_val_nonneg b Fb) as Nb.
  assert (Hw : subv (val a) (val b) <= 2 ^ (1074 + i)).
  { apply RNs_pow2_le; lia. }
  pose proof (pow2_lt_2098 i ltac:(lia)) as Hlt.
  destruct (res_finite _ _ (SFsub_res _ _ Fa Fb Hle) ltac:(unfold subv, val in *; lia))
    as [Hn Hs].
  unfold fb, fin, val. rewrite sub_spec.
  split; [split|]; [exact Hn | | exact Hs].
  change (SF64sub (Prim2SF a) (Prim2SF b))
    with (SFsub prec emax (Prim2SF a) (Prim2SF b)).
  rewrite Hs. exact Hw.
Qed.

Lemma fdiv_fb (a b : float) (i j : Z) :
  fb a i -> fin b -> 2 ^ (1074 + j) <= val b -> 0 <= j <= i -> i <= 1000 ->
  fb (a / b)%float (i - j) /\ val (a / b)%float = divv (val a) (val b).
Proof.
  intros [Fa Va] Fb Hb Hj Hi.
  pose proof (fin_val_nonneg a Fa) as Na.
  assert (Hp : 0 < 2 ^ 1074) by (apply Z.pow_pos_nonneg; lia).
  assert (Hpj : 0 < 2 ^ (1074 + j)) by (apply Z.pow_pos_nonneg; lia).
  assert (Hw : divv (val a) (val b) <= 2 ^ (1074 + (i - j))).
  { apply RNs_pow2_le; try nia.
    assert (E : 2 ^ (1074 + (i - j)) * 2 ^ (1074 + j) = 2 ^ (1074 + i) * 2 ^ 1074).
    { rewrite <- !Z.pow_add_r by lia. f_equal. lia. }
    assert (0 < 2 ^ (1074 + (i - j))) by (apply Z.pow_pos_nonneg; lia).
    transitivity (2 ^ (1074 + i) * 2 ^ 1074); [apply Z.mul_le_mono_nonneg_r; lia|].
    rewrite <- E. apply Z.mul_le_mono_nonneg_l; lia. }
  pose proof (pow2_lt_2098 (i - j) ltac:(lia)) as Hlt.
  unfold fb, fin, val in *. rewrite div_spec.
  change (SF64div (Prim2SF a) (Prim2SF b))
    with (SFdiv prec emax (Prim2SF a) (Prim2SF b)).
  destruct (Prim2SF b) as [sb|sb| |[|] mb eb]; cbn [nn sv] in *; try tauto; try lia.
  destruct (res_finite _ _ (SFdiv_res _ _ _ Fa Fb) ltac:(unfold divv, val in *; lia))
    as [Hn Hs].
  rewrite Hs. split; [split|]; [exact Hn | exact Hw | reflexivity].
Qed.

End ValueBounds.

Section Comparisons.

Lemma SFltb_true (x y : spec_float) :
  valid_binary x = true -> valid_binary y = true -> SFltb x y = true ->
  is_nan_sf x = false /\ is_nan_sf y = false /\ sv x < sv y.
Proof.
  intros Vx Vy. unfold SFltb.
  destruct (is_nan_sf x) eqn:Nx.
  { destruct x; discriminate. }
  destruct (is_nan_sf y) eqn:Ny.
  { destruct y; try discriminate. destruct x; discriminate. }
  rewrite SFcompare_sv by assumption.
  destruct (Z.compare_spec (sv x) (sv y)); try discriminate. auto.
Qed.

Lemma SFltb_false (x y : spec_float) :
  valid_binary x = true -> valid_binary y = true ->
  is_nan_sf x = false -> is_nan_sf y = false ->
  SFltb x y = false -> sv y <= sv x.
Proof.
  intros Vx Vy Nx Ny. unfold SFltb. rewrite SFcompare_sv by assumption.
  destruct (Z.compare_spec (sv x) (sv y)); try discriminate; lia.
Qed.

Lemma SFleb_true (x y : spec_float) :
  valid_binary x = true -> valid_binary y = true -> SFleb x y = true ->
  is_nan_sf x = false /\ is_nan_sf y = false /\ sv x <= sv y.
Proof.
  intros Vx Vy. unfold SFleb.
  destruct (is_nan_sf x) eqn:Nx.
  { destruct x; discriminate. }
  destruct (is_nan_sf y) eqn:Ny.
  { destruct y; try discriminate. destruct x; discriminate. }
  rewrite SFcompare_sv by assumption.
  destruct (Z.compare_spec (sv x) (sv y)); try discriminate; repeat split; lia.
Qed.

Lemma ltb_true_inv (a b : float) :
  (a <? b)%float = true -> notnan a /\ notnan b /\ val a < val b.
Proof.
  rewrite ltb_spec. apply SFltb_true; apply Prim2SF_valid.
Qed.

Lemma ltb_false_inv (a b : float) :
  notnan a -> notnan b -> (a <? b)%float = false -> val b <= val a.
Proof.
  rewrite ltb_spec. apply SFltb_false; apply Prim2SF_valid.
Qed.

Lemma leb_true_inv (a b : float) :
  (a <=? b)%float = true -> notnan a /\ notnan b /\ val a <= val b.
Proof.
  rewrite leb_spec. apply SFleb_true; apply Prim2SF_valid.
Qed.

Lemma nn_of_bounds (x : spec_float) :
  valid_binary x = true -> is_nan_sf x = false -> 0 < sv x < 2 ^ 2100 -> nn x.
Proof.
  intros Vx Nx Hb. destruct x as [s|s| |[|] m e]; cbn [nn sv] in *;
    try discriminate; try lia; try assumption.
  destruct s; lia.
Qed.

Lemma fin_of_bounds (a : float) :
  notnan a -> 0 < val a < 2 ^ 2100 -> fin a.
Proof. intros Na Hb. apply nn_of_bounds; [apply Prim2SF_valid|exact Na|exact Hb]. Qed.

Lemma fin_notnan (a : float) : fin a -> notnan a.
Proof.
  unfold fin, notnan. destruct (Prim2SF a) as [s|s| |[|] m e]; cbn; tauto.
Qed.

End Comparisons.

Section Literals.

Ltac lit_fb := split; [unfold fin; vm_compute; reflexivity
                      | apply Z.leb_le; vm_compute; reflexivity].

Lemma lit_0 : fb (flit 0) 0.
Proof. lit_fb. Qed.
Lemma lit_035 : fb (flit 0.35) 0.
Proof. lit_fb. Qed.
Lemma lit_030 : fb (flit 0.30) 0.
Proof. lit_fb. Qed.
Lemma lit_015 : fb (flit 0.15) 0.
Proof. lit_fb. Qed.
Lemma lit_010 : fb (flit 0.10) 0.
Proof. lit_fb. Qed.
Lemma lit_10 : fb (flit 10) 7.
Proof. lit_fb. Qed.
Lemma lit_100 : fb (flit 100) 7.
Proof. lit_fb. Qed.
Lemma lit_300 : fb (flit 300) 15.
Proof. lit_fb. Qed.
Lemma lit_550 : fb (flit 550) 10.
Proof. lit_fb. Qed.

Lemma val_0 : val (flit 0) = 0.
Proof. vm_compute. reflexivity. Qed.
Lemma val_100 : val (flit 100) = V100.
Proof. vm_compute. reflexivity. Qed.
Lemma V100_le : V100 <= 2 ^ (1074 + 7).
Proof. apply Z.leb_le. vm_compute. reflexivity. Qed.
Lemma V100_ge : 2 ^ (1074 + 6) <= V100.
Proof. apply Z.leb_le. vm_compute. reflexivity. Qed.
Lemma V100_lt : V100 < 2 ^ 2100.
Proof. apply Z.ltb_lt. vm_compute. reflexivity. Qed.
Lemma V100_pos : 0 < V100.
Proof. apply Z.ltb_lt. vm_compute. reflexivity. Qed.
Lemma ltb_0_100 : fltb (F:=float) (flit 0) (flit 100) = true.
Proof. vm_compute. reflexivity. Qed.
Lemma eqb_100_0 : feqb (F:=float) (flit 100) (flit 0) = false.
Proof. vm_compute. reflexivity. Qed.

End Literals.

Section Clamps.

Lemma clamp_spec (x : float) :
  fb (clamp x) 7 /\ val (clamp x) <= V100
  /\ (notnan x -> val (clamp x) = Z.max 0 (Z.min V100 (val x))).
Proof.
  pose proof V100_le. pose proof V100_lt. pose proof V100_pos.
  unfold clamp, py_min, py_max.
  destruct (fltb x (flit 100)) eqn:E1.
  - apply ltb_true_inv in E1 as (N1 & _ & L1). rewrite val_100 in L1.
    destruct (fltb (flit 0) x) eqn:E2.
    + apply ltb_true_inv in E2 as (_ & _ & L2). rewrite val_0 in L2.
      split; [split|split]; try lia.
      apply (fin_of_bounds x N1). lia.
    + apply ltb_false_inv in E2; [|apply fin_notnan, lit_0|assumption].
      rewrite val_0 in *.
      split; [apply (fb_weaken _ 0); [apply lit_0|lia|lia]|].
      split; lia.
  - rewrite ltb_0_100. split; [apply lit_100|]. rewrite val_100.
    split; [lia|]. intros Nx.
    apply ltb_false_inv in E1; [|assumption|apply fin_notnan, lit_100].
    rewrite val_100 in E1. lia.
Qed.

Lemma clamp_mono (x x' : float) :
  fleb x x' = true -> val (clamp x) <= val (clamp x').
Proof.
  intros Hle. apply leb_true_inv in Hle as (N & N' & L).
  destruct (clamp_spec x) as (_ & _ & E). destruct (clamp_spec x') as (_ & _ & E').
  rewrite E, E' by assumption. lia.
Qed.

(** [max(0, t)] of a non-negative [t] has the value of [t]. *)
Lemma py_max_0_fb (t : float) (j : Z) :
  fb t j -> fb (py_max (flit 0) t) j /\ val (py_max (flit 0) t) = val t.
Proof.
  intros [Ft Vt]. pose proof (fin_val_nonneg t Ft) as Nt.
  unfold py_max. destruct (fltb (flit 0) t) eqn:E.
  - split; [split|]; auto.
  - apply ltb_false_inv in E; [|apply fin_notnan, lit_0|apply fin_notnan, Ft].
    rewrite val_0 in E.
    split; [split; [apply lit_0|rewrite val_0; lia]|rewrite val_0; lia].
Qed.

(** A positive double is finite or the positive infinity. *)
Lemma positive_cases (a : float) :
  notnan a -> 0 < val a -> fin a \/ Prim2SF a = S754_infinity false.
Proof.
  unfold notnan, val, fin. pose proof (Prim2SF_valid a) as V.
  destruct (Prim2SF a) as [s|[|]| |[|] m e]; cbn [nn sv is_nan_sf] in *;
    intros N P; try discriminate; try lia; auto.
Qed.

Lemma fmul_cases (a b : float) :
  fin a -> fin b ->
  fin (a * b)%float \/ Prim2SF (a * b)%float = S754_infinity false.
Proof.
  intros Fa Fb. unfold fin. rewrite mul_spec.
  pose proof (SFmul_res _ _ Fa Fb) as R. unfold res in R.
  change (SF64mul (Prim2SF a) (Prim2SF b))
    with (SFmul prec emax (Prim2SF a) (Prim2SF b)).
  destruct (_ <? _); [left; apply R|right; exact R].
Qed.

Lemma s_age_fb (age : float) : fb (s_age age) 7 /\ val (s_age age) <= V100.
Proof.
  pose proof V100_le. pose proof V100_lt.
  unfold s_age, py_max.
  destruct (fltb (flit 0) age) eqn:E.
  - apply ltb_true_inv in E as (_ & Na & Pa). rewrite val_0 in Pa.
    unfold py_min. destruct (fltb (fmul age (flit 10)) (flit 100)) eqn:E2;
      [|split; [apply lit_100|rewrite val_100; lia]].
    apply ltb_true_inv in E2 as (_ & _ & L). rewrite val_100 in L.
    assert (Ht : fin (fmul age (flit 10))
                 \/ Prim2SF (fmul age (flit 10)) = S754_infinity false).
    { destruct (positive_cases age Na Pa) as [Fa|Ia].
      - apply fmul_cases; [exact Fa|apply lit_10].
      - right. cbn [fmul binary64]. rewrite mul_spec, Ia.
        vm_compute. reflexivity. }
    destruct Ht as [Ft|It].
    + split; [split; [exact Ft|lia]|lia].
    + exfalso. unfold val in L. rewrite It in L. cbn [sv] in L. lia.
  - split; [split; [unfold fin; vm_compute; reflexivity
                   | apply Z.leb_le; vm_compute; reflexivity]
           | apply Z.leb_le; vm_compute; reflexivity].
Qed.

End Clamps.

Section ScoreOnDoubles.

Lemma nn_valid (x : spec_float) : nn x -> valid_binary x = true.
Proof. destruct x as [s|s| |[|] m e]; cbn [nn]; try tauto; reflexivity. Qed.

Lemma fin_is_finite (a : float) : fin a -> is_finite a = true.
Proof.
  intros Fa. destruct (is_finite a) eqn:E; [reflexivity|exfalso].
  unfold fin in Fa.
  destruct (is_finite_false_spec a E) as [N|[s I]]; rewrite ?N, ?I in Fa;
    exact Fa.
Qed.

(** An integer below [2^53] converts exactly. *)
Lemma of_int_small (z : Z) :
  0 <= z < 2 ^ 53 ->
  exists f, of_int (F:=float) z = Ok f /\ fin f /\ val f = z * 2 ^ 1074.
Proof.
  intros Hz. cbn [of_int binary64]. unfold Binary64.of_int.
  set (sf := binary_normalize prec emax z 0 false).
  assert (Hsf : nn sf /\ sv sf = z * 2 ^ 1074).
  { unfold sf. destruct z as [|p|p]; try lia.
    - split; [exact I|reflexivity].
    - cbn [binary_normalize].
      pose proof (binary_round_res p 0 ltac:(lia)) as R.
      change (0 + 1074) with 1074 in R. rewrite RNs_int in R by lia.
      apply res_finite in R; [exact R|].
      assert (E : 2 ^ 2098 = 2 ^ 53 * 2 ^ 2045)
        by (rewrite <- Z.pow_add_r by lia; reflexivity).
      assert (2 ^ 1074 <= 2 ^ 2045) by (apply Z.pow_le_mono_r; lia).
      assert (0 < 2 ^ 1074) by (apply Z.pow_pos_nonneg; lia).
      rewrite E. apply Z.mul_lt_mono_nonneg; lia. }
  destruct Hsf as [Hn Hv].
  assert (HP : Prim2SF (SF2Prim sf) = sf) by (apply Prim2SF_SF2Prim, nn_valid, Hn).
  assert (Hf : fin (SF2Prim sf)) by (unfold fin; rewrite HP; exact Hn).
  rewrite (fin_is_finite _ Hf).
  eexists. split; [reflexivity|]. split; [exact Hf|].
  unfold val. rewrite HP. exact Hv.
Qed.

(** [round(x)] of a non-negative finite double rounds its value to an
    integer. *)
Lemma round_int_val (x : float) :
  fin x -> round_int x = Ok (round_half_even (val x) (2 ^ 1074)).
Proof.
  unfold fin, val. cbn [round_int binary64]. unfold Binary64.round_int.
  assert (Hp : 0 < 2 ^ 1074) by (apply Z.pow_pos_nonneg; lia).
  destruct (Prim2SF x) as [s|s| |[|] m e]; cbn [nn sv]; try contradiction;
    intros Hv.
  - reflexivity.
  - pose proof (valid_finite_inv _ _ _ Hv) as (_ & He & _).
    f_equal. cbn [Binary64.signed].
    destruct (Z.leb_spec 0 e) as [Hle|Hlt].
    + rewrite Z.pow_add_r, Z.mul_assoc by lia.
      symmetry. apply round_half_even_exact. exact Hp.
    + assert (Hc : 0 < 2 ^ (e + 1074)) by (apply Z.pow_pos_nonneg; lia).
      assert (Hd : 0 < 2 ^ (- e)) by (apply Z.pow_pos_nonneg; lia).
      rewrite <- (round_half_even_scale (Zpos m) (2 ^ (- e)) (2 ^ (e + 1074)))
        by assumption.
      f_equal. rewrite <- Z.pow_add_r by lia. f_equal. lia.
Qed.

Lemma s_inq_range (inq : Z) : 0 <= s_inq inq <= 100.
Proof. unfold s_inq. lia. Qed.

Lemma s_inq_mono (inq inq' : Z) : inq <= inq' -> s_inq inq' <= s_inq inq.
Proof. unfold s_inq. lia. Qed.

(** The score computed on doubles is [score_v] of the values of the
    sub-scores. *)
Lemma estimate_credit_score_value (ph ut age : float) (inq : Z) (dti : float) :
  estimate_credit_score (F:=float) ph ut age inq dti
  = Ok (score_v (val (clamp ph))
                (subv V100 (val (clamp ut)))
                (val (s_age age))
                (s_inq inq * 2 ^ 1074)
                (subv V100 (val (clamp dti)))).
Proof.
  unfold estimate_credit_score. cbv zeta.
  fold (clamp ph) (clamp ut) (clamp dti) (s_age age) (s_inq inq).
  destruct (of_int_small (s_inq inq)) as (fi & Ei & Fi & Vi).
  { pose proof (s_inq_range inq). lia. }
  rewrite Ei. cbn [bind].
  destruct (clamp_spec ph) as (Bp & Lp & _).
  destruct (clamp_spec ut) as (Bu & Lu & _).
  destruct (clamp_spec dti) as (Bd & Ld & _).
  pose proof (proj1 (s_age_fb age)) as Ba.
  assert (Bi : fb fi 7).
  { split; [exact Fi|]. rewrite Vi. pose proof (s_inq_range inq).
    pose proof V100_le. unfold V100 in *.
    assert (0 < 2 ^ 1074) by (apply Z.pow_pos_nonneg; lia). nia. }
  (* the sub-scores of utilization and debt-to-income *)
  destruct (fsub_fb (flit 100) (clamp ut) 7 lit_100 (proj1 Bu)
              ltac:(rewrite val_100; exact Lu) ltac:(lia)) as [Bsu Esu].
  destruct (py_max_0_fb _ _ Bsu) as [Bsu' Esu'].
  destruct (fsub_fb (flit 100) (clamp dti) 7 lit_100 (proj1 Bd)
              ltac:(rewrite val_100; exact Ld) ltac:(lia)) as [Bsd Esd].
  destruct (py_max_0_fb _ _ Bsd) as [Bsd' Esd'].
  rewrite val_100 in Esu, Esd.
  change (fsub (flit 100) (clamp ut)) with (flit 100 - clamp ut)%float in *.
  change (fsub (flit 100) (clamp dti)) with (flit 100 - clamp dti)%float in *.
  set (su := py_max (flit 0) (flit 100 - clamp ut)%float) in *.
  set (sd := py_max (flit 0) (flit 100 - clamp dti)%float) in *.
  (* the weighted sum *)
  destruct (fmul_fb _ _ 0 7 lit_035 Bp ltac:(lia) ltac:(lia) ltac:(lia)) as [B1 E1].
  destruct (fmul_fb _ _ 0 7 lit_030 Bsu' ltac:(lia) ltac:(lia) ltac:(lia)) as [B2 E2].
  destruct (fmul_fb _ _ 0 7 lit_015 Ba ltac:(lia) ltac:(lia) ltac:(lia)) as [B3 E3].
  destruct (fmul_fb _ _ 0 7 lit_010 Bi ltac:(lia) ltac:(lia) ltac:(lia)) as [B4 E4].
  destruct (fmul_fb _ _ 0 7 lit_010 Bsd' ltac:(lia) ltac:(lia) ltac:(lia)) as [B5 E5].
  destruct (fadd_fb _ _ 7 B1 B2 ltac:(lia)) as [C1 D1].
  destruct (fadd_fb _ _ 8 C1 (fb_weaken _ _ 8 B3 ltac:(lia) ltac:(lia)) ltac:(lia))
    as [C2 D2].
  destruct (fadd_fb _ _ 9 C2 (fb_weaken _ _ 9 B4 ltac:(lia) ltac:(lia)) ltac:(lia))
    as [C3 D3].
  destruct (fadd_fb _ _ 10 C3 (fb_weaken _ _ 10 B5 ltac:(lia) ltac:(lia)) ltac:(lia))
    as [C4 D4].
  (* the map to 300..850 *)
  unfold py_div. rewrite eqb_100_0. cbn [bind].
  destruct (fdiv_fb _ (flit 100) (10 + 1) 6 C4 (proj1 lit_100)
              ltac:(rewrite val_100; exact V100_ge) ltac:(lia) ltac:(lia))
    as [C5 D5].
  destruct (fmul_fb _ _ _ 10 C5 lit_550 ltac:(lia) ltac:(lia) ltac:(lia)) as [C6 D6].
  destruct (fadd_fb _ _ 15 lit_300 C6 ltac:(lia)) as [C7 D7].
  cbn [fadd fmul fdiv fsub binary64].
  rewrite (round_int_val _ (proj1 C7)).
  f_equal. unfold score_v.
  rewrite D7, D6, D5, D4, D3, D2, D1, E1, E2, E3, E4, E5, Esu', Esd', Esu, Esd, Vi.
  reflexivity.
Qed.

End ScoreOnDoubles.

Section ScoreMonotone.

Ltac vmono :=
  lazymatch goal with
  | |- _ <= _ <= _ => split; vmono
  | |- 0 <= val (flit _) => apply Z.leb_le; vm_compute; reflexivity
  | |- 0 < val (flit _) => apply Z.ltb_lt; vm_compute; reflexivity
  | |- 0 <= mulv _ _ => apply mulv_nonneg; vmono
  | |- 0 <= addv _ _ => apply addv_nonneg; vmono
  | |- 0 <= divv _ _ => apply divv_nonneg; vmono
  | |- mulv _ _ <= mulv _ _ => apply mulv_mono; vmono
  | |- addv _ _ <= addv _ _ => apply addv_mono; vmono
  | |- divv _ _ <= divv _ _ => apply divv_mono; vmono
  | |- _ => lia
  end.

Lemma score_v_mono (sp sp' su su' sa sa' si si' sd sd' : Z) :
  0 <= sp <= sp' -> 0 <= su <= su' -> 0 <= sa <= sa' -> 0 <= si <= si' ->
  0 <= sd <= sd' ->
  score_v sp su sa si sd <= score_v sp' su' sa' si' sd'.
Proof.
  intros Hp Hu Ha Hi Hd. unfold score_v. cbv zeta.
  assert (H2 : 0 < 2 ^ 1074) by (apply Z.pow_pos_nonneg; lia).
  apply round_half_even_mono; try assumption.
  apply Z.mul_le_mono_nonneg_r; [lia|].
  vmono.
Qed.

Lemma score_v_lowest : score_v 0 0 0 0 0 = 300.
Proof. vm_compute. reflexivity. Qed.

Lemma score_v_highest : score_v V100 V100 V100 V100 V100 = 850.
Proof. vm_compute. reflexivity. Qed.

Lemma score_v_range (sp su sa si sd : Z) :
  0 <= sp <= V100 -> 0 <= su <= V100 -> 0 <= sa <= V100 -> 0 <= si <= V100 ->
  0 <= sd <= V100 ->
  300 <= score_v sp su sa si sd <= 850.
Proof.
  intros Hp Hu Ha Hi Hd. split.
  - rewrite <- score_v_lowest. apply score_v_mono; lia.
  - rewrite <- score_v_highest. apply score_v_mono; lia.
Qed.

Lemma subv_V100_0 : subv V100 0 = V100.
Proof. vm_compute. reflexivity. Qed.

Lemma clamp_range (x : float) : 0 <= val (clamp x) <= V100.
Proof.
  destruct (clamp_spec x) as ([F _] & L & _).
  split; [apply fin_val_nonneg, F|exact L].
Qed.

Lemma inverse_range (v : Z) : 0 <= v <= V100 -> 0 <= subv V100 v <= V100.
Proof.
  intros Hv. split; [apply subv_nonneg; lia|].
  rewrite <- subv_V100_0 at 2. apply subv_mono. lia.
Qed.

Lemma s_age_range (age : float) : 0 <= val (s_age age) <= V100.
Proof.
  destruct (s_age_fb age) as ([F _] & L).
  split; [apply fin_val_nonneg, F|exact L].
Qed.

Lemma s_inq_value_range (inq : Z) : 0 <= s_inq inq * 2 ^ 1074 <= V100.
Proof.
  pose proof (s_inq_range inq). unfold V100.
  assert (0 < 2 ^ 1074) by (apply Z.pow_pos_nonneg; lia). nia.
Qed.

(** C5: on IEEE doubles, for all inputs (nan and the infinities included),
    [estimate_credit_score] returns a score in [300, 850]; the score does
    not decrease when [payment_history_pct] grows, and does not increase
    when [utilization_pct], [inquiries] or [dti_pct] grows, the other
    inputs being fixed. *)
Theorem estimate_credit_score_monotone_bounded
    (ph ut age : float) (inq : Z) (dti : float) :
  exists s,
    estimate_credit_score (F:=float) ph ut age inq dti = Ok s /\
    300 <= s <= 850 /\
    (forall ph', fleb ph ph' = true ->
       exists s', estimate_credit_score (F:=float) ph' ut age inq dti = Ok s'
                  /\ s <= s') /\
    (forall ut', fleb ut ut' = true ->
       exists s', estimate_credit_score (F:=float) ph ut' age inq dti = Ok s'
                  /\ s' <= s) /\
    (forall inq', inq <= inq' ->
       exists s', estimate_credit_score (F:=float) ph ut age inq' dti = Ok s'
                  /\ s' <= s) /\
    (forall dti', fleb dti dti' = true ->
       exists s', estimate_credit_score (F:=float) ph ut age inq dti' = Ok s'
                  /\ s' <= s).
Proof.
  pose proof (clamp_range ph) as Rp. pose proof (clamp_range ut) as Ru.
  pose proof (clamp_range dti) as Rd. pose proof (s_age_range age) as Ra.
  pose proof (s_inq_value_range inq) as Ri.
  pose proof (inverse_range _ Ru) as Ru'. pose proof (inverse_range _ Rd) as Rd'.
  eexists. split; [apply estimate_credit_score_value|].
  split; [apply score_v_range; assumption|].
  repeat split; intros v Hv; eexists;
    (split; [apply estimate_credit_score_value|]); apply score_v_mono;
    try lia.
  - pose proof (clamp_mono _ _ Hv). lia.
  - pose proof (clamp_mono _ _ Hv). pose proof (clamp_range v).
    split; [apply subv_nonneg; lia|apply subv_mono; lia].
  - pose proof (s_inq_mono _ _ Hv). pose proof (s_inq_range v).
    assert (0 < 2 ^ 1074) by (apply Z.pow_pos_nonneg; lia). nia.
  - pose proof (clamp_mono _ _ Hv). pose proof (clamp_range v).
    split; [apply subv_nonneg; lia|apply subv_mono; lia].
Qed.

End ScoreMonotone.

(* ================================================================== *)
(** ** Rounding to 2 decimals on doubles, and the fields of [gst_breakup] *)

Section DecimalRoundTrip.

(** [round_half_even n d] is the only integer within a half of [n / d]
    that is even in the case of a tie. *)
Lemma round_half_even_char (n d c : Z) :
  0 < d ->
  2 * c * d - d <= 2 * n <= 2 * c * d + d ->
  (2 * n = 2 * c * d + d -> Z.even c = true) ->
  (2 * n = 2 * c * d - d -> Z.even c = true) ->
  round_half_even n d = c.
Proof.
  intros Hd [Hlo Hhi] Eup Edn.
  destruct (round_half_even_spec n d Hd) as ([Rlo Rhi] & Rup & Rdn).
  set (r := round_half_even n d) in *. clearbody r.
  assert (Hr : c - 1 <= r <= c + 1) by nia.
  destruct (Z.eq_dec r c) as [|Hne]; [assumption|exfalso].
  destruct (Z.eq_dec r (c + 1)) as [E|E'].
  - subst r. assert (T : 2 * n = 2 * c * d + d) by nia.
    specialize (Eup T). assert (T' : 2 * n = 2 * (c + 1) * d - d) by nia.
    specialize (Rdn T'). rewrite Z.even_add in Rdn. rewrite Eup in Rdn.
    discriminate.
  - assert (E : r = c - 1) by lia. subst r.
    assert (T : 2 * n = 2 * c * d - d) by nia.
    specialize (Edn T). assert (T' : 2 * n = 2 * (c - 1) * d + d) by nia.
    specialize (Rup T'). rewrite Z.even_sub in Rup. rewrite Edn in Rup.
    discriminate.
Qed.

Lemma round_half_even_near (n d c : Z) :
  0 < d -> 2 * c * d - d < 2 * n < 2 * c * d + d -> round_half_even n d = c.
Proof. intros Hd Hb. apply round_half_even_char; lia. Qed.

Lemma round_half_even_opp (n d : Z) :
  0 < d -> round_half_even (- n) d = - round_half_even n d.
Proof.
  intros Hd. destruct (round_half_even_spec n d Hd) as ([Rlo Rhi] & Rup & Rdn).
  apply round_half_even_char; try lia.
  - intros T. rewrite Z.even_opp. apply Rdn. lia.
  - intros T. rewrite Z.even_opp. apply Rup. lia.
Qed.

(** Reading back a double that was rounded from a multiple of [1/100]
    gives the same multiple, or one that rounds to the same double. *)
Lemma RNs_decimal_round_trip (k : Z) :
  1 <= k ->
  RNs (round_half_even (100 * RNs (k * 2 ^ 1074) 100) (2 ^ 1074) * 2 ^ 1074) 100
  = RNs (k * 2 ^ 1074) 100.
Proof.
  intros Hk.
  assert (HP : 2 ^ 1074 = 64 * 2 ^ 1068) by reflexivity.
  assert (HP0 : 0 < 2 ^ 1068) by (apply Z.pow_pos_nonneg; lia).
  set (P := 2 ^ 1074) in *.
  unfold RNs at 2 3.
  set (q := k * P / 100).
  assert (Hq0 : 0 <= q) by (apply Z.div_pos; nia).
  set (K := Z.max 0 (Zdigits2 q - 53)).
  assert (HK0 : 0 <= K) by (unfold K; lia).
  assert (HU : 0 < 2 ^ K) by (apply Z.pow_pos_nonneg; lia).
  destruct (round_half_even_spec (k * P) (100 * 2 ^ K) ltac:(lia))
    as ([S1lo S1hi] & _ & _).
  set (R := round_half_even (k * P) (100 * 2 ^ K)) in *.
  destruct (Z_le_gt_dec K 1067) as [Hsmall|Hbig].
  - (* the doubles are closer than 0.01 to each other *)
    assert (HUle : 2 ^ K <= 2 ^ 1067) by (apply Z.pow_le_mono_r; lia).
    assert (H67 : 2 ^ 1068 = 2 * 2 ^ 1067) by reflexivity.
    assert (Hk' : round_half_even (100 * (R * 2 ^ K)) P = k).
    { apply round_half_even_near; [lia|]. nia. }
    rewrite Hk'. unfold RNs. fold q. fold K. fold R. reflexivity.
  - (* the doubles are farther than 0.01 from each other *)
    assert (HUge : 2 ^ 1068 <= 2 ^ K) by (apply Z.pow_le_mono_r; lia).
    assert (Hdq : Zdigits2 q = 53 + K) by (unfold K in *; lia).
    assert (Hqpos : 0 < q).
    { destruct (Z.eq_dec q 0) as [E|]; [|lia]. rewrite E in Hdq. simpl in Hdq. lia. }
    pose proof (Zdigits2_bounds q Hqpos) as [Qlo Qhi]. rewrite Hdq in Qlo, Qhi.
    replace (53 + K - 1) with (52 + K) in Qlo by lia.
    rewrite (Z.pow_add_r 2 52 K) in Qlo by lia.
    rewrite (Z.pow_add_r 2 53 K) in Qhi by lia.
    pose proof (Z.mul_div_le (k * P) 100 ltac:(lia)) as Dlo. fold q in Dlo.
    assert (Dhi : k * P < 100 * (q + 1)).
    { pose proof (Z.mod_pos_bound (k * P) 100 ltac:(lia)).
      pose proof (Z.div_mod (k * P) 100 ltac:(lia)). fold q in H0. lia. }
    assert (HR : 2 ^ 52 <= R <= 2 ^ 53).
    { split.
      - apply round_half_even_ge_int; [lia|]. nia.
      - apply round_half_even_le_int; [lia|]. nia. }
    set (W := R * 2 ^ K) in *.
    destruct (round_half_even_spec (100 * W) P ltac:(lia)) as ([S2lo S2hi] & _ & _).
    set (k' := round_half_even (100 * W) P) in *.
    (* powers of two in this range are multiples of 0.01 *)
    assert (HKs : 2 ^ K = 2 ^ (K - 1068) * 2 ^ 1068).
    { rewrite <- Z.pow_add_r by lia. f_equal. lia. }
    assert (Hs0 : 0 < 2 ^ (K - 1068)) by (apply Z.pow_pos_nonneg; lia).
    set (t := 2 ^ (K - 1068)) in *.
    assert (E52 : 2 ^ 52 = 64 * 2 ^ 46) by reflexivity.
    assert (E53 : 2 ^ 53 = 64 * 2 ^ 47) by reflexivity.
    assert (H46 : 0 < 2 ^ 46) by reflexivity.
    assert (H47 : 2 ^ 47 = 2 * 2 ^ 46) by reflexivity.
    assert (Hlow : 100 * 2 ^ 46 * t <= k').
    { unfold k'. apply round_half_even_ge_int; [lia|].
      unfold W. rewrite HKs, HP.
      assert (2 ^ 52 * (t * 2 ^ 1068) <= R * (t * 2 ^ 1068)).
      { apply Z.mul_le_mono_nonneg_r; nia. }
      rewrite E52 in H. nia. }
    destruct (Z.eq_dec R (2 ^ 53)) as [ER|NR].
    + (* carry: the double is a power of two *)
      assert (Hk' : k' = 100 * 2 ^ 47 * t).
      { unfold k'. unfold W. rewrite ER, HKs, HP, E53.
        replace (100 * (64 * 2 ^ 47 * (t * 2 ^ 1068)))
          with (100 * 2 ^ 47 * t * (64 * 2 ^ 1068)) by ring.
        apply round_half_even_exact. lia. }
      rewrite Hk'. unfold W. rewrite ER.
      rewrite <- (Z.pow_add_r 2 53 K) by lia.
      transitivity (RNs (2 ^ (53 + K)) 1); [|apply RNs_pow2; lia].
      apply RNs_ext; try lia.
      rewrite (Z.pow_add_r 2 53 K), HKs, HP, E53 by lia. ring.
    + (* no carry: the same binade *)
      assert (HRlt : R < 2 ^ 53) by lia.
      assert (HWle : W + 2 ^ K <= 2 ^ 53 * 2 ^ K) by (unfold W; nia).
      set (q' := k' * P / 100).
      assert (Hq'lo : 2 ^ 52 * 2 ^ K <= q').
      { unfold q'. apply Z.div_le_lower_bound; [lia|].
        rewrite HKs, HP, E52.
        replace (100 * (64 * 2 ^ 46 * (t * 2 ^ 1068)))
          with (100 * 2 ^ 46 * t * (64 * 2 ^ 1068)) by ring.
        apply Z.mul_le_mono_nonneg_r; lia. }
      assert (Hq'hi : q' < 2 ^ 53 * 2 ^ K).
      { unfold q'. apply Z.div_lt_upper_bound; [lia|].
        assert (2 * (k' * P) <= 200 * W + P) by lia.
        assert (P < 200 * 2 ^ K) by (rewrite HKs, HP; nia).
        nia. }
      assert (Hdq' : Zdigits2 q' = 53 + K).
      { apply Zdigits2_unique.
        - replace (53 + K - 1) with (52 + K) by lia.
          rewrite (Z.pow_add_r 2 52 K), (Z.pow_add_r 2 53 K) by lia. lia.
        - nia. }
      unfold RNs. fold q'. rewrite Hdq'.
      replace (Z.max 0 (53 + K - 53)) with K by lia.
      f_equal. apply round_half_even_near; [lia|].
      assert (P < 100 * 2 ^ K) by (rewrite HKs, HP; nia).
      fold W. lia.
Qed.

End DecimalRoundTrip.

Section Signs.

Lemma binary_round_aux_opp (s : bool) (m e : Z) (l : location) :
  binary_round_aux prec emax (negb s) m e l
  = SFopp (binary_round_aux prec emax s m e l).
Proof.
  unfold binary_round_aux.
  destruct (shr_fexp prec emax m e l) as [mrs' e'].
  destruct (shr_fexp prec emax _ e' loc_Exact) as [mrs'' e''].
  destruct (shr_m mrs''); [reflexivity| |reflexivity].
  destruct (e'' <=? emax - prec); reflexivity.
Qed.

Lemma sv_opp (x : spec_float) : sv (SFopp x) = - sv x.
Proof.
  destruct x as [s|s| |s m e]; cbn [SFopp sv]; try reflexivity.
  - destruct s; cbn [negb]; lia.
  - destruct s; cbn [negb]; lia.
Qed.

Lemma valid_binary_opp (x : spec_float) :
  valid_binary (SFopp x) = valid_binary x.
Proof. destruct x; reflexivity. Qed.

Lemma is_nan_sf_opp (x : spec_float) : is_nan_sf (SFopp x) = is_nan_sf x.
Proof. destruct x; reflexivity. Qed.

Lemma SFopp_involutive (x : spec_float) : SFopp (SFopp x) = x.
Proof. destruct x as [s|s| |s m e]; cbn [SFopp]; rewrite ?negb_involutive; reflexivity. Qed.

Lemma SFdiv_opp_l (x y : spec_float) :
  SFdiv prec emax (SFopp x) y = SFopp (SFdiv prec emax x y).
Proof.
  destruct x as [sx|sx| |sx mx ex], y as [sy|sy| |sy my ey];
    cbn [SFopp SFdiv]; try reflexivity;
    try (destruct sx, sy; reflexivity).
  destruct (SFdiv_core_binary prec emax (Zpos mx) ex (Zpos my) ey) as [[mz ez] lz].
  rewrite <- binary_round_aux_opp. destruct sx, sy; reflexivity.
Qed.

End Signs.

Section NeverNan.

Lemma shr_m_nonneg (r : shr_record) (e n : Z) :
  0 <= shr_m r -> 0 <= shr_m (fst (shr r e n)).
Proof.
  intros Hr. destruct n as [|p|p]; cbn [shr fst]; try assumption.
  rewrite iter_shr_1_m by assumption.
  apply Z.div_pos; [assumption|]. apply Z.pow_pos_nonneg; lia.
Qed.

Lemma shr_fexp_nonneg (m e : Z) (l : location) :
  0 <= m -> 0 <= shr_m (fst (shr_fexp prec emax m e l)).
Proof.
  intros Hm. unfold shr_fexp. apply shr_m_nonneg.
  rewrite shr_m_shr_record_of_loc. exact Hm.
Qed.

(** Rounding a non-negative mantissa gives a zero, a finite float or an
    infinity. *)
Lemma binary_round_aux_not_nan (s : bool) (m e : Z) (l : location) :
  0 <= m -> is_nan_sf (binary_round_aux prec emax s m e l) = false.
Proof.
  intros Hm. unfold binary_round_aux.
  pose proof (shr_fexp_nonneg m e l Hm) as H1.
  destruct (shr_fexp prec emax m e l) as [mrs' e']. cbn [fst] in H1.
  pose proof (round_nearest_even_bounds (shr_m mrs') (loc_of_shr_record mrs'))
    as [H2 _].
  pose proof (shr_fexp_nonneg
                (round_nearest_even (shr_m mrs') (loc_of_shr_record mrs'))
                e' loc_Exact ltac:(lia)) as H3.
  destruct (shr_fexp prec emax _ e' loc_Exact) as [mrs'' e'']. cbn [fst] in H3.
  destruct (shr_m mrs''); try lia; [reflexivity|].
  destruct (e'' <=? emax - prec); reflexivity.
Qed.

End NeverNan.

Section IntegerQuotients.

(** The double nearest to a quotient of positive integers. *)
Lemma SFdiv_integers_res (k p : positive) :
  res (SFdiv prec emax (S754_finite false k 0) (S754_finite false p 0))
      (RNs (Zpos k * 2 ^ 1074) (Zpos p)).
Proof.
  pose proof (SFdiv_finite_res k p 0 0 ltac:(lia) ltac:(lia)) as R.
  change (0 + 1074) with 1074 in R.
  assert (0 < 2 ^ 1074) by (apply Z.pow_pos_nonneg; lia).
  replace (RNs (Zpos k * 2 ^ 1074) (Zpos p))
    with (RNs (Zpos k * 2 ^ 1074 * 2 ^ 1074) (Zpos p * 2 ^ 1074)); [exact R|].
  apply RNs_ext; nia.
Qed.

End IntegerQuotients.

Section DecimalRounding.

Lemma round_nd_Prim2SF (x : float) (nd : N) :
  valid_binary (round_nd_sf nd (Prim2SF x)) = true ->
  Prim2SF (Binary64.round_nd x nd) = round_nd_sf nd (Prim2SF x).
Proof.
  unfold Binary64.round_nd, round_nd_sf.
  destruct (Prim2SF x) as [s|s| |s m e] eqn:E; try (intros _; exact E).
  cbv zeta.
  destruct (_ =? 0).
  - intros _. destruct s; reflexivity.
  - intros Hv. unfold Binary64.of_ratio. apply Prim2SF_SF2Prim. exact Hv.
Qed.

Lemma round_nd_sf_opp (nd : N) (x : spec_float) :
  round_nd_sf nd (SFopp x) = SFopp (round_nd_sf nd x).
Proof.
  destruct x as [s|s| |s m e]; try reflexivity.
  cbn [SFopp round_nd_sf]. cbv zeta.
  set (p := 10 ^ Z.of_N nd).
  assert (Hs : Binary64.signed (negb s) m = - Binary64.signed s m)
    by (destruct s; reflexivity).
  rewrite Hs.
  set (k := if 0 <=? e then Binary64.signed s m * p * 2 ^ e
            else round_half_even (Binary64.signed s m * p) (2 ^ (- e))).
  assert (Hk : (if 0 <=? e then - Binary64.signed s m * p * 2 ^ e
                else round_half_even (- Binary64.signed s m * p) (2 ^ (- e)))
               = - k).
  { unfold k. destruct (Z.leb_spec 0 e) as [Hle|Hlt]; [ring|].
    rewrite Z.mul_opp_l. apply round_half_even_opp.
    apply Z.pow_pos_nonneg; lia. }
  rewrite Hk.
  destruct (Z.eqb_spec k 0) as [E0|N0].
  - rewrite E0. reflexivity.
  - replace (- k =? 0) with false by (symmetry; apply Z.eqb_neq; lia).
    rewrite <- SFdiv_opp_l. f_equal.
    destruct k; try contradiction; reflexivity.
Qed.

(** The integer that [round(x, 2)] reads back, from the value of [x]. *)
Lemma hundredths_val (m : positive) (e : Z) :
  -1074 <= e ->
  (if 0 <=? e then Zpos m * 100 * 2 ^ e
   else round_half_even (Zpos m * 100) (2 ^ (- e)))
  = round_half_even (100 * (Zpos m * 2 ^ (e + 1074))) (2 ^ 1074).
Proof.
  intros He. assert (Hp : 0 < 2 ^ 1074) by (apply Z.pow_pos_nonneg; lia).
  destruct (Z.leb_spec 0 e) as [Hle|Hlt].
  - rewrite Z.pow_add_r by lia.
    replace (100 * (Zpos m * (2 ^ e * 2 ^ 1074)))
      with (Zpos m * 100 * 2 ^ e * 2 ^ 1074) by ring.
    symmetry. apply round_half_even_exact. exact Hp.
  - assert (Hc : 0 < 2 ^ (e + 1074)) by (apply Z.pow_pos_nonneg; lia).
    assert (Hd : 0 < 2 ^ (- e)) by (apply Z.pow_pos_nonneg; lia).
    rewrite <- (round_half_even_scale (Zpos m * 100) (2 ^ (- e)) (2 ^ (e + 1074)))
      by assumption.
    f_equal; [ring|]. rewrite <- Z.pow_add_r by lia. f_equal. lia.
Qed.

Lemma hundredths_zero :
  RNs (round_half_even (100 * 0) (2 ^ 1074) * 2 ^ 1074) 100 = 0.
Proof.
  assert (Hp : 0 < 2 ^ 1074) by (apply Z.pow_pos_nonneg; lia).
  replace (100 * 0) with (0 * 2 ^ 1074) by ring.
  rewrite round_half_even_exact by exact Hp.
  rewrite Z.mul_0_l. apply RNs_0. lia.
Qed.

Lemma nn_not_nan (x : spec_float) : nn x -> is_nan_sf x = false.
Proof. destruct x as [s|s| |[|] m e]; cbn [nn]; try contradiction; reflexivity. Qed.

Lemma round_nd_sf_res (x : spec_float) :
  nn x ->
  res (round_nd_sf 2 x)
      (RNs (round_half_even (100 * sv x) (2 ^ 1074) * 2 ^ 1074) 100).
Proof.
  assert (Hp : 0 < 2 ^ 1074) by (apply Z.pow_pos_nonneg; lia).
  pose proof hundredths_zero as Hz.
  destruct x as [s|s| |[|] m e]; cbn [nn]; try contradiction.
  - intros _. cbn [round_nd_sf sv]. rewrite Hz. apply res_zero.
  - intros Hv. pose proof (valid_finite_inv _ _ _ Hv) as (_ & He & _).
    cbn [round_nd_sf sv Binary64.signed]. cbv zeta.
    change (10 ^ Z.of_N 2) with 100.
    rewrite (hundredths_val m e) by lia.
    set (k := round_half_even (100 * (Zpos m * 2 ^ (e + 1074))) (2 ^ 1074)).
    assert (Hk : 0 <= k).
    { unfold k. apply round_half_even_ge_int; [exact Hp|].
      assert (0 < 2 ^ (e + 1074)) by (apply Z.pow_pos_nonneg; lia). lia. }
    destruct (Z.eqb_spec k 0) as [E0|N0].
    + rewrite E0, Z.mul_0_l, RNs_0 by lia. apply res_zero.
    + destruct k as [|pk|pk]; try lia.
      apply SFdiv_integers_res.
Qed.

(** [round(., 2)] of a non-negative double is a fixed point of
    [round(., 2)]. *)
Lemma round_nd_sf_idem_nn (x : spec_float) :
  nn x ->
  proper (round_nd_sf 2 x) /\ proper (round_nd_sf 2 (round_nd_sf 2 x))
  /\ sv (round_nd_sf 2 (round_nd_sf 2 x)) = sv (round_nd_sf 2 x).
Proof.
  intros Hx. pose proof (round_nd_sf_res x Hx) as R.
  pose proof (nn_sv_nonneg x Hx) as Hx0.
  assert (Hp : 0 < 2 ^ 1074) by (apply Z.pow_pos_nonneg; lia).
  set (k := round_half_even (100 * sv x) (2 ^ 1074)) in *.
  assert (Hk : 0 <= k).
  { unfold k. apply round_half_even_ge_int; [exact Hp|]. lia. }
  set (W := RNs (k * 2 ^ 1074) 100) in *.
  unfold res in R. destruct (Z.ltb_spec W (2 ^ 2098)) as [Hlt|Hge].
  - destruct R as [Ny Sy].
    pose proof (round_nd_sf_res _ Ny) as R2. rewrite Sy in R2.
    assert (E : RNs (round_half_even (100 * W) (2 ^ 1074) * 2 ^ 1074) 100 = W).
    { destruct (Z.eq_dec k 0) as [E0|N0].
      - assert (W0 : W = 0) by (unfold W; rewrite E0, Z.mul_0_l; apply RNs_0; lia).
        rewrite W0. apply hundredths_zero.
      - apply RNs_decimal_round_trip. lia. }
    rewrite E in R2. apply res_finite in R2; [|exact Hlt].
    destruct R2 as [Nz Sz].
    split; [split; [apply nn_valid, Ny|apply nn_not_nan, Ny]|].
    split; [split; [apply nn_valid, Nz|apply nn_not_nan, Nz]|].
    rewrite Sz, Sy. reflexivity.
  - rewrite R. cbn [round_nd_sf]. repeat split; reflexivity.
Qed.

Lemma proper_opp (x : spec_float) : proper x -> proper (SFopp x).
Proof.
  intros [V N]. split; [rewrite valid_binary_opp|rewrite is_nan_sf_opp]; assumption.
Qed.

(** [round(., 2)] of a double that is not a nan is a fixed point of
    [round(., 2)]. *)
Lemma round_nd_sf_idem (x : spec_float) :
  proper x ->
  proper (round_nd_sf 2 x) /\ proper (round_nd_sf 2 (round_nd_sf 2 x))
  /\ sv (round_nd_sf 2 (round_nd_sf 2 x)) = sv (round_nd_sf 2 x).
Proof.
  intros [V N]. destruct x as [s|s| |[|] m e]; try discriminate.
  - apply round_nd_sf_idem_nn. exact I.
  - cbn [round_nd_sf]. repeat split; reflexivity.
  - change (S754_finite true m e) with (SFopp (S754_finite false m e)).
    destruct (round_nd_sf_idem_nn (S754_finite false m e) V) as (P1 & P2 & E).
    rewrite !round_nd_sf_opp.
    split; [apply proper_opp, P1|]. split; [apply proper_opp, P2|].
    rewrite !sv_opp, E. reflexivity.
  - apply round_nd_sf_idem_nn. exact V.
Qed.

Lemma round_nd_2_rounded (v : float) :
  notnan v ->
  is_rounded 2 (round_nd v 2) /\ notnan (round_nd v 2).
Proof.
  intros Nv.
  destruct (round_nd_sf_idem (Prim2SF v)) as ([V1 N1] & [V2 N2] & E).
  { split; [apply Prim2SF_valid|exact Nv]. }
  cbn [round_nd binary64].
  pose proof (round_nd_Prim2SF v 2 V1) as E1.
  assert (E2 : Prim2SF (Binary64.round_nd (Binary64.round_nd v 2) 2)
               = round_nd_sf 2 (round_nd_sf 2 (Prim2SF v))).
  { rewrite round_nd_Prim2SF; rewrite E1; [reflexivity|exact V2]. }
  split.
  - unfold is_rounded. cbn [round_nd feqb binary64].
    rewrite FloatAxioms.eqb_spec, E2, E1. unfold SFeqb.
    rewrite SFcompare_sv by assumption. rewrite E, Z.compare_refl. reflexivity.
  - unfold notnan. rewrite E1. exact N1.
Qed.

End DecimalRounding.

Section NoNan.

Lemma binary_round_not_nan (s : bool) (m : positive) (e : Z) :
  is_nan_sf (binary_round prec emax s m e) = false.
Proof.
  unfold binary_round.
  destruct (shl_align m e _) as [mz ez].
  apply binary_round_aux_not_nan. lia.
Qed.

Lemma binary_normalize_not_nan (m e : Z) (sz : bool) :
  is_nan_sf (binary_normalize prec emax m e sz) = false.
Proof.
  destruct m; cbn [binary_normalize]; [reflexivity| |];
    apply binary_round_not_nan.
Qed.

Lemma SFmul_not_nan (x y : spec_float) :
  finite_sf x -> finite_sf y -> is_nan_sf (SFmul prec emax x y) = false.
Proof.
  destruct x as [sx|sx| |sx mx ex], y as [sy|sy| |sy my ey];
    cbn [finite_sf SFmul]; try contradiction; intros _ _; try reflexivity.
  apply binary_round_aux_not_nan. lia.
Qed.

Lemma SFadd_not_nan (x y : spec_float) :
  finite_sf x -> is_nan_sf y = false -> is_nan_sf (SFadd prec emax x y) = false.
Proof.
  destruct x as [sx|sx| |sx mx ex], y as [sy|sy| |sy my ey];
    cbn [finite_sf SFadd is_nan_sf]; try contradiction; try discriminate;
    intros _ _; try reflexivity.
  - destruct sx, sy; reflexivity.
  - apply binary_normalize_not_nan.
Qed.

Lemma SFsub_not_nan (x y : spec_float) :
  finite_sf x -> is_nan_sf y = false -> is_nan_sf (SFsub prec emax x y) = false.
Proof.
  destruct x as [sx|sx| |sx mx ex], y as [sy|sy| |sy my ey];
    cbn [finite_sf SFsub is_nan_sf]; try contradiction; try discriminate;
    intros _ _; try reflexivity.
  - destruct sx, sy; reflexivity.
  - apply binary_normalize_not_nan.
Qed.

Lemma SFdiv_not_nan (x y : spec_float) :
  finite_sf x -> is_nan_sf y = false -> sv y <> 0 ->
  is_nan_sf (SFdiv prec emax x y) = false.
Proof.
  destruct x as [sx|sx| |sx mx ex], y as [sy|sy| |sy my ey];
    cbn [finite_sf SFdiv is_nan_sf sv]; try contradiction; try discriminate;
    intros _ _ Hy; try reflexivity; try (exfalso; apply Hy; reflexivity).
  unfold SFdiv_core_binary.
  set (m' := match _ with 0 => Zpos mx | Zpos _ => _ | Zneg _ => 0 end).
  assert (Hm' : 0 <= m').
  { unfold m'. destruct (_ - _ - _) as [|p|p]; try lia.
    rewrite Z.shiftl_mul_pow2 by lia.
    assert (0 < 2 ^ Zpos p) by (apply Z.pow_pos_nonneg; lia). lia. }
  assert (Hqr : Z.div_eucl m' (Zpos my) = (m' / Zpos my, m' mod Zpos my)).
  { unfold Z.div, Z.modulo. destruct (Z.div_eucl m' (Zpos my)); reflexivity. }
  rewrite Hqr. apply binary_round_aux_not_nan. apply Z.div_pos; lia.
Qed.

End NoNan.

Section GstOnDoubles.

Lemma finite_notnan (a : float) : is_finite a = true -> notnan a.
Proof.
  intros Hf. unfold notnan.
  destruct (is_finite_spec a Hf) as [[s E]|(s & m & e & E)]; rewrite E; reflexivity.
Qed.

Lemma finite_finite_sf (a : float) : is_finite a = true -> finite_sf (Prim2SF a).
Proof.
  intros Hf.
  destruct (is_finite_spec a Hf) as [[s E]|(s & m & e & E)]; rewrite E; exact I.
Qed.

Lemma fmul_notnan (a b : float) :
  is_finite a = true -> is_finite b = true -> notnan (a * b)%float.
Proof.
  intros Ha Hb. unfold notnan. rewrite mul_spec.
  apply SFmul_not_nan; apply finite_finite_sf; assumption.
Qed.

Lemma fadd_notnan (a b : float) :
  is_finite a = true -> notnan b -> notnan (a + b)%float.
Proof.
  intros Ha Hb. unfold notnan. rewrite add_spec.
  apply SFadd_not_nan; [apply finite_finite_sf; assumption|exact Hb].
Qed.

Lemma fsub_notnan (a b : float) :
  is_finite a = true -> notnan b -> notnan (a - b)%float.
Proof.
  intros Ha Hb. unfold notnan. rewrite sub_spec.
  apply SFsub_not_nan; [apply finite_finite_sf; assumption|exact Hb].
Qed.

Lemma fdiv_notnan (a b : float) :
  is_finite a = true -> notnan b -> val b <> 0 -> notnan (a / b)%float.
Proof.
  intros Ha Hb Hv. unfold notnan. rewrite div_spec.
  apply SFdiv_not_nan; [apply finite_finite_sf; assumption|exact Hb|exact Hv].
Qed.

(** A finite double that is [>= 0] is a zero or a positive finite double. *)
Lemma finite_nonneg_fin (a : float) :
  is_finite a = true -> fleb (flit 0) a = true -> fin a.
Proof.
  intros Hf Hle. apply leb_true_inv in Hle as (_ & _ & L). rewrite val_0 in L.
  unfold fin, val in *. pose proof (Prim2SF_valid a) as V.
  destruct (is_finite_spec a Hf) as [[s E]|(s & m & e & E)]; rewrite E in *.
  - exact I.
  - destruct s; cbn [nn sv] in *; [|exact V].
    exfalso. assert (0 < 2 ^ (e + 1074)); [|lia].
    apply Z.pow_pos_nonneg; [lia|].
    apply (valid_finite_inv true) in V. lia.
Qed.

(** The rate as a fraction: [rate / 100.0] of a finite [rate >= 0]. *)
Lemma rate_fraction_fin (rate : float) :
  fin rate -> fin (fdiv rate (flit 100)).
Proof.
  intros Fr. pose proof (fin_val_nonneg rate Fr) as N.
  assert (Hp : 0 < 2 ^ 1074) by (apply Z.pow_pos_nonneg; lia).
  cbn [fdiv binary64]. unfold fin. rewrite div_spec.
  change (SF64div (Prim2SF rate) (Prim2SF (flit 100)))
    with (SFdiv prec emax (Prim2SF rate) (Prim2SF (flit 100))).
  assert (E100 : Prim2SF (flit 100)
                 = S754_finite false 7036874417766400 (-46))
    by (vm_compute; reflexivity).
  rewrite E100.
  assert (V100v : valid_binary (S754_finite false 7036874417766400 (-46)) = true)
    by reflexivity.
  pose proof (SFdiv_res (Prim2SF rate) _ _ Fr V100v) as R.
  apply res_finite in R; [apply R|].
  assert (Hrv : RNs (sv (Prim2SF rate)) 1 < 2 ^ 2098).
  { pose proof (res_nn _ Fr) as R1. unfold res in R1.
    destruct (Z.ltb_spec (RNs (sv (Prim2SF rate)) 1) (2 ^ 2098)) as [|Hge];
      [assumption|].
    unfold fin in Fr. rewrite R1 in Fr. contradiction. }
  eapply Z.le_lt_trans; [|exact Hrv].
  apply RNs_mono; try nia.
  - unfold val in N. nia.
  - assert (2 ^ 1074 <= 7036874417766400 * 2 ^ (-46 + 1074)).
    { apply Z.leb_le. vm_compute. reflexivity. }
    unfold val in N. nia.
Qed.

(** [1 + r] for [r >= 0] is a positive double or the positive infinity. *)
Lemma one_plus_positive (r : float) :
  fin r -> notnan (fadd (flit 1) r) /\ 0 < val (fadd (flit 1) r).
Proof.
  intros Fr. pose proof (fin_val_nonneg r Fr) as N.
  assert (F1 : fin (flit 1)) by (unfold fin; vm_compute; reflexivity).
  assert (V1 : val (flit 1) = 2 ^ 1074) by (vm_compute; reflexivity).
  assert (Hp : 0 < 2 ^ 1074) by (apply Z.pow_pos_nonneg; lia).
  cbn [fadd binary64]. unfold notnan, val. rewrite add_spec.
  change (SF64add (Prim2SF (flit 1)) (Prim2SF r))
    with (SFadd prec emax (Prim2SF (flit 1)) (Prim2SF r)).
  pose proof (SFadd_res _ _ F1 Fr) as R. unfold res in R.
  fold (val (flit 1)) in R. rewrite V1 in R. fold (val r) in R.
  assert (HW : 2 ^ 1074 <= RNs (2 ^ 1074 + val r) 1).
  { rewrite <- (RNs_pow2 1074) at 1 by lia. apply RNs_mono; lia. }
  destruct (_ <? _).
  - destruct R as [Nn Sv]. split; [apply nn_not_nan, Nn|]. rewrite Sv. lia.
  - rewrite R. split; [reflexivity|]. cbn [sv]. apply Z.pow_pos_nonneg; lia.
Qed.

Lemma feqb_0_false (a : float) :
  notnan a -> val a <> 0 -> feqb a (flit 0) = false.
Proof.
  intros Na Hv. cbn [feqb binary64]. rewrite FloatAxioms.eqb_spec. unfold SFeqb.
  rewrite SFcompare_sv;
    [|apply Prim2SF_valid|apply Prim2SF_valid|exact Na|reflexivity].
  fold (val a). fold (val (flit 0)). rewrite val_0.
  destruct (Z.compare_spec (val a) 0); try reflexivity. contradiction.
Qed.

(** C2 (as amended): on IEEE doubles, for a finite amount and a finite
    rate [>= 0], both modes return; the computed fields are rounded to 2
    decimals ([gst] in both modes, [gross] in "add" mode, [base] in
    "remove" mode when [rate / 100] is not zero), and the field that
    repeats the input ([base] in "add" mode, [gross] in "remove" mode,
    [base] in "remove" mode when [rate / 100] is zero) is the amount as
    given. *)
Theorem gst_breakup_rounded_fields (amt rate : float) :
  is_finite amt = true -> is_finite rate = true ->
  fleb (flit 0) rate = true ->
  exists ga gr,
    gst_breakup (F:=float) amt rate "add" = Ok ga /\
    gst_breakup (F:=float) amt rate "remove" = Ok gr /\
    base ga = amt /\ is_rounded 2 (gst ga) /\ is_rounded 2 (gross ga) /\
    gross gr = amt /\ is_rounded 2 (gst gr) /\
    (feqb (fdiv rate (flit 100)) (flit 0) = true -> base gr = amt) /\
    (feqb (fdiv rate (flit 100)) (flit 0) = false -> is_rounded 2 (base gr)).
Proof.
  intros Ha Hr Hle.
  pose proof (finite_nonneg_fin rate Hr Hle) as Fr.
  pose proof (rate_fraction_fin rate Fr) as Ff.
  set (r := fdiv rate (flit 100)) in *.
  pose proof (fin_is_finite r Ff) as Hrf.
  destruct (one_plus_positive r Ff) as [N1 P1].
  unfold gst_breakup, py_div. rewrite eqb_100_0. cbn [bind]. fold r.
  change (String.eqb "add" "add") with true.
  change (String.eqb "remove" "add") with false. cbv iota.
  (* "add" *)
  pose proof (fmul_notnan amt r Ha Hrf) as Nt.
  destruct (round_nd_2_rounded _ Nt) as [Rt Ntax].
  pose proof (fadd_notnan amt _ Ha Ntax) as Ng.
  destruct (round_nd_2_rounded _ Ng) as [Rg _].
  eexists.
  destruct (feqb r (flit 0)) eqn:Er; cbn [negb bind].
  - (* "remove", the rate is 0 *)
    pose proof (fsub_notnan amt amt Ha (finite_notnan _ Ha)) as Nd.
    destruct (round_nd_2_rounded _ Nd) as [Rd _].
    eexists. split; [reflexivity|]. split; [reflexivity|].
    cbn [base gst gross].
    repeat split; intros; try assumption; try reflexivity; discriminate.
  - (* "remove", the rate is not 0 *)
    rewrite (feqb_0_false _ N1 ltac:(lia)). cbn [bind].
    pose proof (fdiv_notnan amt _ Ha N1 ltac:(lia)) as Nq.
    destruct (round_nd_2_rounded _ Nq) as [Rb Nb].
    pose proof (fsub_notnan amt _ Ha Nb) as Nd.
    destruct (round_nd_2_rounded _ Nd) as [Rd _].
    eexists. split; [reflexivity|]. split; [reflexivity|].
    cbn [base gst gross].
    repeat split; intros; try assumption; try reflexivity; discriminate.
Qed.

End GstOnDoubles.

(* ================================================================== *)
(** ** The round trip of [gst_breakup] on doubles *)

Section RoundingErrors.









End RoundingErrors.

Section RoundTripOnDoubles.



Lemma nn_of_range (x : spec_float) :
  valid_binary x = true -> is_nan_sf x = false -> 0 <= sv x < 2 ^ 2100 -> nn x.
Proof.
  intros Vx Nx Hb. destruct x as [s|s| |[|] m e]; cbn [nn sv] in *.
  - exact I.
  - destruct s; lia.
  - discriminate.
  - exfalso. apply (valid_finite_inv true) in Vx as (_ & He & _).
    assert (0 < 2 ^ (e + 1074)) by (apply Z.pow_pos_nonneg; lia). lia.
  - exact Vx.
Qed.




(** The scenario of 1000 at 18 percent, whose round trip is exact. *)
Example gst_round_trip_scenario :
  gst_breakup (F:=float) (flit 1180) (flit 18) "remove"
  = Ok {| base := flit 1000; gst := flit 180; gross := flit 1180 |}.
Proof. vm_compute. reflexivity. Qed.

End RoundTripOnDoubles.

(* ================================================================== *)
(** ** Rates too small for [1 + r], on doubles *)

Section TinyRates.
Variable libm_pow : float -> float -> result float.
Import PyLiterals.
Local Open Scope py_scope.

Lemma guard_passes (x : float) (months : Z) :
  (x <= #0) = false -> (0 < months)%Z ->
  (x <= #0) || (months <=? 0)%Z = false.
Proof.
  intros Hx Hm. rewrite Hx. cbn [orb]. apply Z.leb_gt. exact Hm.
Qed.

Lemma eqb_12_0 : feqb (F:=float) #12 #0 = false.
Proof. vm_compute. reflexivity. Qed.

(** X1: [emi] raises [ZeroDivisionError] for a principal that is not
    [<= 0] and a positive number of months within the range of a float
    ([float(months)] is [m]), when the monthly rate [r] is not zero but too
    small to change [1 + r]: the denominator [(1 + r) ** months - 1] is
    [0.0]. *)
Theorem emi_unrepresentable_rate_raises
    (principal rate : float) (months : Z) (m : float) :
  pow_of_one libm_pow ->
  (principal <= #0) = false -> (0 < months)%Z -> of_int months = Ok m ->
  (fdiv (fdiv rate #100) #12 == #0) = false ->
  #1 + fdiv (fdiv rate #100) #12 = #1 ->
  emi libm_pow principal rate months = Raise ZeroDivisionError.
Proof.
  intros Hpow Hp Hm Em Hr H1.
  pose proof (b64_of_int_nonzero months m ltac:(lia) Em) as Hm0.
  unfold emi. rewrite (guard_passes _ _ Hp Hm).
  unfold py_div at 1. rewrite eqb_100_0. cbn [bind].
  unfold py_div at 1. rewrite eqb_12_0. cbn [bind].
  rewrite Hr, Em. cbn [bind].
  unfold py_pow. change (feqb m #0) with (m =? 0)%float. rewrite Hm0, H1, Hpow.
  cbn [bind].
  unfold py_div.
  replace (feqb (F:=float) (#1 - #1) #0) with true by (vm_compute; reflexivity).
  reflexivity.
Qed.

(** [0.0 / i] is [0.0] for a positive [i]. *)
Lemma b64_zero_div_pos (i : float) : (#0 < i) = true -> fdiv #0 i = #0.
Proof.
  intros Hi. apply ltb_true_inv in Hi as (_ & Ni & Pi). rewrite val_0 in Pi.
  apply Prim2SF_inj. cbn [fdiv binary64]. rewrite div_spec.
  unfold notnan, val in *.
  change (Prim2SF #0) with (S754_zero false).
  destruct (Prim2SF i) as [s|[|]| |[|] mi ei]; cbn [sv is_nan_sf] in *;
    try discriminate; try lia; reflexivity.
Qed.

(** [x * 0.0] is [0.0] for a finite positive [x]. *)
Lemma b64_pos_mul_zero (x : float) :
  is_finite x = true -> (x <= #0) = false -> x * #0 = #0.
Proof.
  intros Hf Hx. apply Prim2SF_inj. cbn [fmul binary64]. rewrite mul_spec.
  cbn [fleb binary64] in Hx. rewrite leb_spec in Hx.
  change (Prim2SF #0) with (S754_zero false) in *.
  destruct (is_finite_spec x Hf) as [[s E]|(s & mx & ex & E)]; rewrite E in *.
  - discriminate.
  - destruct s; [discriminate|reflexivity].
Qed.

(** X2: [rd_maturity], for a positive finite installment and a positive
    number of months within the range of a float ([float(months)] is [m]),
    with a positive monthly rate [i] too small to change [1 + i]: the growth
    factor is [0.0], so the maturity is [0.0] and the interest is minus the
    deposit, rounded. *)
Theorem rd_maturity_unrepresentable_rate
    (installment rate : float) (months comp : Z) (m : float) :
  pow_of_one libm_pow ->
  is_finite installment = true -> (installment <= #0) = false ->
  (0 < months)%Z -> of_int months = Ok m ->
  (#0 < fdiv (fdiv rate #100) #12) = true ->
  #1 + fdiv (fdiv rate #100) #12 = #1 ->
  rd_maturity libm_pow installment rate months comp
  = Ok {| maturity := #0; interest := round_nd (#0 - installment * m) 2 |}.
Proof.
  intros Hpow Hf Hp Hm Em Hi H1.
  pose proof (b64_of_int_nonzero months m ltac:(lia) Em) as Hm0.
  assert (Hi0 : (fdiv (fdiv rate #100) #12 == #0) = false).
  { apply ltb_true_inv in Hi as (_ & Ni & Pi). rewrite val_0 in Pi.
    apply feqb_0_false; [exact Ni|lia]. }
  unfold rd_maturity. rewrite (guard_passes _ _ Hp Hm).
  unfold py_div at 1. rewrite eqb_100_0. cbn [bind].
  unfold py_div at 1. rewrite eqb_12_0. cbn [bind].
  rewrite Hi0, Em. cbn [bind].
  unfold py_pow. change (feqb m #0) with (m =? 0)%float. rewrite Hm0, H1, Hpow.
  cbn [bind]. unfold py_div. rewrite Hi0. cbn [bind].
  replace (fsub (F:=float) #1 #1) with (flit (F:=float) 0)
    by (vm_compute; reflexivity).
  rewrite (b64_zero_div_pos _ Hi), (b64_pos_mul_zero _ Hf Hp).
  replace (fmul (F:=float) #0 #1) with (flit (F:=float) 0)
    by (vm_compute; reflexivity).
  replace (round_nd (F:=float) #0 2) with (flit (F:=float) 0)
    by (vm_compute; reflexivity).
  reflexivity.
Qed.

End TinyRates.

(* ================================================================== *)
(** ** Saturation of [estimate_credit_score] *)

Section ScoreSaturation.
Import PyLiterals.
Local Open Scope py_scope.

(** X3: [estimate_credit_score] absorbs nan: [min(100, nan)] is [100], so a nan
    percentage counts as 100, and [max(0.0, nan)] is [0.0], so a nan credit
    age counts as no credit age. *)
Theorem estimate_credit_score_nan (ph ut age : float) (inq : Z) (dti : float) :
  estimate_credit_score nan ut age inq dti
  = estimate_credit_score #100 ut age inq dti
  /\ estimate_credit_score ph nan age inq dti
     = estimate_credit_score ph #100 age inq dti
  /\ estimate_credit_score ph ut nan inq dti
     = estimate_credit_score ph ut #0 inq dti
  /\ estimate_credit_score ph ut age inq nan
     = estimate_credit_score ph ut age inq #100.
Proof.
  assert (E : py_max (F:=float) #0 (py_min #100 nan)
              = py_max #0 (py_min #100 #100)) by (vm_compute; reflexivity).
  assert (E0 : py_max (F:=float) #0 nan = py_max #0 #0)
    by (vm_compute; reflexivity).
  unfold estimate_credit_score. cbv zeta.
  rewrite E, E0. repeat split; reflexivity.
Qed.

End ScoreSaturation.

Section ScoreSaturationGeneric.
Context {F : Type} `{PyFloat F}.

(** X4: in [estimate_credit_score], for every float arithmetic, more than
    10 inquiries count as 10, and a negative number of inquiries as none. *)
Theorem estimate_credit_score_inquiries_saturate
    (ph ut age : F) (inq : Z) (dti : F) :
  estimate_credit_score ph ut age (Z.max 10 inq) dti
  = estimate_credit_score ph ut age 10 dti
  /\ estimate_credit_score ph ut age (Z.min 0 inq) dti
     = estimate_credit_score ph ut age 0 dti.
Proof.
  unfold estimate_credit_score. cbv zeta.
  replace (Z.max 0 (100 - Z.max 0 (Z.max 10 inq) * 10))
    with (Z.max 0 (100 - Z.max 0 10 * 10)) by lia.
  replace (Z.max 0 (100 - Z.max 0 (Z.min 0 inq) * 10))
    with (Z.max 0 (100 - Z.max 0 0 * 10)) by lia.
  split; reflexivity.
Qed.

End ScoreSaturationGeneric.

Section AgeSaturation.
Import PyLiterals.
Local Open Scope py_scope.

Lemma ltb_of_val (a b : float) :
  notnan a -> notnan b -> (val a < val b)%Z -> (a <? b)%float = true.
Proof.
  intros Na Nb Hlt. rewrite ltb_spec. unfold SFltb.
  rewrite SFcompare_sv;
    [|apply Prim2SF_valid|apply Prim2SF_valid|exact Na|exact Nb].
  fold (val a) (val b). rewrite (proj2 (Z.compare_lt_iff _ _) Hlt). reflexivity.
Qed.

Lemma ltb_ge_false (a b : float) :
  notnan a -> notnan b -> (val b <= val a)%Z -> (a <? b)%float = false.
Proof.
  intros Na Nb Hle. rewrite ltb_spec. unfold SFltb.
  rewrite SFcompare_sv;
    [|apply Prim2SF_valid|apply Prim2SF_valid|exact Na|exact Nb].
  fold (val a) (val b).
  destruct (Z.compare_spec (val a) (val b)); try reflexivity. lia.
Qed.

(** From 10 years on, the sub-score of the credit age is 100. *)
Lemma s_age_saturated (age : float) :
  (#10 <= age) = true -> s_age age = #100.
Proof.
  intros Hle. apply leb_true_inv in Hle as (_ & Na & L).
  assert (V10 : (val #10 = 10 * 2 ^ 1074)%Z) by (vm_compute; reflexivity).
  assert (Hp : (0 < 2 ^ 1074)%Z) by (apply Z.pow_pos_nonneg; lia).
  assert (Hpos : (0 < val age)%Z) by lia.
  unfold s_age, py_max.
  replace (fltb (F:=float) #0 age) with true.
  2:{ symmetry. apply ltb_of_val; [apply fin_notnan, lit_0|exact Na|].
      rewrite val_0. exact Hpos. }
  unfold py_min.
  replace (fltb (F:=float) (fmul age #10) #100) with false; [reflexivity|].
  symmetry.
  assert (T : (fin (age * #10)%float /\ (V100 <= val (age * #10)%float)%Z)
              \/ Prim2SF (age * #10)%float = S754_infinity false).
  { destruct (positive_cases age Na Hpos) as [Fa|Ia].
    - pose proof (SFmul_res _ _ Fa (proj1 lit_10)) as R. unfold res in R.
      fold (val age) (val #10) in R.
      assert (W : (V100 <= RNs (val age * val #10) (2 ^ 1074))%Z).
      { assert (E : (RNs (val #10 * val #10) (2 ^ 1074) = V100)%Z)
          by (vm_compute; reflexivity).
        assert (A0 : (0 <= val #10)%Z) by (rewrite V10; lia).
        assert (A1 : (0 <= val #10 * val #10)%Z)
          by (apply Z.mul_nonneg_nonneg; exact A0).
        assert (A2 : (val #10 * val #10 * 2 ^ 1074
                      <= val age * val #10 * 2 ^ 1074)%Z).
        { apply Z.mul_le_mono_nonneg_r; [lia|].
          apply Z.mul_le_mono_nonneg_r; [exact A0|exact L]. }
        rewrite <- E. apply RNs_mono; lia. }
      unfold fin, val. rewrite mul_spec.
      change (SF64mul (Prim2SF age) (Prim2SF #10))
        with (SFmul prec emax (Prim2SF age) (Prim2SF #10)).
      destruct (_ <? _)%Z.
      + left. destruct R as [Nn Sv]. split; [exact Nn|]. rewrite Sv. exact W.
      + right. exact R.
    - right. rewrite mul_spec, Ia. vm_compute. reflexivity. }
  pose proof V100_lt as HV.
  destruct T as [[Ft Vt]|It].
  - apply ltb_ge_false; [apply fin_notnan, Ft|apply fin_notnan, lit_100|].
    rewrite val_100. exact Vt.
  - apply ltb_ge_false.
    + unfold notnan. cbn [fmul binary64]. rewrite It. reflexivity.
    + apply fin_notnan, lit_100.
    + rewrite val_100. unfold val. cbn [fmul binary64]. rewrite It.
      cbn [sv]. lia.
Qed.

(** X5: on doubles, a credit age of 10 years or more (plus infinity
    included) gives the score of 10 years. *)
Theorem estimate_credit_score_age_saturates
    (ph ut age : float) (inq : Z) (dti : float) :
  (#10 <= age) = true ->
  estimate_credit_score ph ut age inq dti
  = estimate_credit_score ph ut #10 inq dti.
Proof.
  intros Hle. unfold estimate_credit_score. cbv zeta.
  fold (s_age age) (s_age #10).
  rewrite (s_age_saturated age Hle).
  rewrite (s_age_saturated #10) by (vm_compute; reflexivity).
  reflexivity.
Qed.

End AgeSaturation.

(* ================================================================== *)
(** ** The same currency on both sides *)

Section SameCurrency.
Variable upper : string -> string.
Import PyLiterals.
Local Open Scope py_scope.

Lemma is_one_eq (x : float) : is_one x = true -> x = #1.
Proof.
  unfold is_one. intros Hx. apply Prim2SF_inj.
  change (Prim2SF #1) with (S754_finite false 4503599627370496 (-52)).
  destruct (Prim2SF x) as [s|s| |[|] m e]; try discriminate.
  destruct m as [m|m|]; try discriminate.
  repeat (destruct m as [m|m|]; try discriminate).
  destruct e as [|e|e]; try discriminate.
  repeat (destruct e as [e|e|]; try discriminate).
  reflexivity.
Qed.

(** Every rate of the table divided by itself is exactly [1.0]. *)
Lemma static_rates_self_ratio (code : string) (rate : float) :
  STATIC_RATES_BASE_USD (F:=float) !! code = Some rate ->
  fdiv rate rate = #1.
Proof.
  intros Hl. apply is_one_eq. revert code rate Hl.
  change (map_Forall (fun (_ : string) (rate : float) =>
                        is_one (fdiv rate rate) = true)
            (STATIC_RATES_BASE_USD (F:=float))).
  apply (bool_decide_unpack _). vm_compute. reflexivity.
Qed.

(** X7: [api_currency] without a custom rate, between two codes with the
    same upper case that the table holds: the rate used is [1.0] exactly,
    and the amount is divided and multiplied by the rate of the table
    before it is rounded to 4 decimals. *)
Theorem api_currency_same_code
    (amt : float) (from to : string) (rate : float) :
  upper from = upper to ->
  STATIC_RATES_BASE_USD (F:=float) !! upper from = Some rate ->
  api_currency (F:=float) upper
    {| amount := amt; from_code := from; to_code := to; custom_rate := None |}
  = Ok (Converted (round_nd (fmul (fdiv amt rate) rate) 4) #1
          "Static demo rates").
Proof.
  intros Hu Hl.
  unfold api_currency, dict_contains, dict_get.
  cbn [amount from_code to_code custom_rate].
  rewrite <- Hu, Hl. cbn [negb orb bind]. unfold py_div.
  rewrite (static_rates_nonzero _ _ Hl). cbn [bind].
  rewrite (static_rates_self_ratio _ _ Hl). reflexivity.
Qed.

End SameCurrency.

(* ================================================================== *)
(** ** Properties of the request handlers *)

Section HandlerProperties.
Variable libm_pow : float -> float -> result float.
Variable float_of_str : string -> result float.
Variable int_of_str : string -> result Z.

Ltac map_lookups :=
  repeat first
    [ rewrite lookup_insert_eq | rewrite lookup_delete_eq
    | rewrite lookup_insert_ne by discriminate
    | rewrite lookup_delete_ne by discriminate ].

(** *** [/api/gst] *)

(** A mode that is not "add" is treated as "remove". *)
Lemma gst_breakup_other_mode (amount rate : float) (mode : string) :
  mode <> "add" ->
  gst_breakup amount rate mode = gst_breakup amount rate "remove".
Proof.
  intros Hm. unfold gst_breakup.
  apply String.eqb_neq in Hm. rewrite Hm. reflexivity.
Qed.

(** X8: a request to [/api/gst] without "mode" is answered as with the
    mode "add". *)
Theorem api_gst_default_mode (data : gmap string json) :
  api_gst float_of_str (delete "mode" data)
  = api_gst float_of_str (<["mode" := JStr "add"]> data).
Proof.
  unfold api_gst, data_item, data_get.
  map_lookups. reflexivity.
Qed.

(** X9: [/api/gst] answers any "mode" other than the string "add" -
    another string, a number, [null] - as the mode "remove". *)
Theorem api_gst_other_mode (data : gmap string json) (mode : json) :
  mode <> JStr "add" ->
  api_gst float_of_str (<["mode" := mode]> data)
  = api_gst float_of_str (<["mode" := JStr "remove"]> data).
Proof.
  intros Hm. unfold api_gst, data_item, data_get.
  map_lookups.
  destruct (data !! "amount") as [va|]; [|reflexivity]. cbn [bind].
  destruct (py_float float_of_str va) as [a|]; [|reflexivity]. cbn [bind].
  destruct (data !! "gst_rate") as [vr|]; [|reflexivity]. cbn [bind].
  destruct (py_float float_of_str vr) as [r|]; [|reflexivity]. cbn [bind].
  apply gst_breakup_other_mode.
  destruct mode; cbn [mode_of_json]; try discriminate.
  intros E. apply Hm. rewrite E. reflexivity.
Qed.

(** *** [/api/rd] and [/api/fd] *)

(** X10: [/api/rd] does not read "comp_per_year": setting the field to
    any value does not change the answer. *)
Theorem api_rd_ignores_comp_per_year (data : gmap string json) (v : json) :
  api_rd libm_pow float_of_str int_of_str (<["comp_per_year" := v]> data)
  = api_rd libm_pow float_of_str int_of_str data.
Proof.
  unfold api_rd, data_item.
  map_lookups. reflexivity.
Qed.

(** X11: a request to [/api/fd] without "comp_per_year" is answered as
    with 4 compoundings a year. *)
Theorem api_fd_default_frequency (data : gmap string json) :
  api_fd libm_pow float_of_str int_of_str (delete "comp_per_year" data)
  = api_fd libm_pow float_of_str int_of_str
      (<["comp_per_year" := JInt 4]> data).
Proof.
  unfold api_fd, data_item, data_get.
  map_lookups. reflexivity.
Qed.

(** X12: with a "comp_per_year" that [int] turns into 0 (0, 0.5, [false],
    ...) and the other fields well formed, [/api/fd] raises
    [ZeroDivisionError]. *)
Theorem api_fd_zero_frequency
    (data : gmap string json) (vp vr vy vc : json) (p r y : float) :
  data !! "principal" = Some vp -> py_float float_of_str vp = Ok p ->
  data !! "annual_rate" = Some vr -> py_float float_of_str vr = Ok r ->
  data !! "years" = Some vy -> py_float float_of_str vy = Ok y ->
  data !! "comp_per_year" = Some vc -> py_int int_of_str vc = Ok 0 ->
  api_fd libm_pow float_of_str int_of_str data = Raise ZeroDivisionError.
Proof.
  intros Lp Ep Lr Er Ly Ey Lc Ec.
  unfold api_fd, data_item, data_get.
  rewrite Lp, Lr, Ly, Lc. cbn [bind]. rewrite Ep, Er, Ey, Ec. cbn [bind].
  apply fd_maturity_zero_frequency.
Qed.

(** *** [/api/emi] and [/api/loan-compare] *)

(** X13: without "months" the term defaults to 0: [/api/emi] answers an
    EMI and a total payment of [0.0], and minus the principal, rounded, as
    the total interest. *)
Theorem api_emi_missing_months (data : gmap string json) (p r : float) :
  data !! "months" = None ->
  py_float float_of_str (data_get data "principal" (JInt 0)) = Ok p ->
  py_float float_of_str (data_get data "annual_rate_percent" (JInt 0)) = Ok r ->
  api_emi libm_pow float_of_str int_of_str data
  = Ok {| loan_emi := flit 0; total_payment := flit 0;
          total_interest := round_nd (fsub (flit 0) p) 2 |}.
Proof.
  intros Lm Ep Er. unfold api_emi. rewrite Ep, Er. cbn [bind].
  unfold data_get at 1. rewrite Lm. cbn [py_int bind].
  apply loan_summary_zero_months.
Qed.

(** X15: exchanging the fields of the two loans of [/api/loan-compare]
    exchanges the two summaries of the answer. *)
Theorem api_loan_compare_swap
    (data data' : gmap string json) (c : LoanCompare) :
  data' !! "p1" = data !! "p2" -> data' !! "r1" = data !! "r2" ->
  data' !! "m1" = data !! "m2" ->
  data' !! "p2" = data !! "p1" -> data' !! "r2" = data !! "r1" ->
  data' !! "m2" = data !! "m1" ->
  api_loan_compare libm_pow float_of_str int_of_str data = Ok c ->
  api_loan_compare libm_pow float_of_str int_of_str data'
  = Ok {| loanA := loanB c; loanB := loanA c |}.
Proof.
  intros P1 R1 M1 P2 R2 M2. unfold api_loan_compare, data_item.
  rewrite P1, R1, M1, P2, R2, M2.
  destruct (data !! "p1") as [vp1|]; [|discriminate]. cbn [bind].
  destruct (py_float float_of_str vp1) as [p1|]; [|discriminate]. cbn [bind].
  destruct (data !! "r1") as [vr1|]; [|discriminate]. cbn [bind].
  destruct (py_float float_of_str vr1) as [r1|]; [|discriminate]. cbn [bind].
  destruct (data !! "m1") as [vm1|]; [|discriminate]. cbn [bind].
  destruct (py_int int_of_str vm1) as [m1|]; [|discriminate]. cbn [bind].
  destruct (loan_summary libm_pow p1 r1 m1) as [a|]; [|discriminate].
  cbn [bind].
  destruct (data !! "p2") as [vp2|]; [|discriminate]. cbn [bind].
  destruct (py_float float_of_str vp2) as [p2|]; [|discriminate]. cbn [bind].
  destruct (data !! "r2") as [vr2|]; [|discriminate]. cbn [bind].
  destruct (py_float float_of_str vr2) as [r2|]; [|discriminate]. cbn [bind].
  destruct (data !! "m2") as [vm2|]; [|discriminate]. cbn [bind].
  destruct (py_int int_of_str vm2) as [m2|]; [|discriminate]. cbn [bind].
  destruct (loan_summary libm_pow p2 r2 m2) as [b|]; [|discriminate].
  cbn [bind].
  intros [= <-]. reflexivity.
Qed.

(** X16: the first summary of an answer of [/api/loan-compare] is the
    answer of [/api/emi] to the fields of the first loan. *)
Theorem api_loan_compare_first_is_api_emi
    (data : gmap string json) (c : LoanCompare) (vp vr vm : json) :
  data !! "p1" = Some vp -> data !! "r1" = Some vr -> data !! "m1" = Some vm ->
  api_loan_compare libm_pow float_of_str int_of_str data = Ok c ->
  api_emi libm_pow float_of_str int_of_str
    (<["principal" := vp]>
       (<["annual_rate_percent" := vr]> (<["months" := vm]> empty)))
  = Ok (loanA c).
Proof.
  intros Lp Lr Lm. unfold api_loan_compare, api_emi, data_item, data_get.
  rewrite Lp, Lr, Lm. cbn [bind].
  map_lookups.
  destruct (py_float float_of_str vp) as [p1|]; [|discriminate]. cbn [bind].
  destruct (py_float float_of_str vr) as [r1|]; [|discriminate]. cbn [bind].
  destruct (py_int int_of_str vm) as [m1|]; [|discriminate]. cbn [bind].
  destruct (loan_summary libm_pow p1 r1 m1) as [a|]; [|discriminate].
  cbn [bind].
  intros H.
  repeat (apply bind_Ok_inv in H as (? & _ & H)).
  injection H as <-. reflexivity.
Qed.

(** *** [int] of a float *)

(** [int] of a non-negative finite double is the integer part of its
    value. *)
Lemma int_of_float_val (f : float) :
  fin f -> int_of_float f = Ok (val f / 2 ^ 1074).
Proof.
  unfold fin, val, int_of_float.
  destruct (Prim2SF f) as [s|s| |[|] m e]; cbn [nn sv]; try contradiction;
    intros Hv.
  - reflexivity.
  - apply (valid_finite_inv false) in Hv as (_ & He & _).
    cbv zeta. f_equal.
    destruct (0 <=? e) eqn:E.
    + apply Z.leb_le in E. rewrite Z.pow_add_r by lia.
      rewrite Z.mul_assoc. symmetry. apply Z.div_mul.
      apply Z.pow_nonzero; lia.
    + apply Z.leb_gt in E.
      replace (2 ^ 1074) with (2 ^ (- e) * 2 ^ (e + 1074)).
      * symmetry. apply Z.div_mul_cancel_r; apply Z.pow_nonzero; lia.
      * rewrite <- Z.pow_add_r by lia. f_equal. lia.
Qed.

(** [int] of a double between the integers [z] and [z + 1] is [z]. *)
Lemma int_of_float_between (f fz fz1 : float) (z : Z) :
  0 <= z < 2 ^ 52 ->
  of_int z = Ok fz -> of_int (z + 1) = Ok fz1 ->
  (fz <=? f)%float = true -> (f <? fz1)%float = true ->
  int_of_float f = Ok z.
Proof.
  intros Hz Ez Ez1 Hle Hlt.
  assert (H52 : 2 ^ 53 = 2 * 2 ^ 52) by reflexivity.
  destruct (of_int_small z ltac:(lia)) as (g & Eg & Fg & Vg).
  rewrite Eg in Ez. injection Ez as ->.
  destruct (of_int_small (z + 1) ltac:(lia)) as (g1 & Eg1 & Fg1 & Vg1).
  rewrite Eg1 in Ez1. injection Ez1 as ->.
  apply leb_true_inv in Hle as (_ & Nf & L).
  apply ltb_true_inv in Hlt as (_ & _ & U).
  rewrite Vg in L. rewrite Vg1 in U.
  assert (HP : 0 < 2 ^ 1074) by (apply Z.pow_pos_nonneg; lia).
  assert (Ff : fin f).
  { apply nn_of_range; [apply Prim2SF_valid|exact Nf|].
    fold (val f). split; [nia|].
    assert (2 ^ 2100 = 2 ^ 1026 * 2 ^ 1074)
      by (rewrite <- Z.pow_add_r by lia; reflexivity).
    assert (2 ^ 53 <= 2 ^ 1026) by (apply Z.pow_le_mono_r; lia).
    nia. }
  rewrite (int_of_float_val f Ff). f_equal.
  symmetry. apply Z.div_unique with (r := val f - z * 2 ^ 1074); lia.
Qed.

(** X14: [/api/emi] cuts a fractional "months" to its integer part: a
    double from the integer [z] up to, but not reaching, [z + 1] is
    answered as the integer [z]. *)
Theorem api_emi_fractional_months
    (data : gmap string json) (f fz fz1 : float) (z : Z) :
  0 <= z < 2 ^ 52 ->
  of_int z = Ok fz -> of_int (z + 1) = Ok fz1 ->
  (fz <=? f)%float = true -> (f <? fz1)%float = true ->
  api_emi libm_pow float_of_str int_of_str (<["months" := JFloat f]> data)
  = api_emi libm_pow float_of_str int_of_str (<["months" := JInt z]> data).
Proof.
  intros Hz Ez Ez1 Hle Hlt.
  unfold api_emi, data_get. map_lookups. cbn [py_int].
  rewrite (int_of_float_between f fz fz1 z Hz Ez Ez1 Hle Hlt). reflexivity.
Qed.

(** *** [/api/credit-score] *)

(** The rank of the band of a score. *)
Lemma band_rank_credit_band (s : Z) :
  band_rank (credit_band s)
  = if 750 <=? s then 3 else if 700 <=? s then 2
    else if 650 <=? s then 1 else 0.
Proof.
  unfold credit_band.
  destruct (750 <=? s); [reflexivity|].
  destruct (700 <=? s); [reflexivity|].
  destruct (650 <=? s); reflexivity.
Qed.

(** A higher score never has a lower band. *)
Lemma credit_band_mono (s s' : Z) :
  s <= s' -> band_rank (credit_band s) <= band_rank (credit_band s').
Proof.
  intros Hs. rewrite !band_rank_credit_band.
  destruct (750 <=? s) eqn:A; destruct (750 <=? s') eqn:A';
  destruct (700 <=? s) eqn:B; destruct (700 <=? s') eqn:B';
  destruct (650 <=? s) eqn:C; destruct (650 <=? s') eqn:C'; lia.
Qed.

(** The score of a request whose fields convert. *)
Lemma api_credit_score_value (data : gmap string json)
    (vp vu va vi vd : json) (ph ut age : float) (inq : Z) (dti : float) :
  data !! "payment_history_pct" = Some vp -> py_float float_of_str vp = Ok ph ->
  data !! "utilization_pct" = Some vu -> py_float float_of_str vu = Ok ut ->
  data !! "credit_age_years" = Some va -> py_float float_of_str va = Ok age ->
  data !! "inquiries" = Some vi -> py_int int_of_str vi = Ok inq ->
  data !! "dti_pct" = Some vd -> py_float float_of_str vd = Ok dti ->
  api_credit_score float_of_str int_of_str data
  = Ok (let s := score_v (val (clamp ph)) (subv V100 (val (clamp ut)))
                         (val (s_age age)) (s_inq inq * 2 ^ 1074)
                         (subv V100 (val (clamp dti))) in
        {| score := s; band := credit_band s |}).
Proof.
  intros Lp Ep Lu Eu La Ea Li Ei Ld Ed.
  unfold api_credit_score, data_item.
  rewrite Lp, Lu, La, Li, Ld. cbn [bind]. rewrite Ep, Eu, Ea, Ei, Ed.
  cbn [bind]. rewrite estimate_credit_score_value. reflexivity.
Qed.

Lemma api_credit_score_inv (data : gmap string json) (c : CreditScore) :
  api_credit_score float_of_str int_of_str data = Ok c ->
  exists ph ut age inq dti,
    c = (let s := score_v (val (clamp ph)) (subv V100 (val (clamp ut)))
                          (val (s_age age)) (s_inq inq * 2 ^ 1074)
                          (subv V100 (val (clamp dti))) in
         {| score := s; band := credit_band s |}).
Proof.
  unfold api_credit_score. intros H.
  apply bind_Ok_inv in H as (vp & _ & H).
  apply bind_Ok_inv in H as (ph & _ & H).
  apply bind_Ok_inv in H as (vu & _ & H).
  apply bind_Ok_inv in H as (ut & _ & H).
  apply bind_Ok_inv in H as (va & _ & H).
  apply bind_Ok_inv in H as (age & _ & H).
  apply bind_Ok_inv in H as (vi & _ & H).
  apply bind_Ok_inv in H as (inq & _ & H).
  apply bind_Ok_inv in H as (vd & _ & H).
  apply bind_Ok_inv in H as (dti & _ & H).
  rewrite estimate_credit_score_value in H. cbn [bind] in H.
  injection H as <-. exists ph, ut, age, inq, dti. reflexivity.
Qed.

(** X17: every answer of [/api/credit-score] has a score between 300 and
    850, the band "Poor" exactly below 650 and the band "Excellent"
    exactly from 750. *)
Theorem api_credit_score_answer (data : gmap string json) (c : CreditScore) :
  api_credit_score float_of_str int_of_str data = Ok c ->
  300 <= score c <= 850
  /\ (band c = "Poor" <-> score c < 650)
  /\ (band c = "Excellent" <-> 750 <= score c).
Proof.
  intros H. apply api_credit_score_inv in H as (ph & ut & age & inq & dti & ->).
  cbv zeta. cbn [score band].
  set (s := score_v _ _ _ _ _).
  assert (R : 300 <= s <= 850).
  { apply score_v_range;
      auto using clamp_range, inverse_range, s_age_range, s_inq_value_range. }
  split; [exact R|]. unfold credit_band.
  destruct (750 <=? s) eqn:A; destruct (700 <=? s) eqn:B;
    destruct (650 <=? s) eqn:C; (split; split; intros E; try discriminate E;
    try reflexivity; lia).
Qed.

(** X18: raising "payment_history_pct" alone, from one float to a larger
    one, in an answered request to [/api/credit-score]: the request is
    still answered, with a score and a band that are not lower. *)
Theorem api_credit_score_payment_history
    (data : gmap string json) (ph ph' : float) (c : CreditScore) :
  data !! "payment_history_pct" = Some (JFloat ph) ->
  (ph <=? ph')%float = true ->
  api_credit_score float_of_str int_of_str data = Ok c ->
  exists c',
    api_credit_score float_of_str int_of_str
      (<["payment_history_pct" := JFloat ph']> data) = Ok c'
    /\ score c <= score c'
    /\ band_rank (band c) <= band_rank (band c').
Proof.
  intros Lp Hle H. revert H.
  unfold api_credit_score at 1, data_item. rewrite Lp. cbn [bind py_float].
  destruct (data !! "utilization_pct") as [vu|] eqn:Lu; [|discriminate].
  cbn [bind].
  destruct (py_float float_of_str vu) as [ut|] eqn:Eu; [|discriminate].
  cbn [bind].
  destruct (data !! "credit_age_years") as [va|] eqn:La; [|discriminate].
  cbn [bind].
  destruct (py_float float_of_str va) as [age|] eqn:Ea; [|discriminate].
  cbn [bind].
  destruct (data !! "inquiries") as [vi|] eqn:Li; [|discriminate].
  cbn [bind].
  destruct (py_int int_of_str vi) as [inq|] eqn:Ei; [|discriminate].
  cbn [bind].
  destruct (data !! "dti_pct") as [vd|] eqn:Ld; [|discriminate].
  cbn [bind].
  destruct (py_float float_of_str vd) as [dti|] eqn:Ed; [|discriminate].
  cbn [bind].
  rewrite estimate_credit_score_value. cbn [bind]. intros [= <-].
  eexists. split.
  - apply (api_credit_score_value _ (JFloat ph') vu va vi vd
             ph' ut age inq dti);
      map_lookups; try assumption; reflexivity.
  - cbv zeta. cbn [score band].
    assert (M : score_v (val (clamp ph)) (subv V100 (val (clamp ut)))
                  (val (s_age age)) (s_inq inq * 2 ^ 1074)
                  (subv V100 (val (clamp dti)))
                <= score_v (val (clamp ph')) (subv V100 (val (clamp ut)))
                     (val (s_age age)) (s_inq inq * 2 ^ 1074)
                     (subv V100 (val (clamp dti)))).
    { pose proof (clamp_range ph). pose proof (clamp_mono ph ph' Hle).
      pose proof (inverse_range _ (clamp_range ut)).
      pose proof (inverse_range _ (clamp_range dti)).
      pose proof (s_age_range age). pose proof (s_inq_value_range inq).
      apply score_v_mono; lia. }
    split; [exact M|apply credit_band_mono, M].
Qed.

(** X19: a request to [/api/credit-score] that lacks one of the five
    fields is not answered: the handler raises. *)
Theorem api_credit_score_missing_field
    (data : gmap string json) (k : string) :
  In k ["payment_history_pct"; "utilization_pct"; "credit_age_years";
        "inquiries"; "dti_pct"] ->
  data !! k = None ->
  exists e, api_credit_score float_of_str int_of_str data = Raise e.
Proof.
  intros Hk Lk.
  destruct (api_credit_score float_of_str int_of_str data) as [c|e] eqn:H;
    [exfalso|exists e; reflexivity].
  unfold api_credit_score, data_item in H.
  apply bind_Ok_inv in H as (vp & Lp & H).
  apply bind_Ok_inv in H as (ph & _ & H).
  apply bind_Ok_inv in H as (vu & Lu & H).
  apply bind_Ok_inv in H as (ut & _ & H).
  apply bind_Ok_inv in H as (va & La & H).
  apply bind_Ok_inv in H as (age & _ & H).
  apply bind_Ok_inv in H as (vi & Li & H).
  apply bind_Ok_inv in H as (inq & _ & H).
  apply bind_Ok_inv in H as (vd & Ld & H).
  cbn [In] in Hk.
  destruct Hk as [<-|[<-|[<-|[<-|[<-|[]]]]]];
    rewrite Lk in *; discriminate.
Qed.

End HandlerProperties.

(* ================================================================== *)
(** ** Instances of the conditional statements *)

Section Witnesses.
Local Open Scope Q_scope.

(** C2, witness: 1.234 at 18 percent, on doubles. *)
Lemma gst_breakup_rounded_fields_witness :
  is_finite (flit 1.234) = true /\ is_finite (flit 18) = true /\
  fleb (flit 0) (flit 18) = true /\
  exists ga gr,
    gst_breakup (F:=float) (flit 1.234) (flit 18) "add" = Ok ga /\
    gst_breakup (F:=float) (flit 1.234) (flit 18) "remove" = Ok gr /\
    base ga = flit 1.234 /\ is_rounded 2 (gst ga) /\ is_rounded 2 (gross ga) /\
    gross gr = flit 1.234 /\ is_rounded 2 (gst gr) /\
    (feqb (fdiv (flit 18) (flit 100)) (flit 0) = true -> base gr = flit 1.234) /\
    (feqb (fdiv (flit 18) (flit 100)) (flit 0) = false ->
     is_rounded 2 (base gr)).
Proof.
  assert (Ha : is_finite (flit 1.234) = true) by (vm_compute; reflexivity).
  assert (Hr : is_finite (flit 18) = true) by (vm_compute; reflexivity).
  assert (Hle : fleb (F:=float) (flit 0) (flit 18) = true)
    by (vm_compute; reflexivity).
  split; [exact Ha|]. split; [exact Hr|]. split; [exact Hle|].
  exact (gst_breakup_rounded_fields (flit 1.234) (flit 18) Ha Hr Hle).
Defined.


(** C7, witness: a principal of 1.234 at 5 percent, compounded quarterly,
    on doubles. *)
Lemma fd_maturity_zero_years_witness :
  (4 <> 0)%Z /\
  of_int (F:=float) 4 = Ok (flit 4) /\
  fd_maturity (F:=float) (fun _ _ => Raise OverflowError)
    (flit 1.234) (flit 5) (flit 0) 4
  = Ok {| maturity := flit 1.23; interest := flit 0 |}.
Proof.
  assert (Hn0 : (4 <> 0)%Z) by lia.
  assert (Hn : of_int (F:=float) 4 = Ok (flit 4)) by reflexivity.
  split; [exact Hn0|]. split; [exact Hn|].
  rewrite (fd_maturity_zero_years (fun _ _ => Raise OverflowError)
             (flit 1.234) (flit 5) 4 (flit 4) Hn0 Hn).
  vm_compute. reflexivity.
Defined.

End Witnesses.

(* ================================================================== *)
(** ** Instances of the conditional statements on the handlers *)

Section HandlerInstances.
Local Open Scope Q_scope.

(** X1, witness: a principal of 1000 over 12 months at 1e-15 percent a
    year. *)
Lemma emi_unrepresentable_rate_raises_witness :
  pow_of_one (fun v _ => Ok v) /\
  fleb (F:=float) (flit 1000) (flit 0) = false /\
  (0 < 12)%Z /\
  of_int (F:=float) 12 = Ok (flit 12) /\
  feqb (F:=float) (fdiv (fdiv (flit 1e-15) (flit 100)) (flit 12)) (flit 0)
  = false /\
  fadd (F:=float) (flit 1) (fdiv (fdiv (flit 1e-15) (flit 100)) (flit 12))
  = flit 1 /\
  emi (F:=float) (fun v _ => Ok v) (flit 1000) (flit 1e-15) 12
  = Raise ZeroDivisionError.
Proof.
  assert (Hpow : pow_of_one (fun v _ => Ok v)) by (intros w; reflexivity).
  assert (Hp : fleb (F:=float) (flit 1000) (flit 0) = false)
    by (vm_compute; reflexivity).
  assert (Hm : (0 < 12)%Z) by lia.
  assert (Em : of_int (F:=float) 12 = Ok (flit 12))
    by (vm_compute; reflexivity).
  assert (Hr : feqb (F:=float) (fdiv (fdiv (flit 1e-15) (flit 100)) (flit 12))
                 (flit 0) = false) by (vm_compute; reflexivity).
  assert (H1 : fadd (F:=float) (flit 1)
                 (fdiv (fdiv (flit 1e-15) (flit 100)) (flit 12)) = flit 1)
    by (vm_compute; reflexivity).
  split; [exact Hpow|]. split; [exact Hp|]. split; [exact Hm|].
  split; [exact Em|]. split; [exact Hr|]. split; [exact H1|].
  exact (emi_unrepresentable_rate_raises (fun v _ => Ok v)
           (flit 1000) (flit 1e-15) 12 (flit 12) Hpow Hp Hm Em Hr H1).
Defined.

(** X2, witness: an installment of 1000 over 12 months at 1e-15 percent a
    year. *)
Lemma rd_maturity_unrepresentable_rate_witness :
  pow_of_one (fun v _ => Ok v) /\
  is_finite (flit (F:=float) 1000) = true /\
  fleb (F:=float) (flit 1000) (flit 0) = false /\
  (0 < 12)%Z /\
  of_int (F:=float) 12 = Ok (flit 12) /\
  fltb (F:=float) (flit 0) (fdiv (fdiv (flit 1e-15) (flit 100)) (flit 12))
  = true /\
  fadd (F:=float) (flit 1) (fdiv (fdiv (flit 1e-15) (flit 100)) (flit 12))
  = flit 1 /\
  rd_maturity (F:=float) (fun v _ => Ok v) (flit 1000) (flit 1e-15) 12 4
  = Ok {| maturity := flit 0; interest := flit (-12000) |}.
Proof.
  assert (Hpow : pow_of_one (fun v _ => Ok v)) by (intros w; reflexivity).
  assert (Hf : is_finite (flit 1000) = true) by (vm_compute; reflexivity).
  assert (Hp : fleb (F:=float) (flit 1000) (flit 0) = false)
    by (vm_compute; reflexivity).
  assert (Hm : (0 < 12)%Z) by lia.
  assert (Em : of_int (F:=float) 12 = Ok (flit 12))
    by (vm_compute; reflexivity).
  assert (Hi : fltb (F:=float) (flit 0)
                 (fdiv (fdiv (flit 1e-15) (flit 100)) (flit 12)) = true)
    by (vm_compute; reflexivity).
  assert (H1 : fadd (F:=float) (flit 1)
                 (fdiv (fdiv (flit 1e-15) (flit 100)) (flit 12)) = flit 1)
    by (vm_compute; reflexivity).
  split; [exact Hpow|]. split; [exact Hf|]. split; [exact Hp|].
  split; [exact Hm|]. split; [exact Em|]. split; [exact Hi|].
  split; [exact H1|].
  rewrite (rd_maturity_unrepresentable_rate (fun v _ => Ok v)
             (flit 1000) (flit 1e-15) 12 4 (flit 12) Hpow Hf Hp Hm Em Hi H1).
  vm_compute. reflexivity.
Defined.

(** X5, witness: 25 years of credit age. *)
Lemma estimate_credit_score_age_saturates_witness :
  fleb (F:=float) (flit 10) (flit 25) = true /\
  estimate_credit_score (F:=float) (flit 95) (flit 30) (flit 25) 2 (flit 20)
  = estimate_credit_score (F:=float) (flit 95) (flit 30) (flit 10) 2 (flit 20).
Proof.
  assert (Hle : fleb (F:=float) (flit 10) (flit 25) = true)
    by (vm_compute; reflexivity).
  split; [exact Hle|].
  exact (estimate_credit_score_age_saturates
           (flit 95) (flit 30) (flit 25) 2 (flit 20) Hle).
Defined.

(** X7, witness: from "inr" to "INR", with an [upper] that knows "inr". *)
Lemma api_currency_same_code_witness :
  (if String.eqb "inr" "inr" then "INR" else "inr")
  = (if String.eqb "INR" "inr" then "INR" else "INR") /\
  STATIC_RATES_BASE_USD (F:=float) !! "INR" = Some (flit 84) /\
  api_currency (F:=float) (fun s => if String.eqb s "inr" then "INR" else s)
    {| amount := flit 500; from_code := "inr"; to_code := "INR";
       custom_rate := None |}
  = Ok (Converted (flit 500) (flit 1) "Static demo rates").
Proof.
  assert (Hu : (fun s => if String.eqb s "inr" then "INR" else s) "inr"
               = (fun s => if String.eqb s "inr" then "INR" else s) "INR")
    by reflexivity.
  assert (Hl : STATIC_RATES_BASE_USD (F:=float)
                 !! (fun s => if String.eqb s "inr" then "INR" else s) "inr"
               = Some (flit 84)) by (vm_compute; reflexivity).
  split; [exact Hu|]. split; [exact Hl|].
  rewrite (api_currency_same_code
             (fun s => if String.eqb s "inr" then "INR" else s)
             (flit 500) "inr" "INR" (flit 84) Hu Hl).
  vm_compute. reflexivity.
Defined.

(** X9, witness: the mode "subtract". *)
Lemma api_gst_other_mode_witness :
  JStr "subtract" <> JStr "add" /\
  api_gst (fun _ => Raise ValueError)
    (<["mode" := JStr "subtract"]>
       (list_to_map [("amount", JInt 1180); ("gst_rate", JInt 18)]))
  = api_gst (fun _ => Raise ValueError)
      (<["mode" := JStr "remove"]>
         (list_to_map [("amount", JInt 1180); ("gst_rate", JInt 18)])).
Proof.
  assert (Hm : JStr "subtract" <> JStr "add") by discriminate.
  split; [exact Hm|].
  exact (api_gst_other_mode (fun _ => Raise ValueError)
           (list_to_map [("amount", JInt 1180); ("gst_rate", JInt 18)])
           (JStr "subtract") Hm).
Defined.

(** X12, witness: a deposit of 1000 at 6.5 percent over 2 years, with a
    "comp_per_year" of 0.5. *)
Lemma api_fd_zero_frequency_witness :
  py_int (fun _ => Raise ValueError) (JFloat (flit 0.5)) = Ok 0%Z /\
  api_fd (fun _ _ => Raise OverflowError) (fun _ => Raise ValueError)
    (fun _ => Raise ValueError)
    (list_to_map [("principal", JInt 1000); ("annual_rate", JFloat (flit 6.5));
                  ("years", JInt 2); ("comp_per_year", JFloat (flit 0.5))])
  = Raise ZeroDivisionError.
Proof.
  assert (Ec : py_int (fun _ => Raise ValueError) (JFloat (flit 0.5))
               = Ok 0%Z) by (vm_compute; reflexivity).
  split; [exact Ec|].
  apply (api_fd_zero_frequency (fun _ _ => Raise OverflowError)
           (fun _ => Raise ValueError) (fun _ => Raise ValueError) _
           (JInt 1000) (JFloat (flit 6.5)) (JInt 2) (JFloat (flit 0.5))
           (flit 1000) (flit 6.5) (flit 2));
    try exact Ec; vm_compute; reflexivity.
Defined.

(** X13, witness: a principal of 1000 at 10.5 percent, without "months". *)
Lemma api_emi_missing_months_witness :
  (list_to_map [("principal", JInt 1000);
                ("annual_rate_percent", JFloat (flit 10.5))]
     : gmap string json) !! "months" = None /\
  api_emi (fun _ _ => Raise OverflowError) (fun _ => Raise ValueError)
    (fun _ => Raise ValueError)
    (list_to_map [("principal", JInt 1000);
                  ("annual_rate_percent", JFloat (flit 10.5))])
  = Ok {| loan_emi := flit 0; total_payment := flit 0;
          total_interest := flit (-1000) |}.
Proof.
  assert (Lm : (list_to_map [("principal", JInt 1000);
                             ("annual_rate_percent", JFloat (flit 10.5))]
                  : gmap string json) !! "months" = None)
    by (vm_compute; reflexivity).
  split; [exact Lm|].
  rewrite (api_emi_missing_months (fun _ _ => Raise OverflowError)
             (fun _ => Raise ValueError) (fun _ => Raise ValueError) _
             (flit 1000) (flit 10.5) Lm);
    vm_compute; reflexivity.
Defined.

(** X14, witness: 12.9 months are answered as 12 months. *)
Lemma api_emi_fractional_months_witness :
  (0 <= 12 < 2 ^ 52)%Z /\
  fleb (F:=float) (flit 12) (flit 12.9) = true /\
  fltb (F:=float) (flit 12.9) (flit 13) = true /\
  api_emi (fun _ _ => Raise OverflowError) (fun _ => Raise ValueError)
    (fun _ => Raise ValueError)
    (<["months" := JFloat (flit 12.9)]>
       (list_to_map [("principal", JInt 1000);
                     ("annual_rate_percent", JInt 0)]))
  = api_emi (fun _ _ => Raise OverflowError) (fun _ => Raise ValueError)
      (fun _ => Raise ValueError)
      (<["months" := JInt 12]>
         (list_to_map [("principal", JInt 1000);
                       ("annual_rate_percent", JInt 0)])).
Proof.
  assert (Hz : (0 <= 12 < 2 ^ 52)%Z) by (split; [lia|reflexivity]).
  assert (Ez : of_int (F:=float) 12 = Ok (flit 12))
    by (vm_compute; reflexivity).
  assert (Ez1 : of_int (F:=float) (12 + 1) = Ok (flit 13))
    by (vm_compute; reflexivity).
  assert (Hle : fleb (F:=float) (flit 12) (flit 12.9) = true)
    by (vm_compute; reflexivity).
  assert (Hlt : fltb (F:=float) (flit 12.9) (flit 13) = true)
    by (vm_compute; reflexivity).
  split; [exact Hz|]. split; [exact Hle|]. split; [exact Hlt|].
  exact (api_emi_fractional_months (fun _ _ => Raise OverflowError)
           (fun _ => Raise ValueError) (fun _ => Raise ValueError)
           (list_to_map [("principal", JInt 1000);
                         ("annual_rate_percent", JInt 0)])
           (flit 12.9) (flit 12) (flit 13) 12 Hz Ez Ez1 Hle Hlt).
Defined.

(** X15, witness: 100 over 3 months and 1200 over 12 months, both without
    interest. *)
Lemma api_loan_compare_swap_witness :
  api_loan_compare (fun _ _ => Raise OverflowError)
    (fun _ => Raise ValueError) (fun _ => Raise ValueError)
    (list_to_map [("p1", JInt 100); ("r1", JInt 0); ("m1", JInt 3);
                  ("p2", JInt 1200); ("r2", JInt 0); ("m2", JInt 12)])
  = Ok {| loanA := {| loan_emi := flit 33.33; total_payment := flit 99.99;
                      total_interest := flit (-0.01) |};
          loanB := {| loan_emi := flit 100; total_payment := flit 1200;
                      total_interest := flit 0 |} |} /\
  api_loan_compare (fun _ _ => Raise OverflowError)
    (fun _ => Raise ValueError) (fun _ => Raise ValueError)
    (list_to_map [("p1", JInt 1200); ("r1", JInt 0); ("m1", JInt 12);
                  ("p2", JInt 100); ("r2", JInt 0); ("m2", JInt 3)])
  = Ok {| loanA := {| loan_emi := flit 100; total_payment := flit 1200;
                      total_interest := flit 0 |};
          loanB := {| loan_emi := flit 33.33; total_payment := flit 99.99;
                      total_interest := flit (-0.01) |} |}.
Proof.
  assert (H : api_loan_compare (fun _ _ => Raise OverflowError)
                (fun _ => Raise ValueError) (fun _ => Raise ValueError)
                (list_to_map [("p1", JInt 100); ("r1", JInt 0); ("m1", JInt 3);
                              ("p2", JInt 1200); ("r2", JInt 0);
                              ("m2", JInt 12)])
              = Ok {| loanA := {| loan_emi := flit 33.33;
                                  total_payment := flit 99.99;
                                  total_interest := flit (-0.01) |};
                      loanB := {| loan_emi := flit 100;
                                  total_payment := flit 1200;
                                  total_interest := flit 0 |} |})
    by (vm_compute; reflexivity).
  split; [exact H|].
  apply (api_loan_compare_swap (fun _ _ => Raise OverflowError)
           (fun _ => Raise ValueError) (fun _ => Raise ValueError)
           (list_to_map [("p1", JInt 100); ("r1", JInt 0); ("m1", JInt 3);
                         ("p2", JInt 1200); ("r2", JInt 0); ("m2", JInt 12)])
           (list_to_map [("p1", JInt 1200); ("r1", JInt 0); ("m1", JInt 12);
                         ("p2", JInt 100); ("r2", JInt 0); ("m2", JInt 3)])
           {| loanA := {| loan_emi := flit 33.33; total_payment := flit 99.99;
                         total_interest := flit (-0.01) |};
             loanB := {| loan_emi := flit 100; total_payment := flit 1200;
                         total_interest := flit 0 |} |});
    try exact H; vm_compute; reflexivity.
Defined.

(** X16, witness: the first loan of the same comparison. *)
Lemma api_loan_compare_first_is_api_emi_witness :
  api_emi (fun _ _ => Raise OverflowError) (fun _ => Raise ValueError)
    (fun _ => Raise ValueError)
    (<["principal" := JInt 100]>
       (<["annual_rate_percent" := JInt 0]> (<["months" := JInt 3]> empty)))
  = Ok {| loan_emi := flit 33.33; total_payment := flit 99.99;
          total_interest := flit (-0.01) |}.
Proof.
  assert (H : api_loan_compare (fun _ _ => Raise OverflowError)
                (fun _ => Raise ValueError) (fun _ => Raise ValueError)
                (list_to_map [("p1", JInt 100); ("r1", JInt 0); ("m1", JInt 3);
                              ("p2", JInt 1200); ("r2", JInt 0);
                              ("m2", JInt 12)])
              = Ok {| loanA := {| loan_emi := flit 33.33;
                                  total_payment := flit 99.99;
                                  total_interest := flit (-0.01) |};
                      loanB := {| loan_emi := flit 100;
                                  total_payment := flit 1200;
                                  total_interest := flit 0 |} |})
    by (vm_compute; reflexivity).
  apply (api_loan_compare_first_is_api_emi (fun _ _ => Raise OverflowError)
           (fun _ => Raise ValueError) (fun _ => Raise ValueError)
           (list_to_map [("p1", JInt 100); ("r1", JInt 0); ("m1", JInt 3);
                         ("p2", JInt 1200); ("r2", JInt 0); ("m2", JInt 12)])
           {| loanA := {| loan_emi := flit 33.33; total_payment := flit 99.99;
                         total_interest := flit (-0.01) |};
             loanB := {| loan_emi := flit 100; total_payment := flit 1200;
                         total_interest := flit 0 |} |}
           (JInt 100) (JInt 0) (JInt 3));
    try exact H; vm_compute; reflexivity.
Defined.

(** X17, witness: a request answered with the score 728. *)
Lemma api_credit_score_answer_witness :
  api_credit_score (fun _ => Raise ValueError) (fun _ => Raise ValueError)
    (list_to_map [("payment_history_pct", JInt 95); ("utilization_pct", JInt 30);
                  ("credit_age_years", JInt 5); ("inquiries", JInt 2);
                  ("dti_pct", JInt 20)])
  = Ok {| score := 728; band := "Good" |} /\
  (300 <= 728 <= 850)%Z /\
  ("Good" = "Poor" <-> (728 < 650)%Z) /\
  ("Good" = "Excellent" <-> (750 <= 728)%Z).
Proof.
  assert (H : api_credit_score (fun _ => Raise ValueError)
                (fun _ => Raise ValueError)
                (list_to_map [("payment_history_pct", JInt 95);
                              ("utilization_pct", JInt 30);
                              ("credit_age_years", JInt 5);
                              ("inquiries", JInt 2); ("dti_pct", JInt 20)])
              = Ok {| score := 728; band := "Good" |})
    by (vm_compute; reflexivity).
  split; [exact H|].
  exact (api_credit_score_answer (fun _ => Raise ValueError)
           (fun _ => Raise ValueError) _ _ H).
Defined.

(** X18, witness: a payment history raised from 95 to 99 percent. *)
Lemma api_credit_score_payment_history_witness :
  fleb (F:=float) (flit 95) (flit 99) = true /\
  exists c',
    api_credit_score (fun _ => Raise ValueError) (fun _ => Raise ValueError)
      (<["payment_history_pct" := JFloat (flit 99)]>
         (list_to_map [("payment_history_pct", JFloat (flit 95));
                       ("utilization_pct", JInt 30);
                       ("credit_age_years", JInt 5); ("inquiries", JInt 2);
                       ("dti_pct", JInt 20)]))
    = Ok c'
    /\ (728 <= score c')%Z
    /\ (band_rank "Good" <= band_rank (band c'))%Z.
Proof.
  assert (Hle : fleb (F:=float) (flit 95) (flit 99) = true)
    by (vm_compute; reflexivity).
  assert (H : api_credit_score (fun _ => Raise ValueError)
                (fun _ => Raise ValueError)
                (list_to_map [("payment_history_pct", JFloat (flit 95));
                              ("utilization_pct", JInt 30);
                              ("credit_age_years", JInt 5);
                              ("inquiries", JInt 2); ("dti_pct", JInt 20)])
              = Ok {| score := 728; band := "Good" |})
    by (vm_compute; reflexivity).
  split; [exact Hle|].
  apply (api_credit_score_payment_history (fun _ => Raise ValueError)
           (fun _ => Raise ValueError) _ (flit 95) (flit 99)
           {| score := 728; band := "Good" |});
    try exact Hle; try exact H; vm_compute; reflexivity.
Defined.

(** X19, witness: a request without "inquiries". *)
Lemma api_credit_score_missing_field_witness :
  exists e,
    api_credit_score (fun _ => Raise ValueError) (fun _ => Raise ValueError)
      (list_to_map [("payment_history_pct", JInt 95);
                    ("utilization_pct", JInt 30);
                    ("credit_age_years", JInt 5); ("dti_pct", JInt 20)])
    = Raise e.
Proof.
  apply (api_credit_score_missing_field (fun _ => Raise ValueError)
           (fun _ => Raise ValueError) _ "inquiries").
  - cbn [In]. right; right; right; left. reflexivity.
  - vm_compute. reflexivity.
Defined.

End HandlerInstances.
